(** * parse_and_nlp: the PDF -> Markdown -> natural-language pipeline

  A shallow embedding of [prompts.py], [pdf_parser.py], [nlp_processor.py],
  [config.py] and [main.py], and the properties of the pipeline contract.

  Conventions of the embedding.
  - A Python [str] is a [string] holding its UTF-8 bytes.  UTF-8 is
    self-synchronising and order preserving, so the substring test [in]
    and the comparison [<] on code points coincide with the same
    operations on the bytes.
  - [None]-defaulted parameters are [option]s.
  - The two remote services and the local file system are external
    collaborators: they are oracles (records of functions) held by the
    adapter objects and by the environment.  Calls to them are logged in
    the [World], which is threaded through every method.
  - [print] statements are not modelled.
  - [argparse] is modelled for the parser [main] builds, on the argument
    lists described at [main.parse_args].
  - [Exception] stands for the instances of Python's [Exception] class. *)

From Stdlib Require Import String Ascii List ZArith Lia Permutation Sorted.
From stdpp Require Import base list strings sorting pretty.

Open Scope string_scope.

(** ** Python strings *)

Definition nl : string := String "010"%char EmptyString.

(** [needle in hay] *)
Fixpoint contains (needle hay : string) : bool :=
  String.prefix needle hay ||
  match hay with
  | EmptyString => false
  | String _ rest => contains needle rest
  end.

(** [sep.join(l)] *)
Fixpoint join (sep : string) (l : list string) : string :=
  match l with
  | [] => ""
  | [x] => x
  | x :: rest => x +:+ sep +:+ join sep rest
  end.

(** [s.rfind(".")], [None] standing for [-1] *)
Fixpoint rfind_dot (s : string) : option nat :=
  match s with
  | EmptyString => None
  | String c rest =>
    match rfind_dot rest with
    | Some i => Some (S i)
    | None => if Ascii.eqb c "."%char then Some 0 else None
    end
  end.

(** [str(n)] for an [int] *)
Definition str_int (n : Z) : string := pretty n.

(** Truth value of an [Optional[str]]: [None] and [""] are falsy. *)
Definition truthy_str (o : option string) : bool :=
  match o with
  | Some s => negb (String.eqb s "")
  | None => false
  end.

(** Truth value of an [Optional[bool]]. *)
Definition truthy_bool (o : option bool) : bool :=
  match o with
  | Some b => b
  | None => false
  end.

(** Truth value of an [Optional[int]]: [None] and [0] are falsy. *)
Definition truthy_int (o : option Z) : bool :=
  match o with
  | Some n => negb (Z.eqb n 0)
  | None => false
  end.

(** ** pathlib *)

(** A [Path] is its tuple of [parts]; an absolute path starts with ["/"]. *)
Definition Path : Type := list string.

Module pathlib.

Definition name (p : Path) : string :=
  match p with
  | [] => ""
  | [r] => if String.eqb r "/" then "" else r
  | _ => List.last p ""
  end.

(** [PurePath.stem], computed from the final component *)
Definition stem_of (nm : string) : string :=
  match rfind_dot nm with
  | Some i =>
      if (0 <? i)%nat && (i <? String.length nm - 1)%nat
      then substring 0 i nm
      else nm
  | None => nm
  end.

Definition stem (p : Path) : string := stem_of (name p).

(** [s.split("/")] *)
Fixpoint split_slash (s : string) : list string :=
  match s with
  | EmptyString => [""]
  | String c rest =>
      if Ascii.eqb c "/"%char then "" :: split_slash rest
      else
        match split_slash rest with
        | [] => [String c ""]
        | x :: xs => String c x :: xs
        end
  end.

(** [PurePath(s).name] for a path given as a string: the last of the
    components of [s] between slashes, the empty ones and the ["."] ones left
    out; [""] when there is none. *)
Definition name_of_str (s : string) : string :=
  List.last
    (List.filter (fun x => negb (String.eqb x "") && negb (String.eqb x ".")) (split_slash s))
    "".

(** [str(p)] *)
Definition str (p : Path) : string :=
  match p with
  | [] => "."
  | r :: rest => if String.eqb r "/" then "/" +:+ join "/" rest else join "/" p
  end.

(** [d / s] for a single, non-empty component [s] *)
Definition joinpath (d : Path) (s : string) : Path := (d ++ [s])%list.

(** [p1 < p2]: the tuples of parts are compared lexicographically *)
Definition compare (p q : Path) : comparison := list_compare String.compare p q.

Definition le (p q : Path) : Prop := compare p q <> Gt.

End pathlib.

(** ** prompts.py *)

Module prompts.

(** A template with the single replacement field [{markdown_content}]:
    the text before the field and the text after it. *)
Record Template := { before : string; after : string }.

(** [t.format(markdown_content=c)] *)
Definition format (t : Template) (markdown_content : string) : string :=
  before t +:+ markdown_content +:+ after t.

Definition STRUCTURED_DATA_EXTRACTION_PROMPT : Template :=
  {| before := "あなたは、構造化データ（表、チャート、図表など）を分析し、情報を欠落させずに自然言語の構造化テキストに変換する専門家です。

以下のMarkdown形式のデータを、**情報の欠落なく**、構造化されたRAG（Retrieval Augmented Generation）用のテキストデータに変換してください。

## 処理手順

### 1. 定義フェーズ：軸と構造の定義
まず、このデータの構成要素を整理してください：

- **縦軸（行）の項目**：カテゴリ、大項目、中項目などの階層構造をすべて抽出してください
- **横軸（列）の項目**：列見出しが多段階層になっている場合、その階層をすべて明文化してください
- **凡例・記号の確認**：「○」「×」「△」「-」「✓」「✗」などの記号や、数値、テキストが何を意味するか、データ内から抽出してください
- **データ構造の特定**：表形式、リスト形式、フロー図、組織図など、どのような構造を持つデータかを明確にしてください

### 2. 抽出フェーズ：全データの逐次記述
データの各要素を以下のフォーマットで書き出してください。**データが空欄や「-」であっても省略しないでください。**

**【記述フォーマット】**
```
[行項目パス] (例: カテゴリA > サブカテゴリB > 項目C)
[列項目パス] (例: 条件1 > 条件2 > 詳細条件3)
[セル内容] (例: ○：可能 / ×：不可 / 数値 / テキスト / 空欄)
[適用される注釈] (例: 注1を適用 / 補足説明あり)
```

**重要：**
- すべてのセル（交差点）について記述してください
- 空欄やハイフン「-」も明記してください
- 複数行や複数列にまたがるセルの場合、その範囲を明記してください
- 階層構造がある場合、「>」記号で親子関係を表現してください

### 3. 統合フェーズ：注釈・補足情報の論理合成
データに関連する注釈、脚注、補足説明をすべてリストアップし、以下を明確にしてください：

- **注釈の内容**：各注釈が何を説明しているか
- **適用対象**：どの項目、どのセルに適用されるか
- **条件・例外**：特定の条件下でのみ適用される場合、その条件を明記
- **依存関係**：複数の注釈が組み合わさる場合、その関係性を説明

### 4. 要約フェーズ：自然言語による全体解説
上記のデータに基づき、人間とAIが理解しやすい文章で全体を解説してください：

- **データの概要**：このデータが何を表しているか
- **主要なルール・パターン**：データから読み取れる主要な規則や傾向
- **例外条件**：特殊なケース、例外的な条件がある場合は強調
- **重要な制約**：特定の条件下でのみ有効な情報がある場合は明記
- **関連性・依存関係**：項目間の関連性や依存関係

**出力形式：**
- 箇条書き形式で出力してください（まとめずに、詳細を保持）
- RAGシステムで検索しやすいよう、キーワードを明確に含めてください
- 曖昧な表現を避け、具体的に記述してください

### 5. 検証フェーズ：精度確認
回答を出力する前に、以下を**3回**再確認してください：

1. **座標の確認**：縦軸の項目名と横軸の項目名が正確か
2. **記号の確認**：記号やマーカー（○、×など）が元データと一致しているか
3. **注釈の確認**：注釈の適用対象と内容が正確か

もし矛盾や誤りを発見した場合は、修正してから出力してください。

---

## 入力データ

以下のMarkdownデータを処理してください：

";
     after := "

---

## 出力

上記の手順に従って、構造化されたRAG用のテキストデータを出力してください。" |}.

Definition GENERAL_EXTRACTION_PROMPT : Template :=
  {| before := "以下のMarkdown形式のデータを、RAG（Retrieval Augmented Generation）システムで活用しやすい、構造化された自然言語テキストに変換してください。

## 要件

1. **情報の完全性**：元データの情報を欠落させずに変換してください
2. **構造の保持**：階層構造、リスト、セクションなどの構造を明確に保ってください
3. **検索可能性**：重要なキーワードを明確に含め、検索しやすい形式にしてください
4. **明確性**：曖昧な表現を避け、具体的に記述してください
5. **箇条書き形式**：まとめすぎず、詳細を箇条書きで保持してください

## 処理手順

1. **データの分類**：このデータが何を表しているか（文書、説明、手順、規則など）を明確にする
2. **主要な情報の抽出**：重要なポイント、ルール、手順、定義などを抽出する
3. **詳細の展開**：各項目について、詳細情報を漏らさず記述する
4. **関連性の明記**：項目間の関連性や依存関係があれば明記する
5. **補足情報の統合**：注釈、例外、条件などを適切に統合する

---

## 入力データ

";
     after := "

---

## 出力

上記の要件と手順に従って、RAG用の構造化テキストを出力してください。" |}.

Definition table_indicators : list string :=
  [ "|"; "---"; "<table>"; "<tr>"; "<td>";
    "縦軸"; "横軸"; "行"; "列"; "セル" ].

(** [any(indicator in markdown_content for indicator in table_indicators)] *)
Definition auto_detect (markdown_content : string) : bool :=
  existsb (fun indicator => contains indicator markdown_content) table_indicators.

Definition get_prompt_for_data
    (markdown_content : string) (use_table_prompt : option bool) : string :=
  let use_table_prompt :=
    match use_table_prompt with
    | None => auto_detect markdown_content
    | Some b => b
    end in
  if use_table_prompt
  then format STRUCTURED_DATA_EXTRACTION_PROMPT markdown_content
  else format GENERAL_EXTRACTION_PROMPT markdown_content.

End prompts.


(** ** Exceptions, external collaborators and the world *)

Inductive Exception :=
| FileNotFoundError (msg : string)
| ValueError (msg : string)
| IndexError (msg : string)
| OtherError (cls msg : string).

(** [str(e)] *)
Definition str_exc (e : Exception) : string :=
  match e with
  | FileNotFoundError msg | ValueError msg | IndexError msg | OtherError _ msg => msg
  end.

(** What a finished parse job holds: the [text] of each document of
    [get_markdown_documents(split_by_page=True)], and the number of pages the
    backend reports on its own in the job's metadata. *)
Record JobResult := {
  markdown_documents : list string;
  job_pages : nat
}.

(** The [LlamaParse] client: [parse] and [aparse], called with one file name
    or with a list of file names. *)
Record LlamaParse := {
  parse : string -> Exception + JobResult;
  parse_batch : list string -> Exception + list JobResult;
  aparse : string -> Exception + JobResult;
  aparse_batch : list string -> Exception + list JobResult
}.

(** The answer of [client.messages.create]: the [text] of each content block
    and the usage counters. *)
Record Message := {
  content : list string;
  usage_input_tokens : Z;
  usage_output_tokens : Z
}.

Record Anthropic := {
  messages_create : string -> Z -> string -> Exception + Message
}.

Inductive RemoteCall :=
| ParseCall (file : string)
| ParseBatchCall (files : list string)
| AParseCall (file : string)
| AParseBatchCall (files : list string)
| MessagesCreateCall (model : string) (max_tokens : Z) (prompt : string).

(** The local machine: where the program lives, which paths exist, what a
    directory enumerates (in the file system's own order), and whether
    creating and writing an output file fails. *)
Record Env := {
  BASE_DIR : Path;
  path_exists : Path -> bool;
  scandir : Path -> list string;
  write_error : Path -> option Exception
}.

(** The effects of a run: the remote calls issued and the files written,
    oldest first. *)
Record World := {
  remote_calls : list RemoteCall;
  written : list (Path * string)
}.

Definition empty_world : World := {| remote_calls := []; written := [] |}.

Inductive Outcome (A : Type) :=
| Ok (a : A)
| Raise (e : Exception).

Arguments Ok {A} a.
Arguments Raise {A} e.

(** A method body: reads the environment, updates the world, returns or
    raises. *)
Definition M (A : Type) : Type := Env -> World -> Outcome A * World.

Definition ret {A} (a : A) : M A := fun _ w => (Ok a, w).

Definition raise {A} (e : Exception) : M A := fun _ w => (Raise e, w).

Definition bind {A B} (m : M A) (k : A -> M B) : M B :=
  fun env w =>
    match m env w with
    | (Ok a, w') => k a env w'
    | (Raise e, w') => (Raise e, w')
    end.

Notation "x <-- m ; k" := (bind m (fun x => k))
  (at level 20, m at level 100, k at level 200).

(** [p.exists()] *)
Definition exists_ (p : Path) : M bool := fun env w => (Ok (path_exists env p), w).

Definition log_call (c : RemoteCall) (w : World) : World :=
  {| remote_calls := remote_calls w ++ [c]; written := written w |}.

Definition of_answer {A} (answer : Exception + A) : Outcome A :=
  match answer with
  | inl e => Raise e
  | inr a => Ok a
  end.

(** A blocking remote call. *)
Definition remote {A} (c : RemoteCall) (answer : Exception + A) : M A :=
  fun _ w => (of_answer answer, log_call c w).

(** [d.mkdir(parents=True, exist_ok=True)], [open(p, "w")] and [f.write(s)] *)
Definition write_text (p : Path) (s : string) : M unit :=
  fun env w =>
    match write_error env p with
    | Some e => (Raise e, w)
    | None => (Ok tt, {| remote_calls := remote_calls w; written := written w ++ [(p, s)] |})
    end.

(** [for x in l: body(x)] *)
Fixpoint for_each {A} (l : list A) (body : A -> M unit) : M unit :=
  match l with
  | [] => ret tt
  | x :: rest => _ <-- body x; for_each rest body
  end.

(** A coroutine of this program suspends once, at its remote call: started,
    it runs up to that call and hands back the rest of its body, to be
    resumed when the answer is there; or it raises before it suspends. *)
Definition Coroutine (A : Type) : Type := M (M A).

(** [await] of a remote call: the request leaves now, the answer is read on
    resumption. *)
Definition await_remote {A} (c : RemoteCall) (answer : Exception + A) : Coroutine A :=
  fun _ w => (Ok (fun _ w' => (of_answer answer, w')), log_call c w).

Notation "x <-- 'await' c ; k" :=
  (bind c (fun resume => ret (bind resume (fun x => k))))
  (at level 20, c at level 100, k at level 200).

(** Running one coroutine alone, to its end. *)
Definition run_until_complete {A} (c : Coroutine A) : M A :=
  resume <-- c; resume.

(** ** config.py *)

Module config.

Definition DATA_DIR (env : Env) : Path := pathlib.joinpath (BASE_DIR env) "data".
Definition OUTPUT_DIR (env : Env) : Path := pathlib.joinpath (BASE_DIR env) "output".
Definition MARKDOWN_DIR (env : Env) : Path := pathlib.joinpath (OUTPUT_DIR env) "markdown".
Definition NATURAL_LANGUAGE_DIR (env : Env) : Path :=
  pathlib.joinpath (OUTPUT_DIR env) "natural_language".

(** The [page_separator] entry of [LLAMA_PARSE_CONFIG], an option handed to
    the [LlamaParse] constructor. *)
Definition page_separator : string := nl +:+ nl +:+ "---" +:+ nl +:+ nl.

Definition CLAUDE_MODEL : string := "claude-sonnet-4-20250514".
Definition CLAUDE_MAX_TOKENS : Z := 8000.

End config.

(** ** pdf_parser.py *)

Module ParsedData.

(** The dictionary returned by the parse methods. *)
Record t := {
  filename : string;
  markdown : string;
  page_count : nat;
  result : JobResult
}.

End ParsedData.

Module pdf_parser.

Record PDFParser := { parser : LlamaParse }.

Definition parse_single_pdf (self : PDFParser) (pdf_path : Path) : M ParsedData.t :=
  found <-- exists_ pdf_path;
  if negb found
  then raise (FileNotFoundError ("PDF file not found: " +:+ pathlib.str pdf_path))
  else
    result <-- remote (ParseCall (pathlib.str pdf_path))
                      (parse (parser self) (pathlib.str pdf_path));
    let markdown_documents := markdown_documents result in
    let full_markdown := join (nl +:+ nl) markdown_documents in
    ret {| ParsedData.filename := pathlib.name pdf_path;
           ParsedData.markdown := full_markdown;
           ParsedData.page_count := length markdown_documents;
           ParsedData.result := result |}.

(** The loop [for pdf_path in pdf_paths: if not pdf_path.exists(): raise ...] *)
Definition verify_all_exist (pdf_paths : list Path) : M unit :=
  for_each pdf_paths (fun pdf_path =>
    found <-- exists_ pdf_path;
    if negb found
    then raise (FileNotFoundError ("PDF file not found: " +:+ pathlib.str pdf_path))
    else ret tt).

Definition parse_multiple_pdfs (self : PDFParser) (pdf_paths : list Path)
  : M (list ParsedData.t) :=
  _ <-- verify_all_exist pdf_paths;
  results <-- remote (ParseBatchCall (map pathlib.str pdf_paths))
                     (parse_batch (parser self) (map pathlib.str pdf_paths));
  ret (map (fun '(pdf_path, result) =>
              let markdown_documents := markdown_documents result in
              let full_markdown := join (nl +:+ nl) markdown_documents in
              {| ParsedData.filename := pathlib.name pdf_path;
                 ParsedData.markdown := full_markdown;
                 ParsedData.page_count := length markdown_documents;
                 ParsedData.result := result |})
           (zip pdf_paths results)).

Definition parse_single_pdf_async (self : PDFParser) (pdf_path : Path)
  : Coroutine ParsedData.t :=
  found <-- exists_ pdf_path;
  if negb found
  then raise (FileNotFoundError ("PDF file not found: " +:+ pathlib.str pdf_path))
  else
    result <-- await (await_remote (AParseCall (pathlib.str pdf_path))
                                   (aparse (parser self) (pathlib.str pdf_path)));
    let markdown_documents := markdown_documents result in
    let full_markdown := join (nl +:+ nl) markdown_documents in
    ret {| ParsedData.filename := pathlib.name pdf_path;
           ParsedData.markdown := full_markdown;
           ParsedData.page_count := length markdown_documents;
           ParsedData.result := result |}.

Definition parse_multiple_pdfs_async (self : PDFParser) (pdf_paths : list Path)
  : Coroutine (list ParsedData.t) :=
  _ <-- verify_all_exist pdf_paths;
  results <-- await (await_remote (AParseBatchCall (map pathlib.str pdf_paths))
                                  (aparse_batch (parser self) (map pathlib.str pdf_paths)));
  ret (map (fun '(pdf_path, result) =>
              let markdown_documents := markdown_documents result in
              let full_markdown := join (nl +:+ nl) markdown_documents in
              {| ParsedData.filename := pathlib.name pdf_path;
                 ParsedData.markdown := full_markdown;
                 ParsedData.page_count := length markdown_documents;
                 ParsedData.result := result |})
           (zip pdf_paths results)).

Definition save_markdown (self : PDFParser) (parsed_data : ParsedData.t)
    (output_dir : option Path) : M Path :=
  fun env =>
    let output_dir := default (config.MARKDOWN_DIR env) output_dir in
    let filename :=
      pathlib.stem_of (pathlib.name_of_str (ParsedData.filename parsed_data)) +:+ ".md" in
    let output_path := pathlib.joinpath output_dir filename in
    (_ <-- write_text output_path (ParsedData.markdown parsed_data);
     ret output_path) env.

(** [fnmatch(name, "*.pdf")] *)
Fixpoint matches_pdf (name : string) : bool :=
  String.eqb name ".pdf" ||
  match name with
  | EmptyString => false
  | String _ rest => matches_pdf rest
  end.

(** [directory.glob("*.pdf")], in the order the directory enumerates *)
Definition glob_pdf (env : Env) (directory : Path) : list Path :=
  map (pathlib.joinpath directory) (List.filter matches_pdf (scandir env directory)).

#[global] Instance path_le_dec (p q : Path) : Decision (pathlib.le p q).
Proof. unfold pathlib.le. destruct (pathlib.compare p q); [left | left | right]; congruence. Defined.

(** [sorted] *)
Definition sorted (l : list Path) : list Path := merge_sort pathlib.le l.

Definition get_all_pdfs_in_directory (env : Env) (directory : Path) : list Path :=
  sorted (glob_pdf env directory).

End pdf_parser.

(** ** nlp_processor.py *)

Module NLResult.

(** The dictionary returned by [process_markdown]; [source_file] is the key
    the callers add afterwards. *)
Record t := {
  natural_language : string;
  model : string;
  input_tokens : Z;
  output_tokens : Z;
  prompt_type : string;
  source_file : option string
}.

Definition set_source_file (r : t) (f : string) : t :=
  {| natural_language := natural_language r;
     model := model r;
     input_tokens := input_tokens r;
     output_tokens := output_tokens r;
     prompt_type := prompt_type r;
     source_file := Some f |}.

End NLResult.

Module nlp_processor.

Record NLPProcessor := { client : Anthropic; model : string }.

Definition process_markdown (self : NLPProcessor) (markdown_content : string)
    (use_table_prompt : option bool) (custom_prompt : option string)
    (max_tokens : option Z) : M NLResult.t :=
  let max_tokens :=
    if truthy_int max_tokens then default 0%Z max_tokens else config.CLAUDE_MAX_TOKENS in
  let prompt :=
    if truthy_str custom_prompt
    then default "" custom_prompt
    else prompts.get_prompt_for_data markdown_content use_table_prompt in
  message <-- remote (MessagesCreateCall (model self) max_tokens prompt)
                     (messages_create (client self) (model self) max_tokens prompt);
  match content message with
  | [] => raise (IndexError "list index out of range")
  | response_text :: _ =>
      ret {| NLResult.natural_language := response_text;
             NLResult.model := model self;
             NLResult.input_tokens := usage_input_tokens message;
             NLResult.output_tokens := usage_output_tokens message;
             NLResult.prompt_type :=
               if truthy_str custom_prompt then "custom"
               else if truthy_bool use_table_prompt then "table" else "general";
             NLResult.source_file := None |}
  end.

(** The text written by [save_natural_language]. *)
Definition output_content (processed_data : NLResult.t) : string :=
  "# 自然言語処理結果" +:+ nl +:+
  "# Model: " +:+ NLResult.model processed_data +:+ nl +:+
  "# Prompt Type: " +:+ NLResult.prompt_type processed_data +:+ nl +:+
  "# Input Tokens: " +:+ str_int (NLResult.input_tokens processed_data) +:+ nl +:+
  "# Output Tokens: " +:+ str_int (NLResult.output_tokens processed_data) +:+ nl +:+
  nl +:+
  NLResult.natural_language processed_data +:+ nl.

Definition save_natural_language (self : NLPProcessor) (processed_data : NLResult.t)
    (output_dir : option Path) (filename : option string) : M Path :=
  fun env =>
    let output_dir := default (config.NATURAL_LANGUAGE_DIR env) output_dir in
    let filename :=
      match filename with
      | Some f => f
      | None =>
          match NLResult.source_file processed_data with
          | Some src => pathlib.stem_of (pathlib.name_of_str src) +:+ "_nl.txt"
          | None => "natural_language_output.txt"
          end
      end in
    let output_path := pathlib.joinpath output_dir filename in
    (_ <-- write_text output_path (output_content processed_data);
     ret output_path) env.

End nlp_processor.

(** ** main.py *)

Module PipelineResult.

(** The dictionary returned by [process_single_pdf]. *)
Record t := {
  pdf_file : string;
  markdown : string;
  markdown_path : option Path;
  natural_language : string;
  natural_language_path : option Path;
  page_count : nat;
  model : string;
  input_tokens : Z;
  output_tokens : Z
}.

End PipelineResult.

(** An entry of a batch's result list: the dictionary of a document that went
    through, or the dictionary with the keys [pdf_file] and [error]. *)
Inductive BatchRecord :=
| Succeeded (r : PipelineResult.t)
| Failed (pdf_file error : string).

Definition record_pdf_file (r : BatchRecord) : string :=
  match r with
  | Succeeded r => PipelineResult.pdf_file r
  | Failed pdf_file _ => pdf_file
  end.

(** ["error" in r] *)
Definition has_error (r : BatchRecord) : bool :=
  match r with
  | Succeeded _ => false
  | Failed _ _ => true
  end.

(** The state of a task under [asyncio.gather]. *)
Inductive TaskState (A : Type) :=
| Pending (resume : M A)
| Finished (o : Outcome A).

Arguments Pending {A} resume.
Arguments Finished {A} o.

Module asyncio.

(** Each task is started in the order of creation and runs up to its
    suspension point. *)
Fixpoint start_all {A} (tasks : list (Coroutine A)) (env : Env) (w : World)
  : list (TaskState A) * World :=
  match tasks with
  | [] => ([], w)
  | c :: rest =>
      let '(o, w1) := c env w in
      let st := match o with
                | Ok resume => Pending resume
                | Raise e => Finished (Raise e)
                end in
      let '(sts, w2) := start_all rest env w1 in
      (st :: sts, w2)
  end.

(** The answer for task [i] arrives: if the task is still suspended it runs to
    its end, and its outcome is stored at its own position. *)
Definition complete {A} (i : nat) (env : Env) (sw : list (TaskState A) * World)
  : list (TaskState A) * World :=
  let '(sts, w) := sw in
  match sts !! i with
  | Some (Pending resume) =>
      let '(o, w') := resume env w in (<[i := Finished o]> sts, w')
  | _ => (sts, w)
  end.

Definition complete_all {A} (order : list nat) (env : Env)
    (sw : list (TaskState A) * World) : list (TaskState A) * World :=
  fold_left (fun sw i => complete i env sw) order sw.

Definition outcome_of {A} (st : TaskState A) : option (Outcome A) :=
  match st with
  | Finished o => Some o
  | Pending _ => None
  end.

(** [await asyncio.gather] over the tasks with [return_exceptions=True].
    [order] is the
    order in which the event loop receives the answers of the suspended
    tasks, given by their positions; tasks it does not name are completed
    afterwards, by position.  The list returned holds, at each position, the
    value or the exception of the task created at that position. *)
Definition gather {A} (order : list nat) (tasks : list (Coroutine A))
  : M (list (Outcome A)) :=
  fun env w =>
    let started := start_all tasks env w in
    let '(sts, w') := complete_all (order ++ seq 0 (length tasks)) env started in
    (Ok (omap outcome_of sts), w').

End asyncio.

Module main.

Record Pipeline := {
  pdf_parser : pdf_parser.PDFParser;
  nlp_processor : nlp_processor.NLPProcessor;
  use_async : bool
}.

Definition process_single_pdf (self : Pipeline) (pdf_path : Path)
    (use_table_prompt : option bool) (save_markdown save_natural_language : bool)
  : M PipelineResult.t :=
  parsed_data <-- pdf_parser.parse_single_pdf (pdf_parser self) pdf_path;
  markdown_path <--
    (if save_markdown
     then p <-- pdf_parser.save_markdown (pdf_parser self) parsed_data None; ret (Some p)
     else ret None);
  nl_result <-- nlp_processor.process_markdown (nlp_processor self)
                  (ParsedData.markdown parsed_data) use_table_prompt None None;
  nl_path <--
    (if save_natural_language
     then
       let nl_result := NLResult.set_source_file nl_result (pathlib.name pdf_path) in
       p <-- nlp_processor.save_natural_language (nlp_processor self) nl_result None
               (Some (pathlib.stem pdf_path +:+ "_nl.txt"));
       ret (Some p)
     else ret None);
  ret {| PipelineResult.pdf_file := pathlib.name pdf_path;
         PipelineResult.markdown := ParsedData.markdown parsed_data;
         PipelineResult.markdown_path := markdown_path;
         PipelineResult.natural_language := NLResult.natural_language nl_result;
         PipelineResult.natural_language_path := nl_path;
         PipelineResult.page_count := ParsedData.page_count parsed_data;
         PipelineResult.model := NLResult.model nl_result;
         PipelineResult.input_tokens := NLResult.input_tokens nl_result;
         PipelineResult.output_tokens := NLResult.output_tokens nl_result |}.

Definition process_single_pdf_async (self : Pipeline) (pdf_path : Path)
    (use_table_prompt : option bool) (save_markdown save_natural_language : bool)
  : Coroutine PipelineResult.t :=
  parsed_data <-- await (pdf_parser.parse_single_pdf_async (pdf_parser self) pdf_path);
  markdown_path <--
    (if save_markdown
     then p <-- pdf_parser.save_markdown (pdf_parser self) parsed_data None; ret (Some p)
     else ret None);
  nl_result <-- nlp_processor.process_markdown (nlp_processor self)
                  (ParsedData.markdown parsed_data) use_table_prompt None None;
  nl_path <--
    (if save_natural_language
     then
       let nl_result := NLResult.set_source_file nl_result (pathlib.name pdf_path) in
       p <-- nlp_processor.save_natural_language (nlp_processor self) nl_result None
               (Some (pathlib.stem pdf_path +:+ "_nl.txt"));
       ret (Some p)
     else ret None);
  ret {| PipelineResult.pdf_file := pathlib.name pdf_path;
         PipelineResult.markdown := ParsedData.markdown parsed_data;
         PipelineResult.markdown_path := markdown_path;
         PipelineResult.natural_language := NLResult.natural_language nl_result;
         PipelineResult.natural_language_path := nl_path;
         PipelineResult.page_count := ParsedData.page_count parsed_data;
         PipelineResult.model := NLResult.model nl_result;
         PipelineResult.input_tokens := NLResult.input_tokens nl_result;
         PipelineResult.output_tokens := NLResult.output_tokens nl_result |}.

(** The body of the loop of [process_multiple_pdfs]: [try] the document,
    [except Exception] record the failure; one entry is appended either way. *)
Definition try_process (self : Pipeline) (pdf_path : Path)
    (use_table_prompt : option bool) (save_markdown save_natural_language : bool)
  : M BatchRecord :=
  fun env w =>
    match process_single_pdf self pdf_path use_table_prompt
            save_markdown save_natural_language env w with
    | (Ok result, w') => (Ok (Succeeded result), w')
    | (Raise e, w') => (Ok (Failed (pathlib.name pdf_path) (str_exc e)), w')
    end.

Fixpoint process_multiple_pdfs (self : Pipeline) (pdf_paths : list Path)
    (use_table_prompt : option bool) (save_markdown save_natural_language : bool)
  : M (list BatchRecord) :=
  match pdf_paths with
  | [] => ret []
  | pdf_path :: rest =>
      r <-- try_process self pdf_path use_table_prompt save_markdown save_natural_language;
      results <-- process_multiple_pdfs self rest use_table_prompt
                    save_markdown save_natural_language;
      ret (r :: results)
  end.

(** [order] is the order of arrival of the answers, see [asyncio.gather]. *)
Definition process_multiple_pdfs_async (order : list nat) (self : Pipeline)
    (pdf_paths : list Path) (use_table_prompt : option bool)
    (save_markdown save_natural_language : bool) : M (list BatchRecord) :=
  let tasks :=
    map (fun pdf_path =>
           process_single_pdf_async self pdf_path use_table_prompt
             save_markdown save_natural_language) pdf_paths in
  results <-- asyncio.gather order tasks;
  ret (map (fun '(pdf_path, result) =>
              match result with
              | Raise e => Failed (pathlib.name pdf_path) (str_exc e)
              | Ok result => Succeeded result
              end)
           (zip pdf_paths results)).

(** The attributes of the [args] namespace. *)
Record Namespace := {
  pdf_path : option string;
  llama_api_key : option string;
  anthropic_api_key : option string;
  table_prompt : bool;
  general_prompt : bool;
  no_save_markdown : bool;
  no_save_nl : bool;
  args_use_async : bool
}.

Definition defaults : Namespace :=
  {| pdf_path := None; llama_api_key := None; anthropic_api_key := None;
     table_prompt := false; general_prompt := false;
     no_save_markdown := false; no_save_nl := false; args_use_async := false |}.

(** *** argparse

    [parser.parse_args()] for the parser [main] builds: the positional
    [pdf_path] with [nargs="?"], two options that take one value, five
    [store_true] flags, and the [-h]/[--help] option every parser has.  The
    model follows [ArgumentParser._parse_optional] and [_parse_known_args].
    It leaves out, and answers [OutsideModel] for, the argument lists on which
    the versions of argparse differ or which need more of it: those with a
    single-dash string that starts like [-h] or like a number without being
    [-h] or a dash followed by decimal digits; with [--] as the value after
    [=]; with an ambiguous abbreviation together with a help option; with a
    second separator [--], or with a separator after the positional argument
    has been given. *)

Inductive Action :=
| HelpAction
| StoreLlamaApiKey
| StoreAnthropicApiKey
| StoreTrueTablePrompt
| StoreTrueGeneralPrompt
| StoreTrueNoSaveMarkdown
| StoreTrueNoSaveNl
| StoreTrueUseAsync.

(** [parser._option_string_actions], in the order of registration *)
Definition option_string_actions : list (string * Action) :=
  [ ("-h", HelpAction); ("--help", HelpAction);
    ("--llama-api-key", StoreLlamaApiKey);
    ("--anthropic-api-key", StoreAnthropicApiKey);
    ("--table-prompt", StoreTrueTablePrompt);
    ("--general-prompt", StoreTrueGeneralPrompt);
    ("--no-save-markdown", StoreTrueNoSaveMarkdown);
    ("--no-save-nl", StoreTrueNoSaveNl);
    ("--async", StoreTrueUseAsync) ].

(** [self._option_string_actions[s]], when [s] is among the keys *)
Fixpoint lookup_action (s : string) (l : list (string * Action)) : option Action :=
  match l with
  | [] => None
  | (o, action) :: rest => if String.eqb o s then Some action else lookup_action s rest
  end.

(** [s.split("=", 1)]: the text before the first [=], and the text after it
    when there is one *)
Fixpoint partition_eq (s : string) : string * option string :=
  match s with
  | EmptyString => ("", None)
  | String c rest =>
      if Ascii.eqb c "="%char then ("", Some rest)
      else let '(before, after) := partition_eq rest in (String c before, after)
  end.

(** One of the characters [0] to [9]. *)
Definition is_digit (c : ascii) : bool :=
  Nat.leb 48 (nat_of_ascii c) && Nat.leb (nat_of_ascii c) 57.

(** Every character is one of [0] to [9]. *)
Fixpoint all_digits (s : string) : bool :=
  match s with
  | EmptyString => true
  | String c rest => is_digit c && all_digits rest
  end.

(** A character after which a single-dash string is neither a number nor a
    cluster of [-h] options: an ASCII character other than a digit, the dot
    and [h]. *)
Definition starts_no_number_or_help (c : ascii) : bool :=
  Nat.ltb (nat_of_ascii c) 128 && negb (is_digit c) &&
  negb (Ascii.eqb c "."%char) && negb (Ascii.eqb c "h"%char).

(** What [_parse_optional] makes of one argument string: an argument (["A"]
    in the pattern of argparse), an option with the argument given after
    [=] if any (["O"]), a string that looks like an option and is none, an
    abbreviation that several options share. *)
Inductive ArgClass :=
| Argument
| Optional (action : Action) (explicit_arg : option string)
| NoSuchOption
| AmbiguousOption
| NotModelled.

(** [_get_option_tuples] for a string that starts with two dashes: the
    options whose name starts with [option_prefix] *)
Definition get_option_tuples (option_prefix : string) : list (string * Action) :=
  List.filter (fun '(o, _) => String.prefix option_prefix o) option_string_actions.

(** The argument given after [=] is the separator [--]. *)
Definition is_separator (explicit_arg : option string) : bool :=
  match explicit_arg with
  | Some value => String.eqb value "--"
  | None => false
  end.

Definition parse_optional (arg_string : string) : ArgClass :=
  if String.eqb arg_string "" then Argument
  else if negb (String.prefix "-" arg_string) then Argument
  else
    match lookup_action arg_string option_string_actions with
    | Some action => Optional action None
    | None =>
        if Nat.eqb (String.length arg_string) 1 then Argument
        else if negb (String.prefix "--" arg_string) then
          (* a single dash: no option but [-h] starts like this; the string
             is an argument when it is a negative number or holds a space *)
          match arg_string with
          | String _ (String c _ as tail) =>
              if all_digits tail then Argument
              else if starts_no_number_or_help c then
                if contains " " arg_string then Argument else NoSuchOption
              else NotModelled
          | _ => NotModelled
          end
        else
          let '(option_string, explicit_arg) := partition_eq arg_string in
          if is_separator explicit_arg then NotModelled
          else
            match explicit_arg, lookup_action option_string option_string_actions with
            | Some _, Some action => Optional action explicit_arg
            | _, _ =>
                match get_option_tuples option_string with
                | [] => if contains " " arg_string then Argument else NoSuchOption
                | [(_, action)] => Optional action explicit_arg
                | _ => AmbiguousOption
                end
            end
    end.

(** The actions with [nargs=None], which take one value. *)
Definition takes_value (action : Action) : bool :=
  match action with
  | StoreLlamaApiKey | StoreAnthropicApiKey => true
  | _ => false
  end.

(** [setattr(namespace, dest, value)] of a store action *)
Definition store_value (action : Action) (value : string) (ns : Namespace) : Namespace :=
  match action with
  | StoreLlamaApiKey =>
      {| pdf_path := pdf_path ns; llama_api_key := Some value;
         anthropic_api_key := anthropic_api_key ns;
         table_prompt := table_prompt ns; general_prompt := general_prompt ns;
         no_save_markdown := no_save_markdown ns; no_save_nl := no_save_nl ns;
         args_use_async := args_use_async ns |}
  | StoreAnthropicApiKey =>
      {| pdf_path := pdf_path ns; llama_api_key := llama_api_key ns;
         anthropic_api_key := Some value;
         table_prompt := table_prompt ns; general_prompt := general_prompt ns;
         no_save_markdown := no_save_markdown ns; no_save_nl := no_save_nl ns;
         args_use_async := args_use_async ns |}
  | _ => ns
  end.

(** [setattr(namespace, dest, True)] of a [store_true] action *)
Definition store_true (action : Action) (ns : Namespace) : Namespace :=
  match action with
  | StoreTrueTablePrompt =>
      {| pdf_path := pdf_path ns; llama_api_key := llama_api_key ns;
         anthropic_api_key := anthropic_api_key ns;
         table_prompt := true; general_prompt := general_prompt ns;
         no_save_markdown := no_save_markdown ns; no_save_nl := no_save_nl ns;
         args_use_async := args_use_async ns |}
  | StoreTrueGeneralPrompt =>
      {| pdf_path := pdf_path ns; llama_api_key := llama_api_key ns;
         anthropic_api_key := anthropic_api_key ns;
         table_prompt := table_prompt ns; general_prompt := true;
         no_save_markdown := no_save_markdown ns; no_save_nl := no_save_nl ns;
         args_use_async := args_use_async ns |}
  | StoreTrueNoSaveMarkdown =>
      {| pdf_path := pdf_path ns; llama_api_key := llama_api_key ns;
         anthropic_api_key := anthropic_api_key ns;
         table_prompt := table_prompt ns; general_prompt := general_prompt ns;
         no_save_markdown := true; no_save_nl := no_save_nl ns;
         args_use_async := args_use_async ns |}
  | StoreTrueNoSaveNl =>
      {| pdf_path := pdf_path ns; llama_api_key := llama_api_key ns;
         anthropic_api_key := anthropic_api_key ns;
         table_prompt := table_prompt ns; general_prompt := general_prompt ns;
         no_save_markdown := no_save_markdown ns; no_save_nl := true;
         args_use_async := args_use_async ns |}
  | StoreTrueUseAsync =>
      {| pdf_path := pdf_path ns; llama_api_key := llama_api_key ns;
         anthropic_api_key := anthropic_api_key ns;
         table_prompt := table_prompt ns; general_prompt := general_prompt ns;
         no_save_markdown := no_save_markdown ns; no_save_nl := no_save_nl ns;
         args_use_async := true |}
  | _ => ns
  end.

(** The positional [pdf_path] takes the first argument that is no value of an
    option. *)
Definition store_pdf_path (value : string) (ns : Namespace) : Namespace :=
  {| pdf_path := Some value; llama_api_key := llama_api_key ns;
     anthropic_api_key := anthropic_api_key ns;
     table_prompt := table_prompt ns; general_prompt := general_prompt ns;
     no_save_markdown := no_save_markdown ns; no_save_nl := no_save_nl ns;
     args_use_async := args_use_async ns |}.

(** How [parse_args] ends: it returns the namespace, or the process exits
    with a status ([0] after the help text, [2] after an error message). *)
Inductive ParseResult :=
| Parsed (args : Namespace)
| SystemExit (status : Z)
| OutsideModel.

(** The loop of [_parse_known_args], from left to right.  [extras] tells
    whether some string has been put aside as unrecognized: a second
    argument for the positional, or an unknown option; [parse_args] reports
    them when the end is reached. *)
Fixpoint consume (ns : Namespace) (extras : bool) (arg_strings : list string)
  : ParseResult :=
  match arg_strings with
  | [] => if extras then SystemExit 2 else Parsed ns
  | arg_string :: rest =>
      match parse_optional arg_string with
      | Argument =>
          match pdf_path ns with
          | None => consume (store_pdf_path arg_string ns) extras rest
          | Some _ => consume ns true rest
          end
      | NoSuchOption => consume ns true rest
      | Optional action explicit_arg =>
          if takes_value action then
            match explicit_arg with
            | Some value => consume (store_value action value ns) extras rest
            | None =>
                (* "expected one argument" unless an argument follows *)
                match rest with
                | value :: rest' =>
                    match parse_optional value with
                    | Argument => consume (store_value action value ns) extras rest'
                    | AmbiguousOption | NotModelled => OutsideModel
                    | _ => SystemExit 2
                    end
                | [] => SystemExit 2
                end
            end
          else
            match explicit_arg with
            | Some _ => SystemExit 2 (* "ignored explicit argument" *)
            | None =>
                match action with
                | HelpAction => SystemExit 0
                | _ => consume (store_true action ns) extras rest
                end
            end
      | AmbiguousOption | NotModelled => OutsideModel
      end
  end.

Definition is_help (c : ArgClass) : bool :=
  match c with
  | Optional HelpAction _ => true
  | _ => false
  end.

Definition is_ambiguous (c : ArgClass) : bool :=
  match c with
  | AmbiguousOption => true
  | _ => false
  end.

Definition is_not_modelled (c : ArgClass) : bool :=
  match c with
  | NotModelled => true
  | _ => false
  end.

(** The arguments before the separator [--], and those after it when there
    is one. *)
Fixpoint split_separator (argv : list string) : list string * option (list string) :=
  match argv with
  | [] => ([], None)
  | a :: rest =>
      if String.eqb a "--" then ([], Some rest)
      else let '(before, after) := split_separator rest in (a :: before, after)
  end.

(** [parser.parse_args()].  Options are looked for before the separator
    only; what follows it is for the positional, which takes one argument.
    An ambiguous abbreviation is an error; whether it is reported before the
    options to its left are acted on depends on the version of argparse,
    which matters only when one of them asks for the help text. *)
Definition parse_args (argv : list string) : ParseResult :=
  let '(before, after) := split_separator argv in
  let classes := map parse_optional before in
  if existsb (String.eqb "--") (default [] after) || existsb is_not_modelled classes
  then OutsideModel
  else if existsb is_ambiguous classes then
    if existsb is_help classes then OutsideModel else SystemExit 2
  else
    match consume defaults false before, after with
    | Parsed ns, Some after =>
        match pdf_path ns, after with
        | Some _, _ => OutsideModel
        | None, [] => Parsed ns
        | None, [value] => Parsed (store_pdf_path value ns)
        | None, _ :: _ :: _ => SystemExit 2
        end
    | result, _ => result
    end.

(** The lines of [main] under [# Determine prompt type]. *)
Definition determine_prompt_type (args : Namespace) : option bool :=
  if table_prompt args then Some true
  else if general_prompt args then Some false
  else None.

End main.

(** ** Notions the properties are stated with *)

(** [ind] occurs in [text] as a substring. *)
Definition occurs_in (ind text : string) : Prop :=
  exists a b, text = a +:+ ind +:+ b.

(** The record every parse variant builds from a path's final component and
    the job of the backend. *)
Definition normalized (name : string) (job : JobResult) : ParsedData.t :=
  {| ParsedData.filename := name;
     ParsedData.markdown := join (nl +:+ nl) (markdown_documents job);
     ParsedData.page_count := length (markdown_documents job);
     ParsedData.result := job |}.

Definition no_newline (s : string) : Prop := contains nl s = false.

(** A text made of four lines followed at once by [body]. *)
Definition four_lines_then (body text : string) : Prop :=
  exists l1 l2 l3 l4 rest,
    no_newline l1 /\ no_newline l2 /\ no_newline l3 /\ no_newline l4 /\
    text = l1 +:+ nl +:+ l2 +:+ nl +:+ l3 +:+ nl +:+ l4 +:+ nl +:+ body +:+ rest.

(** The position of the first non-existing path of a batch. *)
Definition first_missing (env : Env) (pdf_paths : list Path) : option Path :=
  List.find (fun p => negb (path_exists env p)) pdf_paths.

(** [a] is the option [flag] as it may be written on the command line: in
    full, or abbreviated to a prefix that goes beyond the two dashes and is a
    prefix of no other option of the parser. *)
Definition abbreviates (flag a : string) : bool :=
  String.prefix "--" a && negb (String.eqb a "--") && String.prefix a flag &&
  forallb (fun '(o, _) => String.eqb o flag || negb (String.prefix a o))
    main.option_string_actions.

(** The prefixes of a string, the shortest first. *)
Fixpoint prefixes (s : string) : list string :=
  "" :: match s with
        | EmptyString => []
        | String c rest => map (String c) (prefixes rest)
        end.

(** The arguments among which options are looked for: those before the
    separator [--], all of them when there is none. *)
Definition before_separator (argv : list string) : list string :=
  fst (main.split_separator argv).

(** [flag] is among the command-line arguments. *)
Definition supplied (flag : string) (argv : list string) : bool :=
  existsb (abbreviates flag) (before_separator argv).

(** The help text is asked for. *)
Definition asks_for_help (argv : list string) : bool :=
  existsb (fun a => String.eqb a "-h" || abbreviates "--help" a) (before_separator argv).

(** The first byte of a string, if any. *)
Definition first_byte (s : string) : option ascii :=
  match s with
  | EmptyString => None
  | String c _ => Some c
  end.

(** What a method returns or raises does not depend on the world it starts
    from. *)
Definition oblivious {A} (m : M A) : Prop :=
  forall env w w', fst (m env w) = fst (m env w').

(** The same for a coroutine: for its run up to the suspension point and for
    the rest of its body. *)
Definition oblivious_coroutine {A} (c : Coroutine A) : Prop :=
  oblivious c /\
  forall env w resume, fst (c env w) = Ok resume -> oblivious resume.

(** The outcome of a coroutine run alone. *)
Definition outcome_alone {A} (c : Coroutine A) (env : Env) : Outcome A :=
  fst (run_until_complete c env empty_world).

(** The state of a task under [gather] agrees with its coroutine. *)
Definition state_agrees {A} (env : Env) (c : Coroutine A) (st : TaskState A) : Prop :=
  match st with
  | Pending resume => fst (c env empty_world) = Ok resume
  | Finished o => outcome_alone c env = o
  end.

Definition is_finished {A} (st : TaskState A) : Prop :=
  match st with
  | Finished _ => True
  | Pending _ => False
  end.

(** The steps of [process_single_pdf] and of [process_single_pdf_async] that
    follow the parse: the text is the same in both bodies. *)
Definition after_parse (self : main.Pipeline) (pdf_path : Path)
    (use_table_prompt : option bool) (save_markdown save_natural_language : bool)
    (parsed_data : ParsedData.t) : M PipelineResult.t :=
  markdown_path <--
    (if save_markdown
     then p <-- pdf_parser.save_markdown (main.pdf_parser self) parsed_data None; ret (Some p)
     else ret None);
  nl_result <-- nlp_processor.process_markdown (main.nlp_processor self)
                  (ParsedData.markdown parsed_data) use_table_prompt None None;
  nl_path <--
    (if save_natural_language
     then
       let nl_result := NLResult.set_source_file nl_result (pathlib.name pdf_path) in
       p <-- nlp_processor.save_natural_language (main.nlp_processor self) nl_result None
               (Some (pathlib.stem pdf_path +:+ "_nl.txt"));
       ret (Some p)
     else ret None);
  ret {| PipelineResult.pdf_file := pathlib.name pdf_path;
         PipelineResult.markdown := ParsedData.markdown parsed_data;
         PipelineResult.markdown_path := markdown_path;
         PipelineResult.natural_language := NLResult.natural_language nl_result;
         PipelineResult.natural_language_path := nl_path;
         PipelineResult.page_count := ParsedData.page_count parsed_data;
         PipelineResult.model := NLResult.model nl_result;
         PipelineResult.input_tokens := NLResult.input_tokens nl_result;
         PipelineResult.output_tokens := NLResult.output_tokens nl_result |}.

(** The entry of the result list for a document whose run had outcome [o]. *)
Definition batch_record (pdf_path : Path) (o : Outcome PipelineResult.t) : BatchRecord :=
  match o with
  | Ok result => Succeeded result
  | Raise e => Failed (pathlib.name pdf_path) (str_exc e)
  end.

(** The task at position [j] has finished. *)
Definition finished_at {A} (sts : list (TaskState A)) (j : nat) : Prop :=
  exists st, sts !! j = Some st /\ is_finished st.

(** ** A concrete installation, for the examples *)

Module sample.

Definition env : Env :=
  {| BASE_DIR := ["/"; "srv"; "app"];
     path_exists := fun p => negb (String.eqb (pathlib.name p) "missing.pdf");
     scandir := fun _ => ["b.pdf"; "notes.txt"; "a.pdf"];
     write_error := fun _ => None |}.

Definition job : JobResult :=
  {| markdown_documents := ["page one"; "page two"]; job_pages := 7 |}.

Definition answer (file : string) : Exception + JobResult :=
  if contains "broken" file
  then inl (OtherError "RuntimeError" "parse failed")
  else inr job.

Definition llama : LlamaParse :=
  {| parse := answer;
     parse_batch := fun files => inr (map (fun _ => job) files);
     aparse := answer;
     aparse_batch := fun files => inr (map (fun _ => job) files) |}.

Definition anthropic : Anthropic :=
  {| messages_create := fun _ _ _ =>
       inr {| content := ["prose"]; usage_input_tokens := 11; usage_output_tokens := 22 |} |}.

Definition parser : pdf_parser.PDFParser := {| pdf_parser.parser := llama |}.

Definition nlp : nlp_processor.NLPProcessor :=
  {| nlp_processor.client := anthropic; nlp_processor.model := config.CLAUDE_MODEL |}.

Definition pipeline : main.Pipeline :=
  {| main.pdf_parser := parser; main.nlp_processor := nlp; main.use_async := false |}.

Definition nl_result : NLResult.t :=
  {| NLResult.natural_language := "prose";
     NLResult.model := "m";
     NLResult.input_tokens := 11;
     NLResult.output_tokens := 22;
     NLResult.prompt_type := "general";
     NLResult.source_file := None |}.

Definition batch : list Path :=
  [["data"; "a.pdf"]; ["data"; "broken.pdf"]; ["data"; "c.pdf"]].

End sample.

(** ** str.format and the custom prompt (prompts.py) *)

Module strformat.

(** [kwargs[name]] *)
Fixpoint lookup_field (name : string) (kwargs : list (string * string)) : option string :=
  match kwargs with
  | [] => None
  | (k, v) :: rest => if String.eqb k name then Some v else lookup_field name rest
  end.

(** The characters that, inside a replacement field, start a conversion, a
    format specification, an attribute or an index. *)
Definition special (c : ascii) : bool :=
  Ascii.eqb c "!"%char || Ascii.eqb c ":"%char || Ascii.eqb c "."%char || Ascii.eqb c "["%char.

(** [template.format( **kwargs )], read from left to right.  [field] is
    [None] in literal text and [Some name] inside a replacement field whose
    name has been read up to [name].  A doubled brace stands for the brace;
    the value of a field is inserted as it is and is not read again.  The
    result is [None] when [format] raises (a single closing brace, an
    unclosed or nested field, an empty or unknown field name) and also for
    the fields this model leaves out (those with a [special] character). *)
Fixpoint format_from (kwargs : list (string * string)) (field : option string)
    (template : string) : option string :=
  match template with
  | EmptyString =>
      match field with
      | None => Some ""
      | Some _ => None
      end
  | String c rest =>
      match field with
      | None =>
          if Ascii.eqb c "{"%char then
            match rest with
            | String c' rest' =>
                if Ascii.eqb c' "{"%char
                then option_map (String "{"%char) (format_from kwargs None rest')
                else format_from kwargs (Some "") rest
            | EmptyString => None
            end
          else if Ascii.eqb c "}"%char then
            match rest with
            | String c' rest' =>
                if Ascii.eqb c' "}"%char
                then option_map (String "}"%char) (format_from kwargs None rest')
                else None
            | EmptyString => None
            end
          else option_map (String c) (format_from kwargs None rest)
      | Some name =>
          if Ascii.eqb c "}"%char then
            if String.eqb name "" then None
            else
              match lookup_field name kwargs with
              | Some v => option_map (String.append v) (format_from kwargs None rest)
              | None => None
              end
          else if Ascii.eqb c "{"%char || special c then None
          else format_from kwargs (Some (name +:+ String c "")) rest
      end
  end.

Definition format (template : string) (kwargs : list (string * string)) : option string :=
  format_from kwargs None template.

End strformat.

Module custom.

Definition CUSTOM_PROMPT_TEMPLATE : string :=
"あなたは構造化データを自然言語に変換する専門家です。

## タスク
{task_description}

## 要件
{requirements}

## 入力データ
{markdown_content}

## 出力
上記の要件に従って処理してください。".

Definition create_custom_prompt (markdown_content task_description requirements : string)
  : option string :=
  strformat.format CUSTOM_PROMPT_TEMPLATE
    [ ("task_description", task_description);
      ("requirements", requirements);
      ("markdown_content", markdown_content) ].

End custom.

(** The text of a template of [prompts] as the source has it, with its
    replacement field. *)
Definition template_text (t : prompts.Template) : string :=
  prompts.before t +:+ "{markdown_content}" +:+ prompts.after t.

(** ** Constructors ([__init__]) *)

(** The two values [config.py] reads from the environment when it is
    imported; a variable that is not set reads as the empty string. *)
Record Keys := {
  LLAMA_PARSE_API_KEY : string;
  ANTHROPIC_API_KEY : string
}.

(** [a or b] for an [Optional[str]] and a [str] *)
Definition or_str (a : option string) (b : string) : string :=
  if truthy_str a then default "" a else b.

Module construct.

(** [PDFParser.__init__]; [new_client] stands for the [LlamaParse]
    constructor called with the key and the options of [config].  The
    [api_key] attribute is read nowhere else and is not kept. *)
Definition PDFParser_init (new_client : string -> LlamaParse) (keys : Keys)
    (api_key : option string) : Exception + pdf_parser.PDFParser :=
  let api_key := or_str api_key (LLAMA_PARSE_API_KEY keys) in
  if String.eqb api_key ""
  then inl (ValueError
              ("Llama Parse API key is required. " +:+
               "Set LLAMA_PARSE_API_KEY environment variable or pass it to the constructor."))
  else inr {| pdf_parser.parser := new_client api_key |}.

(** [NLPProcessor.__init__] *)
Definition NLPProcessor_init (new_client : string -> Anthropic) (keys : Keys)
    (api_key : option string) (model : option string)
  : Exception + nlp_processor.NLPProcessor :=
  let api_key := or_str api_key (ANTHROPIC_API_KEY keys) in
  if String.eqb api_key ""
  then inl (ValueError
              ("Anthropic API key is required. " +:+
               "Set ANTHROPIC_API_KEY environment variable or pass it to the constructor."))
  else inr {| nlp_processor.client := new_client api_key;
              nlp_processor.model := or_str model config.CLAUDE_MODEL |}.

(** [Pipeline.__init__] *)
Definition Pipeline_init (new_llama : string -> LlamaParse)
    (new_anthropic : string -> Anthropic) (keys : Keys)
    (llama_api_key anthropic_api_key : option string) (use_async : bool)
  : Exception + main.Pipeline :=
  match PDFParser_init new_llama keys llama_api_key with
  | inl e => inl e
  | inr pdf_parser =>
      match NLPProcessor_init new_anthropic keys anthropic_api_key None with
      | inl e => inl e
      | inr nlp_processor =>
          inr {| main.pdf_parser := pdf_parser;
                 main.nlp_processor := nlp_processor;
                 main.use_async := use_async |}
      end
  end.

End construct.

(** ** [process_markdown_file] (nlp_processor.py) *)

(** [read_text] stands for reading the whole file as UTF-8 text. *)
Definition process_markdown_file (read_text : Path -> Exception + string)
    (self : nlp_processor.NLPProcessor) (markdown_path : Path)
    (use_table_prompt : option bool) (custom_prompt : option string)
    (max_tokens : option Z) : M NLResult.t :=
  found <-- exists_ markdown_path;
  if negb found
  then raise (FileNotFoundError ("Markdown file not found: " +:+ pathlib.str markdown_path))
  else
    markdown_content <-- (fun _ w => (of_answer (read_text markdown_path), w));
    result <-- nlp_processor.process_markdown self markdown_content
                 use_table_prompt custom_prompt max_tokens;
    ret (NLResult.set_source_file result (pathlib.name markdown_path)).

(** ** The summary and the exit status of [main] (main.py) *)

Module summary.

(** [[r for r in results if "error" not in r]] *)
Definition successful (results : list BatchRecord) : list BatchRecord :=
  List.filter (fun r => negb (has_error r)) results.

(** [[r for r in results if "error" in r]] *)
Definition failed (results : list BatchRecord) : list BatchRecord :=
  List.filter has_error results.

(** [r["input_tokens"] + r["output_tokens"]] of an entry without [error] *)
Definition tokens (r : BatchRecord) : Z :=
  match r with
  | Succeeded r => (PipelineResult.input_tokens r + PipelineResult.output_tokens r)%Z
  | Failed _ _ => 0%Z
  end.

(** [sum(... for r in successful)] *)
Definition total_tokens (results : list BatchRecord) : Z :=
  fold_right Z.add 0%Z (map tokens (successful results)).

End summary.

(** What [main] is run with, besides the environment: the [Path]
    constructor, [Path.is_dir], the values of [config], the constructors of
    the two clients, and the order in which the answers of a concurrent batch
    arrive. *)
Record Host := {
  to_path : string -> Path;
  is_dir : Path -> bool;
  keys : Keys;
  new_llama : string -> LlamaParse;
  new_anthropic : string -> Anthropic;
  arrival_order : list nat
}.

Module entry.

(** The list of documents [main] works on. *)
Definition resolve_pdf_paths (host : Host) (env : Env) (args : main.Namespace)
  : list Path :=
  if truthy_str (main.pdf_path args) then
    let pdf_path := to_path host (default "" (main.pdf_path args)) in
    if is_dir host pdf_path
    then pdf_parser.get_all_pdfs_in_directory env pdf_path
    else [pdf_path]
  else pdf_parser.get_all_pdfs_in_directory env (config.DATA_DIR env).

(** [main()], from the arguments to the exit status of the process: the
    status argparse exits with, [1] for the two [sys.exit(1)], [0] for the
    return of [main].  The world is the one the process leaves behind.
    [None] stands for the argument lists the model of argparse leaves out. *)
Definition main (host : Host) (argv : list string) (env : Env) (w : World)
  : option (Z * World) :=
  match main.parse_args argv with
  | main.OutsideModel => None
  | main.SystemExit status => Some (status, w)
  | main.Parsed args =>
      let use_table_prompt := main.determine_prompt_type args in
      let pdf_paths := resolve_pdf_paths host env args in
      match pdf_paths with
      | [] => Some (1%Z, w)
      | _ :: _ =>
          match construct.Pipeline_init (new_llama host) (new_anthropic host) (keys host)
                  (main.llama_api_key args) (main.anthropic_api_key args)
                  (main.args_use_async args) with
          | inl _ => Some (1%Z, w)
          | inr pipeline =>
              let '(_, w') :=
                if main.args_use_async args
                then main.process_multiple_pdfs_async (arrival_order host) pipeline
                       pdf_paths use_table_prompt
                       (negb (main.no_save_markdown args)) (negb (main.no_save_nl args)) env w
                else main.process_multiple_pdfs pipeline pdf_paths use_table_prompt
                       (negb (main.no_save_markdown args)) (negb (main.no_save_nl args)) env w in
              Some (0%Z, w')
          end
      end
  end.

End entry.

(** ** Notions for the further properties *)

(** [w] with the effects of [d] after its own. *)
Definition extend (w d : World) : World :=
  {| remote_calls := remote_calls w ++ remote_calls d;
     written := written w ++ written d |}.

(** A method whose outcome and whose effects are the same from every world:
    it returns what it returns from the empty world and appends the effects
    it has there. *)
Definition uniform {A} (m : M A) : Prop :=
  forall env w,
    m env w = (fst (m env empty_world), extend w (snd (m env empty_world))).

(** The content of the file at [p] after the writes of [log]: the last text
    written there. *)
Fixpoint file_content (log : list (Path * string)) (p : Path) : option string :=
  match log with
  | [] => None
  | (q, s) :: rest =>
      match file_content rest p with
      | Some s' => Some s'
      | None => if bool_decide (q = p) then Some s else None
      end
  end.

(** A remote call to the parsing backend. *)
Definition is_parse_call (c : RemoteCall) : bool :=
  match c with
  | MessagesCreateCall _ _ _ => false
  | _ => true
  end.

(** A method that writes no file. *)
Definition writes_nothing {A} (m : M A) : Prop :=
  forall env w, written (snd (m env w)) = written w.

(** The file [save_markdown] writes for the document at [p]: the record of
    the document carries [p.name] as its file name, and the file is named
    after the stem of the path made again from that name. *)
Definition markdown_file (env : Env) (p : Path) : Path :=
  pathlib.joinpath (config.MARKDOWN_DIR env)
    (pathlib.stem_of (pathlib.name_of_str (pathlib.name p)) +:+ ".md").

(** [<stem>.md] and [<stem>_nl.txt] for the document at [p], in the two
    output directories. *)
Definition markdown_target (env : Env) (p : Path) : Path :=
  pathlib.joinpath (config.MARKDOWN_DIR env) (pathlib.stem p +:+ ".md").

Definition nl_target (env : Env) (p : Path) : Path :=
  pathlib.joinpath (config.NATURAL_LANGUAGE_DIR env) (pathlib.stem p +:+ "_nl.txt").

(** The file [save_natural_language] writes, when it is given no file name,
    for a result whose [source_file] is the name of [p]. *)
Definition nl_file (env : Env) (p : Path) : Path :=
  pathlib.joinpath (config.NATURAL_LANGUAGE_DIR env)
    (pathlib.stem_of (pathlib.name_of_str (pathlib.name p)) +:+ "_nl.txt").

(** The effects a method has from the empty world. *)
Definition effects {A} (m : M A) (env : Env) : World := snd (m env empty_world).

(** A method whose remote calls, if any, all go to the language model. *)
Definition only_completion_calls {A} (m : M A) : Prop :=
  forall env w, exists more,
    remote_calls (snd (m env w)) = (remote_calls w ++ more)%list /\
    Forall (fun c => is_parse_call c = false) more.

(** A suspended task will only call the language model. *)
Definition quiet_state {A} (st : TaskState A) : Prop :=
  match st with
  | Pending resume => only_completion_calls resume
  | Finished _ => True
  end.

Module sample2.

Definition only_llama : Keys :=
  {| LLAMA_PARSE_API_KEY := "llx-env"; ANTHROPIC_API_KEY := "" |}.

Definition host : Host :=
  {| to_path := fun s => [s];
     is_dir := fun p => String.eqb (pathlib.name p) "data";
     keys := {| LLAMA_PARSE_API_KEY := "llx-env"; ANTHROPIC_API_KEY := "sk-ant-env" |};
     new_llama := fun _ => sample.llama;
     new_anthropic := fun _ => sample.anthropic;
     arrival_order := [1; 0] |}.

Definition read_text (p : Path) : Exception + string :=
  if String.eqb (pathlib.name p) "locked.md"
  then inl (OtherError "PermissionError" "denied")
  else inr "plain text".

End sample2.

(** * Properties *)

(** ** Strings *)

Lemma prefix_spec (s h : string) :
  String.prefix s h = true <-> exists b, h = s +:+ b.
Proof.
  revert h. induction s as [|c s IH]; intros h; destruct h as [|d h]; simpl.
  - split; [intros _; exists ""; reflexivity | reflexivity].
  - split; [intros _; exists (String d h); reflexivity | reflexivity].
  - split; [discriminate | intros [b Hb]; discriminate].
  - destruct (ascii_dec c d) as [->|Hne].
    + rewrite IH. split; intros [b Hb]; exists b.
      * rewrite Hb. reflexivity.
      * injection Hb as Hb. exact Hb.
    + split; [discriminate | intros [b Hb]; injection Hb as Hc _; congruence].
Qed.

Lemma contains_spec (s h : string) :
  contains s h = true <-> occurs_in s h.
Proof.
  unfold occurs_in. split.
  - induction h as [|d h IH]; cbn [contains]; rewrite orb_true_iff, prefix_spec.
    + intros [[b Hb]|Hf]; [exists "", b; exact Hb | discriminate].
    + intros [[b Hb]|Hc]; [exists "", b; exact Hb |].
      destruct (IH Hc) as (a & b & ->). exists (String d a), b. reflexivity.
  - intros (a & b & ->). induction a as [|d a IH].
    + assert (Hp : String.prefix s ("" +:+ s +:+ b) = true) by (apply prefix_spec; eauto).
      destruct ("" +:+ s +:+ b); cbn [contains]; rewrite Hp; reflexivity.
    + change (String d a +:+ s +:+ b) with (String d (a +:+ s +:+ b)).
      cbn [contains]. rewrite IH. apply orb_true_r.
Qed.

Lemma contains_false (s h : string) :
  contains s h = false <-> ~ occurs_in s h.
Proof.
  rewrite <- contains_spec. destruct (contains s h); split; congruence.
Qed.

Lemma append_cons (x : ascii) (a b : string) :
  String x a +:+ b = String x (a +:+ b).
Proof. reflexivity. Qed.

Lemma append_assoc (a b c : string) : (a +:+ b) +:+ c = a +:+ (b +:+ c).
Proof.
  induction a as [|x a IH]; [reflexivity|].
  rewrite !append_cons, IH. reflexivity.
Qed.

Lemma append_nil_r (a : string) : a +:+ "" = a.
Proof.
  induction a as [|x a IH]; [reflexivity|].
  rewrite append_cons, IH. reflexivity.
Qed.

(** ** The prompt builder *)

Lemma auto_detect_spec (text : string) :
  prompts.auto_detect text = true <->
  exists ind, In ind prompts.table_indicators /\ occurs_in ind text.
Proof.
  unfold prompts.auto_detect. rewrite existsb_exists.
  split; intros (ind & Hin & H); exists ind; split; auto; apply contains_spec; exact H.
Qed.

Lemma templates_differ (x y : string) :
  prompts.format prompts.STRUCTURED_DATA_EXTRACTION_PROMPT x <>
  prompts.format prompts.GENERAL_EXTRACTION_PROMPT y.
Proof.
  intros H. apply (f_equal first_byte) in H.
  vm_compute in H. discriminate H.
Qed.

Lemma auto_selects_structured (text : string) :
  (exists ind, In ind prompts.table_indicators /\ occurs_in ind text) ->
  prompts.get_prompt_for_data text None =
  prompts.format prompts.STRUCTURED_DATA_EXTRACTION_PROMPT text.
Proof.
  intros H. apply auto_detect_spec in H.
  unfold prompts.get_prompt_for_data. rewrite H. reflexivity.
Qed.

(** C5. With the selector left as auto, the prompt is a function of the text
    alone.  The structured template is selected exactly when at least one of
    the ten indicators (the pipe character, three dashes, the three HTML table
    tags, the Japanese words for vertical axis, horizontal axis, row, column
    and cell) occurs in the text, so each of them suffices on its own; the
    general template is selected exactly when none of them occurs.  The two
    prompts are never the same text. *)
Theorem auto_detection_is_a_disjunction (text : string) :
  let indicators :=
    [ "|"; "---"; "<table>"; "<tr>"; "<td>"; "縦軸"; "横軸"; "行"; "列"; "セル" ] in
  let structured := prompts.format prompts.STRUCTURED_DATA_EXTRACTION_PROMPT text in
  let general := prompts.format prompts.GENERAL_EXTRACTION_PROMPT text in
  (prompts.get_prompt_for_data text None = structured
   <-> exists ind, In ind indicators /\ occurs_in ind text) /\
  (prompts.get_prompt_for_data text None = general
   <-> forall ind, In ind indicators -> ~ occurs_in ind text) /\
  structured <> general.
Proof.
  intros indicators structured general.
  change indicators with prompts.table_indicators. subst structured general.
  unfold prompts.get_prompt_for_data.
  pose proof (auto_detect_spec text) as Hd.
  destruct (prompts.auto_detect text) eqn:E.
  - assert (Hex : exists ind, In ind prompts.table_indicators /\ occurs_in ind text)
      by (apply Hd; reflexivity).
    split; [|split]; [split; auto | split | apply templates_differ].
    + intros H. exfalso. exact (templates_differ _ _ H).
    + intros Hall. destruct Hex as (ind & Hin & Hocc). exfalso. exact (Hall ind Hin Hocc).
  - assert (Hno : forall ind, In ind prompts.table_indicators -> ~ occurs_in ind text).
    { intros ind Hin Hocc.
      assert (false = true) by (apply Hd; eauto). discriminate. }
    split; [|split]; [split | split; auto | apply templates_differ].
    + intros H. exfalso. symmetry in H. exact (templates_differ _ _ H).
    + intros (ind & Hin & Hocc). exfalso. exact (Hno ind Hin Hocc).
Qed.

(** A text with a pipe character and three dashes selects the structured
    template; plain prose with none of the indicators selects the general
    one. *)
Lemma auto_detection_is_a_disjunction_witness :
  prompts.get_prompt_for_data ("| a | b |" +:+ nl +:+ "|---|---|") None =
    prompts.format prompts.STRUCTURED_DATA_EXTRACTION_PROMPT
      ("| a | b |" +:+ nl +:+ "|---|---|") /\
  prompts.get_prompt_for_data "The quick brown fox." None =
    prompts.format prompts.GENERAL_EXTRACTION_PROMPT "The quick brown fox.".
Proof.
  split.
  - apply (proj1 (auto_detection_is_a_disjunction ("| a | b |" +:+ nl +:+ "|---|---|"))).
    exists "---". split; [simpl; auto|].
    exists ("| a | b |" +:+ nl +:+ "|"), "|---|". reflexivity.
  - apply (proj1 (proj2 (auto_detection_is_a_disjunction "The quick brown fox."))).
    intros ind Hin. apply contains_false.
    simpl in Hin. repeat (destruct Hin as [<-|Hin]; [reflexivity|]). contradiction.
Defined.

(** ** The language-model adapter *)

Lemma process_markdown_default_prompt self text sel env w msg first rest :
  messages_create (nlp_processor.client self) (nlp_processor.model self)
    config.CLAUDE_MAX_TOKENS (prompts.get_prompt_for_data text sel) = inr msg ->
  content msg = first :: rest ->
  nlp_processor.process_markdown self text sel None None env w =
  (Ok {| NLResult.natural_language := first;
         NLResult.model := nlp_processor.model self;
         NLResult.input_tokens := usage_input_tokens msg;
         NLResult.output_tokens := usage_output_tokens msg;
         NLResult.prompt_type := if truthy_bool sel then "table" else "general";
         NLResult.source_file := None |},
   log_call (MessagesCreateCall (nlp_processor.model self) config.CLAUDE_MAX_TOKENS
               (prompts.get_prompt_for_data text sel)) w).
Proof.
  intros Hmsg Hc. unfold nlp_processor.process_markdown, bind, remote, ret. simpl.
  rewrite Hmsg. simpl. rewrite Hc. reflexivity.
Qed.

(** C3 (the code departs from it). With the selector left as auto and a text
    in which an indicator occurs, the structured template is what is sent to
    the model, and the result is tagged ["general"]. *)
Theorem auto_detected_table_prompt_is_tagged_general self text env w msg first rest :
  (exists ind, In ind prompts.table_indicators /\ occurs_in ind text) ->
  messages_create (nlp_processor.client self) (nlp_processor.model self)
    config.CLAUDE_MAX_TOKENS
    (prompts.format prompts.STRUCTURED_DATA_EXTRACTION_PROMPT text) = inr msg ->
  content msg = first :: rest ->
  exists r,
    nlp_processor.process_markdown self text None None None env w =
    (Ok r,
     log_call (MessagesCreateCall (nlp_processor.model self) config.CLAUDE_MAX_TOKENS
                 (prompts.format prompts.STRUCTURED_DATA_EXTRACTION_PROMPT text)) w) /\
    NLResult.prompt_type r = "general".
Proof.
  intros Hind Hmsg Hc.
  assert (Hp : prompts.get_prompt_for_data text None =
               prompts.format prompts.STRUCTURED_DATA_EXTRACTION_PROMPT text)
    by (apply auto_selects_structured; exact Hind).
  rewrite <- Hp in Hmsg.
  eexists. split.
  - rewrite (process_markdown_default_prompt _ _ _ _ _ _ _ _ Hmsg Hc), Hp. reflexivity.
  - reflexivity.
Qed.

Lemma pipe_occurs_in_table_row : occurs_in "|" "| a | b |".
Proof. exists "", " a | b |". reflexivity. Qed.

Lemma auto_detected_table_prompt_is_tagged_general_witness :
  exists r,
    nlp_processor.process_markdown sample.nlp "| a | b |" None None None
      sample.env empty_world =
    (Ok r,
     log_call (MessagesCreateCall config.CLAUDE_MODEL config.CLAUDE_MAX_TOKENS
                 (prompts.format prompts.STRUCTURED_DATA_EXTRACTION_PROMPT "| a | b |"))
       empty_world) /\
    NLResult.prompt_type r = "general".
Proof.
  apply (auto_detected_table_prompt_is_tagged_general sample.nlp "| a | b |"
           sample.env empty_world
           {| content := ["prose"]; usage_input_tokens := 11; usage_output_tokens := 22 |}
           "prose" []).
  - exists "|". split; [simpl; auto | exact pipe_occurs_in_table_row].
  - reflexivity.
  - reflexivity.
Defined.

(** ** The document parser adapter *)

(** *** The existence check of a batch *)

Lemma first_missing_spec env ps q :
  first_missing env ps = Some q ->
  exists before after,
    ps = (before ++ q :: after)%list /\
    Forall (fun p => path_exists env p = true) before /\
    path_exists env q = false.
Proof.
  unfold first_missing. induction ps as [|p ps IH]; simpl; [discriminate|].
  destruct (path_exists env p) eqn:E; simpl.
  - intros H. destruct (IH H) as (b & a & -> & Hb & Hq).
    exists (p :: b), a. repeat split; auto.
  - intros H. injection H as <-. exists [], ps. repeat split; auto.
Qed.

Lemma some_missing_has_first env ps :
  (exists p, In p ps /\ path_exists env p = false) ->
  exists q, first_missing env ps = Some q.
Proof.
  intros (p & Hin & Hp). unfold first_missing.
  destruct (find (fun p => negb (path_exists env p)) ps) eqn:E; [eauto|].
  pose proof (find_none _ _ E p Hin) as H. simpl in H. rewrite Hp in H. discriminate.
Qed.

Lemma verify_all_exist_missing env w ps q :
  first_missing env ps = Some q ->
  pdf_parser.verify_all_exist ps env w =
  (Raise (FileNotFoundError ("PDF file not found: " +:+ pathlib.str q)), w).
Proof.
  unfold first_missing, pdf_parser.verify_all_exist.
  induction ps as [|p ps IH]; simpl; [discriminate|].
  unfold bind at 1. unfold bind at 1. unfold exists_ at 1.
  destruct (path_exists env p) eqn:E; simpl.
  - intros H. unfold ret at 1. apply IH. exact H.
  - intros H. injection H as <-. reflexivity.
Qed.

Lemma verify_all_exist_ok env w ps :
  Forall (fun p => path_exists env p = true) ps ->
  pdf_parser.verify_all_exist ps env w = (Ok tt, w).
Proof.
  unfold pdf_parser.verify_all_exist. induction 1 as [|p ps Hp _ IH]; [reflexivity|].
  cbn [for_each]. unfold bind at 1. unfold bind at 1. unfold exists_ at 1.
  rewrite Hp. simpl. unfold ret at 1. exact IH.
Qed.

Lemma first_missing_none env ps :
  first_missing env ps = None -> Forall (fun p => path_exists env p = true) ps.
Proof.
  unfold first_missing. intros H. apply List.Forall_forall. intros p Hin.
  pose proof (find_none _ _ H p Hin) as Hp. simpl in Hp.
  destruct (path_exists env p); [reflexivity | discriminate].
Qed.

Lemma verify_all_exist_inv env w ps w1 :
  pdf_parser.verify_all_exist ps env w = (Ok tt, w1) ->
  Forall (fun p => path_exists env p = true) ps /\ w1 = w.
Proof.
  intros H. destruct (first_missing env ps) as [q|] eqn:E.
  - rewrite (verify_all_exist_missing _ _ _ _ E) in H. discriminate.
  - apply first_missing_none in E. rewrite (verify_all_exist_ok _ _ _ E) in H.
    injection H as <-. auto.
Qed.

(** *** What the four variants return *)

Lemma zipped_records_lookup (ps : list Path) (jobs : list JobResult) i :
  map (fun '(pdf_path, result) =>
         {| ParsedData.filename := pathlib.name pdf_path;
            ParsedData.markdown := join (nl +:+ nl) (markdown_documents result);
            ParsedData.page_count := length (markdown_documents result);
            ParsedData.result := result |}) (zip ps jobs) !! i =
  match ps !! i, jobs !! i with
  | Some p, Some job => Some (normalized (pathlib.name p) job)
  | _, _ => None
  end.
Proof.
  revert jobs i. induction ps as [|p ps IH]; intros jobs i.
  - destruct i; reflexivity.
  - destruct jobs as [|j jobs].
    + simpl. destruct i as [|i]; simpl; [reflexivity|]. destruct (ps !! i); reflexivity.
    + destruct i as [|i]; simpl; [reflexivity | apply IH].
Qed.

Lemma zipped_records_length (ps : list Path) (jobs : list JobResult) :
  length (map (fun '(pdf_path, result) =>
         {| ParsedData.filename := pathlib.name pdf_path;
            ParsedData.markdown := join (nl +:+ nl) (markdown_documents result);
            ParsedData.page_count := length (markdown_documents result);
            ParsedData.result := result |}) (zip ps jobs)) =
  Nat.min (length ps) (length jobs).
Proof.
  rewrite length_map. revert jobs. induction ps as [|p ps IH]; intros [|j jobs]; simpl; auto.
Qed.

Lemma parse_single_pdf_answered self p env w job :
  path_exists env p = true ->
  parse (pdf_parser.parser self) (pathlib.str p) = inr job ->
  pdf_parser.parse_single_pdf self p env w =
    (Ok (normalized (pathlib.name p) job), log_call (ParseCall (pathlib.str p)) w).
Proof.
  intros Hex Hjob.
  unfold pdf_parser.parse_single_pdf, bind, exists_, remote, raise, ret. simpl.
  rewrite Hex. simpl. rewrite Hjob. reflexivity.
Qed.

Lemma parse_single_pdf_inv self p env w d w' :
  pdf_parser.parse_single_pdf self p env w = (Ok d, w') ->
  path_exists env p = true /\
  exists job,
    parse (pdf_parser.parser self) (pathlib.str p) = inr job /\
    d = normalized (pathlib.name p) job.
Proof.
  unfold pdf_parser.parse_single_pdf, bind, exists_, remote, raise, ret. simpl.
  destruct (path_exists env p); simpl; [|discriminate].
  destruct (parse (pdf_parser.parser self) (pathlib.str p)) as [e|job]; simpl; [discriminate|].
  intros H. injection H as <- _. split; [reflexivity|]. exists job. split; reflexivity.
Qed.

Lemma parse_single_pdf_async_answered self p env w job :
  path_exists env p = true ->
  aparse (pdf_parser.parser self) (pathlib.str p) = inr job ->
  run_until_complete (pdf_parser.parse_single_pdf_async self p) env w =
    (Ok (normalized (pathlib.name p) job), log_call (AParseCall (pathlib.str p)) w).
Proof.
  intros Hex Hjob.
  unfold run_until_complete, pdf_parser.parse_single_pdf_async, bind, exists_,
    await_remote, raise, ret. simpl.
  rewrite Hex. simpl. rewrite Hjob. reflexivity.
Qed.

Lemma parse_single_pdf_async_inv self p env w d w' :
  run_until_complete (pdf_parser.parse_single_pdf_async self p) env w = (Ok d, w') ->
  path_exists env p = true /\
  exists job,
    aparse (pdf_parser.parser self) (pathlib.str p) = inr job /\
    d = normalized (pathlib.name p) job.
Proof.
  unfold run_until_complete, pdf_parser.parse_single_pdf_async, bind, exists_,
    await_remote, raise, ret. simpl.
  destruct (path_exists env p); simpl; [|discriminate].
  destruct (aparse (pdf_parser.parser self) (pathlib.str p)) as [e|job]; simpl; [discriminate|].
  intros H. injection H as <- _. split; [reflexivity|]. exists job. split; reflexivity.
Qed.

Lemma parse_multiple_pdfs_answered self ps jobs env w :
  Forall (fun p => path_exists env p = true) ps ->
  parse_batch (pdf_parser.parser self) (map pathlib.str ps) = inr jobs ->
  exists ds,
    pdf_parser.parse_multiple_pdfs self ps env w =
      (Ok ds, log_call (ParseBatchCall (map pathlib.str ps)) w) /\
    length ds = Nat.min (length ps) (length jobs) /\
    forall i, ds !! i =
      match ps !! i, jobs !! i with
      | Some p, Some job => Some (normalized (pathlib.name p) job)
      | _, _ => None
      end.
Proof.
  intros Hex Hjobs. eexists. split; [|split].
  - unfold pdf_parser.parse_multiple_pdfs, bind.
    rewrite (verify_all_exist_ok _ _ _ Hex). unfold remote. rewrite Hjobs. reflexivity.
  - apply zipped_records_length.
  - apply zipped_records_lookup.
Qed.

Lemma parse_multiple_pdfs_inv self ps env w ds w' :
  pdf_parser.parse_multiple_pdfs self ps env w = (Ok ds, w') ->
  Forall (fun p => path_exists env p = true) ps /\
  exists jobs,
    parse_batch (pdf_parser.parser self) (map pathlib.str ps) = inr jobs /\
    length ds = Nat.min (length ps) (length jobs) /\
    forall i, ds !! i =
      match ps !! i, jobs !! i with
      | Some p, Some job => Some (normalized (pathlib.name p) job)
      | _, _ => None
      end.
Proof.
  unfold pdf_parser.parse_multiple_pdfs, bind, remote, ret.
  destruct (pdf_parser.verify_all_exist ps env w) as [[[]|e] w1] eqn:E; [|discriminate].
  apply verify_all_exist_inv in E as [Hex ->].
  destruct (parse_batch (pdf_parser.parser self) (map pathlib.str ps)) as [e|jobs];
    simpl; [discriminate|].
  intros H. injection H as <- _. split; [exact Hex|]. exists jobs.
  split; [reflexivity|]. split; [apply zipped_records_length | apply zipped_records_lookup].
Qed.

Lemma parse_multiple_pdfs_async_answered self ps jobs env w :
  Forall (fun p => path_exists env p = true) ps ->
  aparse_batch (pdf_parser.parser self) (map pathlib.str ps) = inr jobs ->
  exists ds,
    run_until_complete (pdf_parser.parse_multiple_pdfs_async self ps) env w =
      (Ok ds, log_call (AParseBatchCall (map pathlib.str ps)) w) /\
    length ds = Nat.min (length ps) (length jobs) /\
    forall i, ds !! i =
      match ps !! i, jobs !! i with
      | Some p, Some job => Some (normalized (pathlib.name p) job)
      | _, _ => None
      end.
Proof.
  intros Hex Hjobs. eexists. split; [|split].
  - unfold run_until_complete, pdf_parser.parse_multiple_pdfs_async, bind.
    rewrite (verify_all_exist_ok _ _ _ Hex). unfold await_remote, ret. rewrite Hjobs.
    reflexivity.
  - apply zipped_records_length.
  - apply zipped_records_lookup.
Qed.

Lemma parse_multiple_pdfs_async_inv self ps env w ds w' :
  run_until_complete (pdf_parser.parse_multiple_pdfs_async self ps) env w = (Ok ds, w') ->
  Forall (fun p => path_exists env p = true) ps /\
  exists jobs,
    aparse_batch (pdf_parser.parser self) (map pathlib.str ps) = inr jobs /\
    length ds = Nat.min (length ps) (length jobs) /\
    forall i, ds !! i =
      match ps !! i, jobs !! i with
      | Some p, Some job => Some (normalized (pathlib.name p) job)
      | _, _ => None
      end.
Proof.
  unfold run_until_complete, pdf_parser.parse_multiple_pdfs_async, bind, await_remote, ret.
  destruct (pdf_parser.verify_all_exist ps env w) as [[[]|e] w1] eqn:E; [|discriminate].
  apply verify_all_exist_inv in E as [Hex ->].
  destruct (aparse_batch (pdf_parser.parser self) (map pathlib.str ps)) as [e|jobs];
    simpl; [discriminate|].
  intros H. injection H as <- _. split; [exact Hex|]. exists jobs.
  split; [reflexivity|]. split; [apply zipped_records_length | apply zipped_records_lookup].
Qed.

(** The entry of a batch at a position where there are a path and a job. *)
Lemma paired_entry (ds : list ParsedData.t) (ps : list Path) (jobs : list JobResult) :
  (forall i, ds !! i =
     match ps !! i, jobs !! i with
     | Some p, Some job => Some (normalized (pathlib.name p) job)
     | _, _ => None
     end) ->
  (forall i p job, ps !! i = Some p -> jobs !! i = Some job ->
     ds !! i = Some (normalized (pathlib.name p) job)) /\
  (forall i d, ds !! i = Some d ->
     exists p job, ps !! i = Some p /\ jobs !! i = Some job /\
       d = normalized (pathlib.name p) job).
Proof.
  intros H. split.
  - intros i p job Hp Hj. rewrite H, Hp, Hj. reflexivity.
  - intros i d Hd. rewrite H in Hd.
    destruct (ps !! i) as [p|]; [|discriminate].
    destruct (jobs !! i) as [job|]; [|discriminate].
    injection Hd as <-. exists p, job. auto.
Qed.

(** C4 (as the code has it). In each of the four parse variants the document
    returned for a file is built from the job the backend answers for that
    file: its full text is the job's page texts joined with one blank line
    (two newline characters) between consecutive pages, and all four variants
    build the record by the same normalisation.  For each variant the first
    statement says that the variant returns this record when the files exist
    and the backend answers, the second that a record it returns has come
    about in this way; the batch variants pair files and jobs by position. *)
Theorem parse_variants_join_pages_with_a_blank_line self env w :
  (forall p job,
     path_exists env p = true ->
     parse (pdf_parser.parser self) (pathlib.str p) = inr job ->
     exists d,
       pdf_parser.parse_single_pdf self p env w =
         (Ok d, log_call (ParseCall (pathlib.str p)) w) /\
       ParsedData.markdown d = join (nl +:+ nl) (markdown_documents job) /\
       d = normalized (pathlib.name p) job) /\
  (forall p d w',
     pdf_parser.parse_single_pdf self p env w = (Ok d, w') ->
     exists job,
       parse (pdf_parser.parser self) (pathlib.str p) = inr job /\
       ParsedData.markdown d = join (nl +:+ nl) (markdown_documents job) /\
       d = normalized (pathlib.name p) job) /\
  (forall p job,
     path_exists env p = true ->
     aparse (pdf_parser.parser self) (pathlib.str p) = inr job ->
     exists d,
       run_until_complete (pdf_parser.parse_single_pdf_async self p) env w =
         (Ok d, log_call (AParseCall (pathlib.str p)) w) /\
       ParsedData.markdown d = join (nl +:+ nl) (markdown_documents job) /\
       d = normalized (pathlib.name p) job) /\
  (forall p d w',
     run_until_complete (pdf_parser.parse_single_pdf_async self p) env w = (Ok d, w') ->
     exists job,
       aparse (pdf_parser.parser self) (pathlib.str p) = inr job /\
       ParsedData.markdown d = join (nl +:+ nl) (markdown_documents job) /\
       d = normalized (pathlib.name p) job) /\
  (forall ps jobs,
     Forall (fun p => path_exists env p = true) ps ->
     parse_batch (pdf_parser.parser self) (map pathlib.str ps) = inr jobs ->
     exists ds,
       pdf_parser.parse_multiple_pdfs self ps env w =
         (Ok ds, log_call (ParseBatchCall (map pathlib.str ps)) w) /\
       forall i p job, ps !! i = Some p -> jobs !! i = Some job ->
         exists d, ds !! i = Some d /\
           ParsedData.markdown d = join (nl +:+ nl) (markdown_documents job) /\
           d = normalized (pathlib.name p) job) /\
  (forall ps ds w',
     pdf_parser.parse_multiple_pdfs self ps env w = (Ok ds, w') ->
     exists jobs,
       parse_batch (pdf_parser.parser self) (map pathlib.str ps) = inr jobs /\
       forall i d, ds !! i = Some d ->
         exists p job, ps !! i = Some p /\ jobs !! i = Some job /\
           ParsedData.markdown d = join (nl +:+ nl) (markdown_documents job) /\
           d = normalized (pathlib.name p) job) /\
  (forall ps jobs,
     Forall (fun p => path_exists env p = true) ps ->
     aparse_batch (pdf_parser.parser self) (map pathlib.str ps) = inr jobs ->
     exists ds,
       run_until_complete (pdf_parser.parse_multiple_pdfs_async self ps) env w =
         (Ok ds, log_call (AParseBatchCall (map pathlib.str ps)) w) /\
       forall i p job, ps !! i = Some p -> jobs !! i = Some job ->
         exists d, ds !! i = Some d /\
           ParsedData.markdown d = join (nl +:+ nl) (markdown_documents job) /\
           d = normalized (pathlib.name p) job) /\
  (forall ps ds w',
     run_until_complete (pdf_parser.parse_multiple_pdfs_async self ps) env w = (Ok ds, w') ->
     exists jobs,
       aparse_batch (pdf_parser.parser self) (map pathlib.str ps) = inr jobs /\
       forall i d, ds !! i = Some d ->
         exists p job, ps !! i = Some p /\ jobs !! i = Some job /\
           ParsedData.markdown d = join (nl +:+ nl) (markdown_documents job) /\
           d = normalized (pathlib.name p) job).
Proof.
  repeat apply conj.
  - intros p job Hex Hjob. exists (normalized (pathlib.name p) job).
    split; [|split; reflexivity].
    apply parse_single_pdf_answered; assumption.
  - intros p d w' H. apply parse_single_pdf_inv in H as (_ & job & Hjob & ->).
    exists job. repeat split. exact Hjob.
  - intros p job Hex Hjob. exists (normalized (pathlib.name p) job).
    split; [|split; reflexivity].
    apply parse_single_pdf_async_answered; assumption.
  - intros p d w' H. apply parse_single_pdf_async_inv in H as (_ & job & Hjob & ->).
    exists job. repeat split. exact Hjob.
  - intros ps jobs Hex Hjobs.
    destruct (parse_multiple_pdfs_answered self ps jobs env w Hex Hjobs) as (ds & Hrun & _ & Hds).
    exists ds. split; [exact Hrun|]. intros i p job Hp Hj.
    exists (normalized (pathlib.name p) job).
    split; [exact (proj1 (paired_entry _ _ _ Hds) i p job Hp Hj) | split; reflexivity].
  - intros ps ds w' H. apply parse_multiple_pdfs_inv in H as (_ & jobs & Hjobs & _ & Hds).
    exists jobs. split; [exact Hjobs|]. intros i d Hd.
    destruct (proj2 (paired_entry _ _ _ Hds) i d Hd) as (p & job & Hp & Hj & ->).
    exists p, job. repeat split; assumption.
  - intros ps jobs Hex Hjobs.
    destruct (parse_multiple_pdfs_async_answered self ps jobs env w Hex Hjobs)
      as (ds & Hrun & _ & Hds).
    exists ds. split; [exact Hrun|]. intros i p job Hp Hj.
    exists (normalized (pathlib.name p) job).
    split; [exact (proj1 (paired_entry _ _ _ Hds) i p job Hp Hj) | split; reflexivity].
  - intros ps ds w' H. apply parse_multiple_pdfs_async_inv in H as (_ & jobs & Hjobs & _ & Hds).
    exists jobs. split; [exact Hjobs|]. intros i d Hd.
    destruct (proj2 (paired_entry _ _ _ Hds) i d Hd) as (p & job & Hp & Hj & ->).
    exists p, job. repeat split; assumption.
Qed.

(** For the sample file the backend answers two pages, and the full text is
    the two page texts with a blank line between them. *)
Lemma parse_variants_join_pages_with_a_blank_line_witness :
  exists d,
    pdf_parser.parse_single_pdf sample.parser ["data"; "a.pdf"] sample.env empty_world =
      (Ok d, log_call (ParseCall "data/a.pdf") empty_world) /\
    ParsedData.markdown d = "page one" +:+ nl +:+ nl +:+ "page two" /\
    d = normalized "a.pdf" sample.job.
Proof.
  apply (proj1 (parse_variants_join_pages_with_a_blank_line sample.parser sample.env
                  empty_world) ["data"; "a.pdf"] sample.job); reflexivity.
Defined.

(** C4, as stated, fails: two pages are joined by two newline characters, not
    by the blank-line, dash, blank-line marker of the configuration. *)
Lemma pages_are_not_joined_with_the_dash_marker :
  exists d w,
    pdf_parser.parse_single_pdf sample.parser ["data"; "a.pdf"] sample.env empty_world =
      (Ok d, w) /\
    ParsedData.markdown d <>
      join config.page_separator (markdown_documents (ParsedData.result d)).
Proof.
  exists (normalized "a.pdf" sample.job), (log_call (ParseCall "data/a.pdf") empty_world).
  split; [reflexivity|]. vm_compute. discriminate.
Qed.

(** C6. In each of the four parse variants the [page_count] of the document
    returned for a file is the number of per-page documents of the job the
    backend answers for that file; the number of pages the job's metadata
    reports plays no part: two backends whose jobs hold the same per-page
    documents and report different page numbers give the same [page_count].
    The statements come in pairs as for the full text: the variant returns
    such a record when the files exist and the backend answers, and a record
    it returns has come about in this way. *)
Theorem page_count_is_the_number_of_page_documents self env w :
  (forall p job,
     path_exists env p = true ->
     parse (pdf_parser.parser self) (pathlib.str p) = inr job ->
     exists d,
       pdf_parser.parse_single_pdf self p env w =
         (Ok d, log_call (ParseCall (pathlib.str p)) w) /\
       ParsedData.page_count d = length (markdown_documents job)) /\
  (forall p d w',
     pdf_parser.parse_single_pdf self p env w = (Ok d, w') ->
     exists job,
       parse (pdf_parser.parser self) (pathlib.str p) = inr job /\
       ParsedData.page_count d = length (markdown_documents job)) /\
  (forall p job,
     path_exists env p = true ->
     aparse (pdf_parser.parser self) (pathlib.str p) = inr job ->
     exists d,
       run_until_complete (pdf_parser.parse_single_pdf_async self p) env w =
         (Ok d, log_call (AParseCall (pathlib.str p)) w) /\
       ParsedData.page_count d = length (markdown_documents job)) /\
  (forall p d w',
     run_until_complete (pdf_parser.parse_single_pdf_async self p) env w = (Ok d, w') ->
     exists job,
       aparse (pdf_parser.parser self) (pathlib.str p) = inr job /\
       ParsedData.page_count d = length (markdown_documents job)) /\
  (forall ps jobs,
     Forall (fun p => path_exists env p = true) ps ->
     parse_batch (pdf_parser.parser self) (map pathlib.str ps) = inr jobs ->
     exists ds,
       pdf_parser.parse_multiple_pdfs self ps env w =
         (Ok ds, log_call (ParseBatchCall (map pathlib.str ps)) w) /\
       forall i p job, ps !! i = Some p -> jobs !! i = Some job ->
         exists d, ds !! i = Some d /\
           ParsedData.page_count d = length (markdown_documents job)) /\
  (forall ps ds w',
     pdf_parser.parse_multiple_pdfs self ps env w = (Ok ds, w') ->
     exists jobs,
       parse_batch (pdf_parser.parser self) (map pathlib.str ps) = inr jobs /\
       forall i d, ds !! i = Some d ->
         exists job, jobs !! i = Some job /\
           ParsedData.page_count d = length (markdown_documents job)) /\
  (forall ps jobs,
     Forall (fun p => path_exists env p = true) ps ->
     aparse_batch (pdf_parser.parser self) (map pathlib.str ps) = inr jobs ->
     exists ds,
       run_until_complete (pdf_parser.parse_multiple_pdfs_async self ps) env w =
         (Ok ds, log_call (AParseBatchCall (map pathlib.str ps)) w) /\
       forall i p job, ps !! i = Some p -> jobs !! i = Some job ->
         exists d, ds !! i = Some d /\
           ParsedData.page_count d = length (markdown_documents job)) /\
  (forall ps ds w',
     run_until_complete (pdf_parser.parse_multiple_pdfs_async self ps) env w = (Ok ds, w') ->
     exists jobs,
       aparse_batch (pdf_parser.parser self) (map pathlib.str ps) = inr jobs /\
       forall i d, ds !! i = Some d ->
         exists job, jobs !! i = Some job /\
           ParsedData.page_count d = length (markdown_documents job)) /\
  (forall self2 p docs pages pages2,
     path_exists env p = true ->
     parse (pdf_parser.parser self) (pathlib.str p) =
       inr {| markdown_documents := docs; job_pages := pages |} ->
     parse (pdf_parser.parser self2) (pathlib.str p) =
       inr {| markdown_documents := docs; job_pages := pages2 |} ->
     exists d d2,
       pdf_parser.parse_single_pdf self p env w =
         (Ok d, log_call (ParseCall (pathlib.str p)) w) /\
       pdf_parser.parse_single_pdf self2 p env w =
         (Ok d2, log_call (ParseCall (pathlib.str p)) w) /\
       ParsedData.page_count d = length docs /\
       ParsedData.page_count d2 = length docs).
Proof.
  repeat apply conj.
  - intros p job Hex Hjob. exists (normalized (pathlib.name p) job).
    split; [|reflexivity].
    apply parse_single_pdf_answered; assumption.
  - intros p d w' H. apply parse_single_pdf_inv in H as (_ & job & Hjob & ->).
    exists job. split; [exact Hjob | reflexivity].
  - intros p job Hex Hjob. exists (normalized (pathlib.name p) job).
    split; [|reflexivity].
    apply parse_single_pdf_async_answered; assumption.
  - intros p d w' H. apply parse_single_pdf_async_inv in H as (_ & job & Hjob & ->).
    exists job. split; [exact Hjob | reflexivity].
  - intros ps jobs Hex Hjobs.
    destruct (parse_multiple_pdfs_answered self ps jobs env w Hex Hjobs) as (ds & Hrun & _ & Hds).
    exists ds. split; [exact Hrun|]. intros i p job Hp Hj.
    exists (normalized (pathlib.name p) job).
    split; [exact (proj1 (paired_entry _ _ _ Hds) i p job Hp Hj) | reflexivity].
  - intros ps ds w' H. apply parse_multiple_pdfs_inv in H as (_ & jobs & Hjobs & _ & Hds).
    exists jobs. split; [exact Hjobs|]. intros i d Hd.
    destruct (proj2 (paired_entry _ _ _ Hds) i d Hd) as (p & job & Hp & Hj & ->).
    exists job. split; [exact Hj | reflexivity].
  - intros ps jobs Hex Hjobs.
    destruct (parse_multiple_pdfs_async_answered self ps jobs env w Hex Hjobs)
      as (ds & Hrun & _ & Hds).
    exists ds. split; [exact Hrun|]. intros i p job Hp Hj.
    exists (normalized (pathlib.name p) job).
    split; [exact (proj1 (paired_entry _ _ _ Hds) i p job Hp Hj) | reflexivity].
  - intros ps ds w' H. apply parse_multiple_pdfs_async_inv in H as (_ & jobs & Hjobs & _ & Hds).
    exists jobs. split; [exact Hjobs|]. intros i d Hd.
    destruct (proj2 (paired_entry _ _ _ Hds) i d Hd) as (p & job & Hp & Hj & ->).
    exists job. split; [exact Hj | reflexivity].
  - intros self2 p docs pages pages2 Hex Hjob Hjob2.
    exists (normalized (pathlib.name p) {| markdown_documents := docs; job_pages := pages |}),
      (normalized (pathlib.name p) {| markdown_documents := docs; job_pages := pages2 |}).
    split; [|split; [|split; reflexivity]].
    + apply parse_single_pdf_answered; assumption.
    + apply parse_single_pdf_answered; assumption.
Qed.

(** For the sample file the backend answers two per-page documents and
    reports 7 pages in the job's metadata: the count is 2. *)
Lemma page_count_is_the_number_of_page_documents_witness :
  (exists d,
     pdf_parser.parse_single_pdf sample.parser ["data"; "a.pdf"] sample.env empty_world =
       (Ok d, log_call (ParseCall "data/a.pdf") empty_world) /\
     ParsedData.page_count d = 2) /\
  job_pages sample.job = 7.
Proof.
  split; [|reflexivity].
  apply (proj1 (page_count_is_the_number_of_page_documents sample.parser sample.env
                  empty_world) ["data"; "a.pdf"] sample.job); reflexivity.
Defined.

(** C7. When some path of a batch does not exist, both batch parse methods
    raise the not-found error naming the first such path, and leave the world
    as it was: no remote call has been made, for any document. *)
Theorem batch_parse_checks_existence_before_any_remote_call self ps env w :
  (exists p, In p ps /\ path_exists env p = false) ->
  exists q,
    first_missing env ps = Some q /\ In q ps /\ path_exists env q = false /\
    pdf_parser.parse_multiple_pdfs self ps env w =
      (Raise (FileNotFoundError ("PDF file not found: " +:+ pathlib.str q)), w) /\
    pdf_parser.parse_multiple_pdfs_async self ps env w =
      (Raise (FileNotFoundError ("PDF file not found: " +:+ pathlib.str q)), w) /\
    run_until_complete (pdf_parser.parse_multiple_pdfs_async self ps) env w =
      (Raise (FileNotFoundError ("PDF file not found: " +:+ pathlib.str q)), w).
Proof.
  intros Hex. destruct (some_missing_has_first _ _ Hex) as [q Hq].
  exists q. destruct (first_missing_spec _ _ _ Hq) as (b & a & Hps & _ & Hnq).
  repeat split; auto.
  - rewrite Hps. apply in_or_app. right. left. reflexivity.
  - unfold pdf_parser.parse_multiple_pdfs, bind.
    rewrite (verify_all_exist_missing _ _ _ _ Hq). reflexivity.
  - unfold pdf_parser.parse_multiple_pdfs_async, bind.
    rewrite (verify_all_exist_missing _ _ _ _ Hq). reflexivity.
  - unfold run_until_complete, pdf_parser.parse_multiple_pdfs_async, bind.
    rewrite (verify_all_exist_missing _ _ _ _ Hq). reflexivity.
Qed.

Lemma batch_parse_checks_existence_before_any_remote_call_witness :
  exists q,
    first_missing sample.env [["data"; "a.pdf"]; ["data"; "missing.pdf"]] = Some q /\
    In q [["data"; "a.pdf"]; ["data"; "missing.pdf"]] /\
    path_exists sample.env q = false /\
    pdf_parser.parse_multiple_pdfs sample.parser
      [["data"; "a.pdf"]; ["data"; "missing.pdf"]] sample.env empty_world =
      (Raise (FileNotFoundError ("PDF file not found: " +:+ pathlib.str q)), empty_world) /\
    pdf_parser.parse_multiple_pdfs_async sample.parser
      [["data"; "a.pdf"]; ["data"; "missing.pdf"]] sample.env empty_world =
      (Raise (FileNotFoundError ("PDF file not found: " +:+ pathlib.str q)), empty_world) /\
    run_until_complete (pdf_parser.parse_multiple_pdfs_async sample.parser
      [["data"; "a.pdf"]; ["data"; "missing.pdf"]]) sample.env empty_world =
      (Raise (FileNotFoundError ("PDF file not found: " +:+ pathlib.str q)), empty_world).
Proof.
  apply (batch_parse_checks_existence_before_any_remote_call sample.parser
           [["data"; "a.pdf"]; ["data"; "missing.pdf"]] sample.env empty_world).
  exists ["data"; "missing.pdf"]. split; [simpl; auto | reflexivity].
Defined.

(** ** The persisted natural-language file *)

Lemma no_newline_cons c s :
  no_newline (String c s) -> c <> "010"%char /\ no_newline s.
Proof.
  unfold no_newline, nl. cbn [contains]. intros H.
  apply orb_false_iff in H as [Hp Hc]. split; [|exact Hc].
  intros ->. destruct s; vm_compute in Hp; discriminate Hp.
Qed.

Lemma first_line_unique l l' r r' :
  no_newline l -> no_newline l' ->
  l +:+ nl +:+ r = l' +:+ nl +:+ r' -> l = l' /\ r = r'.
Proof.
  revert l'. induction l as [|c l IH]; intros [|c' l'] Hl Hl' H.
  - injection H as H. auto.
  - apply no_newline_cons in Hl' as [Hc' _]. injection H as Hc _. congruence.
  - apply no_newline_cons in Hl as [Hc _]. injection H as Hc' _. congruence.
  - apply no_newline_cons in Hl as [_ Hl]. apply no_newline_cons in Hl' as [_ Hl'].
    rewrite !append_cons in H. injection H as -> H.
    destruct (IH l' Hl Hl' H) as [-> ->]. auto.
Qed.

(** C8, as stated, fails: in the file written for the sample result the
    generated text does not come right after four lines. *)
Lemma nl_file_is_not_four_lines_then_body :
  ~ four_lines_then (NLResult.natural_language sample.nl_result)
      (nlp_processor.output_content sample.nl_result).
Proof.
  intros (l1 & l2 & l3 & l4 & rest & H1 & H2 & H3 & H4 & H).
  change (nlp_processor.output_content sample.nl_result)
    with ("# 自然言語処理結果" +:+ nl +:+ "# Model: m" +:+ nl +:+
          "# Prompt Type: general" +:+ nl +:+ "# Input Tokens: 11" +:+ nl +:+
          "# Output Tokens: 22" +:+ nl +:+ nl +:+ "prose" +:+ nl) in H.
  apply first_line_unique in H as [<- H]; [|reflexivity|exact H1].
  apply first_line_unique in H as [<- H]; [|reflexivity|exact H2].
  apply first_line_unique in H as [<- H]; [|reflexivity|exact H3].
  apply first_line_unique in H as [<- H]; [|reflexivity|exact H4].
  discriminate H.
Qed.

Lemma output_content_lines d :
  nlp_processor.output_content d =
  join nl [ "# 自然言語処理結果";
            "# Model: " +:+ NLResult.model d;
            "# Prompt Type: " +:+ NLResult.prompt_type d;
            "# Input Tokens: " +:+ str_int (NLResult.input_tokens d);
            "# Output Tokens: " +:+ str_int (NLResult.output_tokens d);
            "";
            NLResult.natural_language d;
            "" ].
Proof.
  unfold nlp_processor.output_content. cbn [join].
  rewrite !append_assoc. reflexivity.
Qed.

(** C8 (as the code has it). The file written by [save_natural_language]
    consists of a title line, the four metadata lines (model id, prompt
    variant tag, input token count, output token count), an empty line, the
    generated text, and a final newline. *)
Theorem nl_file_is_title_four_metadata_lines_blank_line_body self d dir fname env w :
  let target :=
    pathlib.joinpath (default (config.NATURAL_LANGUAGE_DIR env) dir)
      (match fname with
       | Some f => f
       | None =>
           match NLResult.source_file d with
           | Some src => pathlib.stem_of (pathlib.name_of_str src) +:+ "_nl.txt"
           | None => "natural_language_output.txt"
           end
       end) in
  write_error env target = None ->
  nlp_processor.save_natural_language self d dir fname env w =
  (Ok target,
   {| remote_calls := remote_calls w;
      written := written w ++
        [(target,
          join nl [ "# 自然言語処理結果";
                    "# Model: " +:+ NLResult.model d;
                    "# Prompt Type: " +:+ NLResult.prompt_type d;
                    "# Input Tokens: " +:+ str_int (NLResult.input_tokens d);
                    "# Output Tokens: " +:+ str_int (NLResult.output_tokens d);
                    "";
                    NLResult.natural_language d;
                    "" ])] |}).
Proof.
  intros target Hw. unfold nlp_processor.save_natural_language, bind, write_text, ret.
  fold target. rewrite Hw. rewrite output_content_lines. reflexivity.
Qed.

Lemma nl_file_is_title_four_metadata_lines_blank_line_body_witness :
  nlp_processor.save_natural_language sample.nlp sample.nl_result None (Some "a_nl.txt")
    sample.env empty_world =
  (Ok ["/"; "srv"; "app"; "output"; "natural_language"; "a_nl.txt"],
   {| remote_calls := [];
      written :=
        [(["/"; "srv"; "app"; "output"; "natural_language"; "a_nl.txt"],
          join nl [ "# 自然言語処理結果"; "# Model: m"; "# Prompt Type: general";
                    "# Input Tokens: 11"; "# Output Tokens: 22"; ""; "prose"; "" ])] |}).
Proof.
  apply (nl_file_is_title_four_metadata_lines_blank_line_body sample.nlp sample.nl_result
           None (Some "a_nl.txt") sample.env empty_world).
  reflexivity.
Defined.

(** ** The command line *)

Lemma prefix_in_prefixes (a s : string) :
  String.prefix a s = true -> In a (prefixes s).
Proof.
  revert a. induction s as [|d s IH]; intros [|c a]; cbn [String.prefix prefixes].
  - intros _. left. reflexivity.
  - discriminate.
  - intros _. left. reflexivity.
  - destruct (ascii_dec c d) as [->|_]; [|discriminate].
    intros H. right. apply in_map. apply IH. exact H.
Qed.

Lemma lookup_action_In s l action :
  main.lookup_action s l = Some action -> In (s, action) l.
Proof.
  induction l as [|[o x] l IH]; cbn [main.lookup_action]; [discriminate|].
  destruct (String.eqb_spec o s) as [->|_].
  - intros H. injection H as ->. left. reflexivity.
  - intros H. right. apply IH. exact H.
Qed.

Lemma partition_eq_none s before :
  main.partition_eq s = (before, None) -> before = s.
Proof.
  revert before. induction s as [|c s IH]; intros before; cbn [main.partition_eq].
  - intros H. injection H as <-. reflexivity.
  - destruct (Ascii.eqb c "="); [discriminate|].
    destruct (main.partition_eq s) as [b after]. intros H. injection H as <- ->.
    rewrite (IH b eq_refl). reflexivity.
Qed.

(** The three options the properties below are about. *)
Ltac flag_cases H :=
  simpl in H;
  repeat (destruct H as [H|H]; [injection H as <- <- | ]); [ | | | contradiction].

(** An argument string written as an abbreviation of an option stands for
    that option, without a value. *)
Lemma abbreviation_is_parsed flag action a :
  In (flag, action)
     [ ("--table-prompt", main.StoreTrueTablePrompt);
       ("--general-prompt", main.StoreTrueGeneralPrompt);
       ("--help", main.HelpAction) ] ->
  abbreviates flag a = true ->
  main.parse_optional a = main.Optional action None /\ a <> "-h".
Proof.
  intros Hflag Ha. unfold abbreviates in Ha.
  apply andb_true_iff in Ha as [Ha Hall]. apply andb_true_iff in Ha as [Ha Hp].
  apply prefix_in_prefixes in Hp.
  flag_cases Hflag;
    (simpl in Hp;
     repeat (destruct Hp as [<-|Hp];
             [first [ discriminate Ha | discriminate Hall
                    | split; [vm_compute; reflexivity | discriminate] ] | ]);
     contradiction).
Qed.

(** An argument string that stands for an option without a value, and is
    not [-h], is an abbreviation of the option. *)
Lemma parsed_is_abbreviation flag action a :
  In (flag, action)
     [ ("--table-prompt", main.StoreTrueTablePrompt);
       ("--general-prompt", main.StoreTrueGeneralPrompt);
       ("--help", main.HelpAction) ] ->
  main.parse_optional a = main.Optional action None -> a <> "-h" ->
  abbreviates flag a = true.
Proof.
  intros Hflag Hc Hh. unfold main.parse_optional in Hc.
  destruct (String.eqb a ""); [discriminate|].
  destruct (String.prefix "-" a); cbn [negb] in Hc; [|discriminate].
  destruct (main.lookup_action a main.option_string_actions) as [x|] eqn:El.
  { injection Hc as ->. apply lookup_action_In in El.
    flag_cases Hflag;
      (simpl in El;
       repeat (destruct El as [El|El];
               [first [ discriminate El
                      | injection El as <-; first [reflexivity | contradiction] ] | ]);
       contradiction). }
  destruct (Nat.eqb (String.length a) 1); [discriminate|].
  destruct (String.prefix "--" a) eqn:Hdd; cbn [negb] in Hc.
  2:{ destruct a as [|c0 [|c tail]]; try discriminate.
      destruct (main.all_digits (String c tail)); [discriminate|].
      destruct (main.starts_no_number_or_help c); [|discriminate].
      destruct (contains " " (String c0 (String c tail))); discriminate. }
  destruct (main.partition_eq a) as [option_string explicit_arg] eqn:Ep.
  destruct (main.is_separator explicit_arg); [discriminate|].
  destruct explicit_arg as [value|].
  { destruct (main.lookup_action option_string main.option_string_actions);
      [discriminate|].
    destruct (main.get_option_tuples option_string) as [|[o x] [|]];
      [destruct (contains " " a)| |]; discriminate. }
  apply partition_eq_none in Ep. subst option_string.
  assert (Htuples : exists o, main.get_option_tuples a = [(o, action)]).
  { destruct (main.lookup_action a main.option_string_actions);
      (destruct (main.get_option_tuples a) as [|[o x] [|]];
       [destruct (contains " " a); discriminate
       | injection Hc as ->; exists o; reflexivity
       | discriminate]). }
  clear Hc. destruct Htuples as [o Ho].
  assert (Hin : In (o, action) main.option_string_actions /\ String.prefix a o = true).
  { assert (H : In (o, action) (main.get_option_tuples a)) by (rewrite Ho; left; reflexivity).
    unfold main.get_option_tuples in H. apply filter_In in H. exact H. }
  destruct Hin as [Hin Hpo].
  assert (Hall : forallb (fun '(o', _) => String.eqb o' o || negb (String.prefix a o'))
                   main.option_string_actions = true).
  { apply forallb_forall. intros [o' x'] Hin'.
    destruct (String.prefix a o') eqn:Hp'; [|apply orb_true_r].
    assert (H : In (o', x') (main.get_option_tuples a))
      by (unfold main.get_option_tuples; apply filter_In; auto).
    rewrite Ho in H. destruct H as [H|[]]. injection H as <- <-.
    rewrite String.eqb_refl. reflexivity. }
  assert (Hsep : String.eqb a "--" = false).
  { destruct (String.eqb_spec a "--") as [->|_]; [|reflexivity].
    vm_compute in Ho. discriminate Ho. }
  unfold abbreviates. rewrite Hdd, Hsep. cbn [negb andb].
  flag_cases Hflag;
    (simpl in Hin;
     repeat (destruct Hin as [Hin|Hin];
             [first [ discriminate Hin
                    | injection Hin as <-; first
                        [ rewrite Hpo, Hall; reflexivity
                        | apply prefix_in_prefixes in Hpo; simpl in Hpo;
                          repeat (destruct Hpo as [<-|Hpo]; [discriminate Hdd|]);
                          contradiction ] ] | ]);
     contradiction).
Qed.

Lemma table_flag a :
  abbreviates "--table-prompt" a =
  match main.parse_optional a with
  | main.Optional main.StoreTrueTablePrompt None => true
  | _ => false
  end.
Proof.
  destruct (abbreviates "--table-prompt" a) eqn:E.
  - apply (abbreviation_is_parsed _ main.StoreTrueTablePrompt) in E as [-> _];
      [reflexivity | simpl; auto].
  - destruct (main.parse_optional a) as [|[] [v|]| | |] eqn:Ec; try reflexivity.
    rewrite <- E. apply (parsed_is_abbreviation _ main.StoreTrueTablePrompt);
      [simpl; auto | exact Ec | intros ->; discriminate Ec].
Qed.

Lemma general_flag a :
  abbreviates "--general-prompt" a =
  match main.parse_optional a with
  | main.Optional main.StoreTrueGeneralPrompt None => true
  | _ => false
  end.
Proof.
  destruct (abbreviates "--general-prompt" a) eqn:E.
  - apply (abbreviation_is_parsed _ main.StoreTrueGeneralPrompt) in E as [-> _];
      [reflexivity | simpl; auto].
  - destruct (main.parse_optional a) as [|[] [v|]| | |] eqn:Ec; try reflexivity.
    rewrite <- E. apply (parsed_is_abbreviation _ main.StoreTrueGeneralPrompt);
      [simpl; auto | exact Ec | intros ->; discriminate Ec].
Qed.

Lemma help_flag a :
  String.eqb a "-h" || abbreviates "--help" a =
  match main.parse_optional a with
  | main.Optional main.HelpAction None => true
  | _ => false
  end.
Proof.
  destruct (String.eqb_spec a "-h") as [->|Hh]; [reflexivity|]. cbn [orb].
  destruct (abbreviates "--help" a) eqn:E.
  - apply (abbreviation_is_parsed _ main.HelpAction) in E as [-> _];
      [reflexivity | simpl; auto].
  - destruct (main.parse_optional a) as [|[] [v|]| | |] eqn:Ec; try reflexivity.
    rewrite <- E. apply (parsed_is_abbreviation _ main.HelpAction);
      [simpl; auto | exact Ec | exact Hh].
Qed.

(** The two flags of the namespace [consume] returns: set before, or
    supplied among the arguments. *)
Lemma consume_flags n : forall argv ns extras ns',
  length argv <= n ->
  main.consume ns extras argv = main.Parsed ns' ->
  main.table_prompt ns' =
    main.table_prompt ns || existsb (abbreviates "--table-prompt") argv /\
  main.general_prompt ns' =
    main.general_prompt ns || existsb (abbreviates "--general-prompt") argv.
Proof.
  induction n as [|n IH]; intros argv ns extras ns' Hlen H.
  - destruct argv; [|simpl in Hlen; lia]. cbn [main.consume] in H.
    destruct extras; [discriminate|]. injection H as <-.
    rewrite !orb_false_r. auto.
  - destruct argv as [|a rest].
    { cbn [main.consume] in H. destruct extras; [discriminate|]. injection H as <-.
      rewrite !orb_false_r. auto. }
    cbn [main.consume] in H. cbn [existsb]. rewrite table_flag, general_flag.
    destruct (main.parse_optional a) as [|action [value|]| | |] eqn:Ea.
    + destruct (main.pdf_path ns);
        (apply IH in H; [|simpl in Hlen; lia]); exact H.
    + destruct action; cbn [main.takes_value] in H; try discriminate;
        (apply IH in H; [|simpl in Hlen; lia]); exact H.
    + destruct action; cbn [main.takes_value] in H; try discriminate.
      * destruct rest as [|v rest']; [discriminate|].
        cbn [existsb]. rewrite table_flag, general_flag.
        destruct (main.parse_optional v); try discriminate.
        apply IH in H; [|simpl in Hlen; lia]. exact H.
      * destruct rest as [|v rest']; [discriminate|].
        cbn [existsb]. rewrite table_flag, general_flag.
        destruct (main.parse_optional v); try discriminate.
        apply IH in H; [|simpl in Hlen; lia]. exact H.
      * apply IH in H; [|simpl in Hlen; lia]. destruct H as [-> ->]. simpl.
        rewrite !orb_true_r. auto.
      * apply IH in H; [|simpl in Hlen; lia]. destruct H as [-> ->]. simpl.
        rewrite !orb_true_r. auto.
      * apply IH in H; [|simpl in Hlen; lia]. exact H.
      * apply IH in H; [|simpl in Hlen; lia]. exact H.
      * apply IH in H; [|simpl in Hlen; lia]. exact H.
    + apply IH in H; [|simpl in Hlen; lia]. exact H.
    + discriminate.
    + discriminate.
Qed.

(** [consume] exits with status 2, or with status 0 when the help text is
    asked for. *)
Lemma consume_exit n : forall argv ns extras status,
  length argv <= n ->
  main.consume ns extras argv = main.SystemExit status ->
  status = 2%Z \/
  status = 0%Z /\
  existsb (fun a => String.eqb a "-h" || abbreviates "--help" a) argv = true.
Proof.
  induction n as [|n IH]; intros argv ns extras status Hlen H.
  - destruct argv; [|simpl in Hlen; lia]. cbn [main.consume] in H.
    destruct extras; [|discriminate]. injection H as <-. auto.
  - destruct argv as [|a rest].
    { cbn [main.consume] in H. destruct extras; [|discriminate]. injection H as <-. auto. }
    cbn [main.consume] in H. cbn [existsb]. rewrite help_flag.
    assert (Hrest : forall ns' extras',
              main.consume ns' extras' rest = main.SystemExit status ->
              status = 2%Z \/
              status = 0%Z /\
              existsb (fun a => String.eqb a "-h" || abbreviates "--help" a) rest = true)
      by (intros ns' extras' H'; apply IH in H'; [exact H' | simpl in Hlen; lia]).
    destruct (main.parse_optional a) as [|action [value|]| | |] eqn:Ea.
    + destruct (main.pdf_path ns); apply Hrest in H; exact H.
    + destruct action; cbn [main.takes_value] in H;
        first [ injection H as <-; auto | apply Hrest in H; exact H ].
    + destruct action; cbn [main.takes_value] in H.
      * injection H as <-. auto.
      * destruct rest as [|v rest']; [injection H as <-; auto|].
        cbn [existsb]. rewrite help_flag.
        destruct (main.parse_optional v); try discriminate;
          first [ injection H as <-; auto
                | apply IH in H; [exact H | simpl in Hlen; lia] ].
      * destruct rest as [|v rest']; [injection H as <-; auto|].
        cbn [existsb]. rewrite help_flag.
        destruct (main.parse_optional v); try discriminate;
          first [ injection H as <-; auto
                | apply IH in H; [exact H | simpl in Hlen; lia] ].
      * apply Hrest in H. exact H.
      * apply Hrest in H. exact H.
      * apply Hrest in H. exact H.
      * apply Hrest in H. exact H.
      * apply Hrest in H. exact H.
    + apply Hrest in H. exact H.
    + discriminate.
    + discriminate.
Qed.

(** The namespace [parse_args] returns is the one [consume] returns for the
    arguments before the separator, but for the positional argument. *)
Lemma parse_args_parsed argv args :
  main.parse_args argv = main.Parsed args ->
  exists ns,
    main.consume main.defaults false (before_separator argv) = main.Parsed ns /\
    main.table_prompt args = main.table_prompt ns /\
    main.general_prompt args = main.general_prompt ns.
Proof.
  unfold main.parse_args, before_separator.
  destruct (main.split_separator argv) as [before after]. cbn [fst].
  destruct (existsb (String.eqb "--") (default [] after) || _); [discriminate|].
  destruct (existsb main.is_ambiguous _).
  { destruct (existsb main.is_help _); discriminate. }
  destruct (main.consume main.defaults false before) as [ns|status|];
    [|destruct after; discriminate..].
  destruct after as [after|].
  - destruct (main.pdf_path ns); [discriminate|].
    destruct after as [|value [|]]; try discriminate;
      intros H; injection H as <-; exists ns; auto.
  - intros H. injection H as <-. exists ns. auto.
Qed.

(** The status [parse_args] exits with is 2, or the status [consume] exits
    with for the arguments before the separator. *)
Lemma parse_args_exit argv status :
  main.parse_args argv = main.SystemExit status ->
  status = 2%Z \/
  exists ns extras,
    main.consume ns extras (before_separator argv) = main.SystemExit status.
Proof.
  unfold main.parse_args, before_separator.
  destruct (main.split_separator argv) as [before after]. cbn [fst].
  destruct (existsb (String.eqb "--") (default [] after) || _); [discriminate|].
  destruct (existsb main.is_ambiguous _).
  { destruct (existsb main.is_help _); [discriminate|]. intros H. injection H as <-. auto. }
  destruct (main.consume main.defaults false before) as [ns|st|] eqn:E.
  - destruct after as [after|]; [|discriminate].
    destruct (main.pdf_path ns); [discriminate|].
    destruct after as [|value [|]]; try discriminate.
    intros H. injection H as <-. auto.
  - intros H. assert (st = status) by (destruct after; injection H; auto). subst st.
    right. exists main.defaults, false. exact E.
  - destruct after; discriminate.
Qed.

(** C9, as stated, fails: the two flags are accepted together. *)
Lemma both_prompt_flags_are_accepted :
  exists args,
    main.parse_args ["--table-prompt"; "--general-prompt"] = main.Parsed args /\
    main.table_prompt args = true /\ main.general_prompt args = true /\
    main.determine_prompt_type args = Some true.
Proof. eexists. split; [vm_compute; reflexivity|]. repeat split. Qed.

(** C9 (as the code has it). The two flags may be given together.  For
    accepted arguments each of the two attributes tells whether its flag is
    supplied, in full or abbreviated, and the selector is [True] when
    [--table-prompt] is supplied (with or without [--general-prompt]),
    [False] when only [--general-prompt] is supplied, and left as auto
    ([None]) when neither is. *)
Theorem prompt_flags_select_with_table_first argv args :
  main.parse_args argv = main.Parsed args ->
  main.table_prompt args = supplied "--table-prompt" argv /\
  main.general_prompt args = supplied "--general-prompt" argv /\
  main.determine_prompt_type args =
    if supplied "--table-prompt" argv then Some true
    else if supplied "--general-prompt" argv then Some false
    else None.
Proof.
  intros H. apply parse_args_parsed in H as (ns & H & Et & Eg).
  apply (consume_flags (length (before_separator argv))) in H; [|lia].
  destruct H as [Ht Hg]. simpl in Ht, Hg.
  unfold main.determine_prompt_type, supplied. rewrite Et, Eg, Ht, Hg. auto.
Qed.

(** An abbreviated flag before the separator counts; the full flag after
    the separator is the positional argument and does not. *)
Lemma prompt_flags_select_with_table_first_witness :
  exists args,
    main.parse_args ["--gen"; "--llama-api-key=K"; "--"; "--table-prompt"] =
      main.Parsed args /\
    main.pdf_path args = Some "--table-prompt" /\
    main.general_prompt args = true /\
    main.determine_prompt_type args = Some false.
Proof.
  eexists. split; [vm_compute; reflexivity|]. split; [reflexivity|].
  split;
    [ exact (proj1 (proj2 (prompt_flags_select_with_table_first
               ["--gen"; "--llama-api-key=K"; "--"; "--table-prompt"] _ eq_refl)))
    | exact (proj2 (proj2 (prompt_flags_select_with_table_first
               ["--gen"; "--llama-api-key=K"; "--"; "--table-prompt"] _ eq_refl))) ].
Defined.

(** ** The order on paths and the directory listing *)

Lemma string_compare_refl (s : string) : String.compare s s = Eq.
Proof.
  pose proof (String.compare_antisym s s) as H.
  destruct (String.compare s s); simpl in H; congruence.
Qed.

Lemma string_compare_eq (s1 s2 : string) : String.compare s1 s2 = Eq <-> s1 = s2.
Proof.
  split; [apply String.compare_eq_iff | intros ->; apply string_compare_refl].
Qed.

Lemma string_compare_opp (s1 s2 : string) :
  String.compare s2 s1 = CompOpp (String.compare s1 s2).
Proof. apply String.compare_antisym. Qed.

Lemma string_compare_lt_trans (s1 s2 s3 : string) :
  String.compare s1 s2 = Lt -> String.compare s2 s3 = Lt -> String.compare s1 s3 = Lt.
Proof.
  intros H12 H23.
  assert (L13 : String.le s1 s3).
  { transitivity s2; unfold String.le, String.leb; [rewrite H12 | rewrite H23]; exact I. }
  unfold String.le, String.leb in L13.
  destruct (String.compare s1 s3) eqn:E; [|reflexivity|destruct L13].
  apply String.compare_eq_iff in E. subst s3.
  rewrite (string_compare_opp s1 s2), H12 in H23. discriminate.
Qed.

Lemma string_compare_trans (s1 s2 s3 : string) (c : comparison) :
  String.compare s1 s2 = c -> String.compare s2 s3 = c -> String.compare s1 s3 = c.
Proof.
  destruct c; intros H12 H23.
  - apply string_compare_eq in H12, H23. subst. apply string_compare_refl.
  - eapply string_compare_lt_trans; eassumption.
  - rewrite (string_compare_opp s2 s1) in H12. rewrite (string_compare_opp s3 s2) in H23.
    rewrite (string_compare_opp s3 s1).
    assert (H : String.compare s3 s1 = Lt).
    { apply (string_compare_lt_trans s3 s2 s1).
      - destruct (String.compare s3 s2); simpl in H23; congruence.
      - destruct (String.compare s2 s1); simpl in H12; congruence. }
    rewrite H. reflexivity.
Qed.

Lemma path_compare_eq (p q : Path) : pathlib.compare p q = Eq <-> p = q.
Proof. apply list_compare_refl, string_compare_eq. Qed.

Lemma path_compare_opp (p q : Path) :
  pathlib.compare q p = CompOpp (pathlib.compare p q).
Proof.
  apply list_compare_antisym; [apply string_compare_eq | apply string_compare_opp].
Qed.

#[global] Instance path_le_total : Total pathlib.le.
Proof.
  intros p q. unfold pathlib.le. rewrite (path_compare_opp p q).
  destruct (pathlib.compare p q); simpl; [left | left | right]; congruence.
Qed.

#[global] Instance path_le_antisym : AntiSymm (=) pathlib.le.
Proof.
  intros p q Hpq Hqp. unfold pathlib.le in *. rewrite (path_compare_opp p q) in Hqp.
  apply path_compare_eq. destruct (pathlib.compare p q); simpl in *; congruence.
Qed.

#[global] Instance path_le_trans : Transitive pathlib.le.
Proof.
  intros p q r Hpq Hqr. unfold pathlib.le in *.
  destruct (pathlib.compare p q) eqn:E1; [| |congruence].
  - apply path_compare_eq in E1. subst q. exact Hqr.
  - destruct (pathlib.compare q r) eqn:E2; [| |congruence].
    + apply path_compare_eq in E2. subst r. rewrite E1. discriminate.
    + assert (H : pathlib.compare p r = Lt).
      { exact (list_compare_trans String.compare string_compare_eq p q r
                 string_compare_trans string_compare_opp E1 E2). }
      rewrite H. discriminate.
Qed.

Lemma matches_pdf_spec (name : string) :
  pdf_parser.matches_pdf name = true <-> exists stem, name = stem +:+ ".pdf".
Proof.
  split.
  - induction name as [|c name IH]; cbn [pdf_parser.matches_pdf].
    + discriminate.
    + rewrite orb_true_iff. intros [H|H].
      * apply String.eqb_eq in H. exists "". exact H.
      * destruct (IH H) as [stem ->]. exists (String c stem). reflexivity.
  - intros [stem ->]. induction stem as [|c stem IH]; [reflexivity|].
    rewrite append_cons. cbn [pdf_parser.matches_pdf]. rewrite IH. apply orb_true_r.
Qed.

Lemma filter_permutation {A} (f : A -> bool) (l l' : list A) :
  Permutation l l' -> Permutation (List.filter f l) (List.filter f l').
Proof.
  induction 1 as [|x l l' _ IH|x y l|l l' l'' _ IH1 _ IH2]; simpl.
  - constructor.
  - destruct (f x); [constructor|]; exact IH.
  - destruct (f x), (f y); try reflexivity. constructor.
  - etransitivity; eassumption.
Qed.

Lemma joinpath_le directory a b :
  String.le a b -> pathlib.le (pathlib.joinpath directory a) (pathlib.joinpath directory b).
Proof.
  unfold String.le, String.leb, pathlib.le, pathlib.compare, pathlib.joinpath.
  intros H. rewrite (list_compare_app String.compare string_compare_eq). simpl.
  destruct (String.compare a b); simpl in *; [discriminate | discriminate | destruct H].
Qed.

Lemma joinpath_sorted directory names :
  StronglySorted String.le names ->
  StronglySorted pathlib.le (map (pathlib.joinpath directory) names).
Proof.
  induction 1 as [|a names _ IH Hall]; simpl; constructor; [exact IH|].
  rewrite Forall_forall in Hall. apply Forall_forall. intros q Hq.
  apply list_elem_of_In, in_map_iff in Hq. destruct Hq as (b & <- & Hb).
  apply joinpath_le, Hall, list_elem_of_In, Hb.
Qed.

(** C10. [get_all_pdfs_in_directory] returns the entries of the directory
    whose name ends in [.pdf], each once, in ascending order of path, which
    is the ascending order of their file names; the list does not depend on
    the order in which the directory enumerates. *)
Theorem get_all_pdfs_is_the_sorted_pdf_entries env directory :
  (forall p,
     In p (pdf_parser.get_all_pdfs_in_directory env directory) <->
     exists name, In name (scandir env directory) /\
                  (exists stem, name = stem +:+ ".pdf") /\
                  p = pathlib.joinpath directory name) /\
  Permutation (pdf_parser.get_all_pdfs_in_directory env directory)
    (map (pathlib.joinpath directory)
       (List.filter pdf_parser.matches_pdf (scandir env directory))) /\
  StronglySorted pathlib.le (pdf_parser.get_all_pdfs_in_directory env directory) /\
  (exists names,
     pdf_parser.get_all_pdfs_in_directory env directory =
       map (pathlib.joinpath directory) names /\
     StronglySorted String.le names) /\
  (forall env',
     Permutation (scandir env' directory) (scandir env directory) ->
     pdf_parser.get_all_pdfs_in_directory env' directory =
     pdf_parser.get_all_pdfs_in_directory env directory).
Proof.
  unfold pdf_parser.get_all_pdfs_in_directory, pdf_parser.sorted, pdf_parser.glob_pdf.
  repeat split.
  - intros Hin.
    apply (Permutation_in _ (merge_sort_Permutation pathlib.le _)) in Hin.
    apply in_map_iff in Hin as (name & <- & Hin).
    apply filter_In in Hin as [Hin Hm]. apply matches_pdf_spec in Hm.
    exists name. auto.
  - intros (name & Hin & Hm & ->).
    apply (Permutation_in _ (Permutation_sym (merge_sort_Permutation pathlib.le _))).
    apply in_map. apply filter_In. split; [exact Hin | apply matches_pdf_spec; exact Hm].
  - apply merge_sort_Permutation.
  - apply StronglySorted_merge_sort; apply _.
  - exists (merge_sort String.le (List.filter pdf_parser.matches_pdf (scandir env directory))).
    assert (Hs : StronglySorted String.le
                   (merge_sort String.le
                      (List.filter pdf_parser.matches_pdf (scandir env directory))))
      by (apply StronglySorted_merge_sort; apply _).
    split; [|exact Hs].
    apply (StronglySorted_unique pathlib.le).
    + apply StronglySorted_merge_sort; apply _.
    + apply joinpath_sorted, Hs.
    + rewrite merge_sort_Permutation. apply Permutation_map.
      symmetry. apply merge_sort_Permutation.
  - intros env' Hperm.
    apply (StronglySorted_unique pathlib.le).
    + apply StronglySorted_merge_sort; apply _.
    + apply StronglySorted_merge_sort; apply _.
    + rewrite !merge_sort_Permutation.
      apply Permutation_map, filter_permutation, Hperm.
Qed.

Lemma get_all_pdfs_is_the_sorted_pdf_entries_witness :
  pdf_parser.get_all_pdfs_in_directory
    {| BASE_DIR := []; path_exists := fun _ => true;
       scandir := fun _ => ["notes.txt"; "b.pdf"; "a.pdf"];
       write_error := fun _ => None |} ["data"] =
  pdf_parser.get_all_pdfs_in_directory sample.env ["data"].
Proof.
  apply (proj2 (proj2 (proj2 (proj2
           (get_all_pdfs_is_the_sorted_pdf_entries sample.env ["data"]))))).
  apply perm_swap.
Defined.

Example sample_directory_listing :
  pdf_parser.get_all_pdfs_in_directory sample.env ["data"] =
  [["data"; "a.pdf"]; ["data"; "b.pdf"]].
Proof. reflexivity. Qed.

(** ** The outcome of a document does not depend on the world *)

Lemma oblivious_ret {A} (a : A) : oblivious (ret a).
Proof. intros env w w'. reflexivity. Qed.

Lemma oblivious_raise {A} (e : Exception) : oblivious (@raise A e).
Proof. intros env w w'. reflexivity. Qed.

Lemma oblivious_exists p : oblivious (exists_ p).
Proof. intros env w w'. reflexivity. Qed.

Lemma oblivious_remote {A} c (answer : Exception + A) : oblivious (remote c answer).
Proof. intros env w w'. reflexivity. Qed.

Lemma oblivious_write_text p s : oblivious (write_text p s).
Proof. intros env w w'. unfold write_text. destruct (write_error env p); reflexivity. Qed.

Lemma oblivious_bind {A B} (m : M A) (k : A -> M B) :
  oblivious m -> (forall a, oblivious (k a)) -> oblivious (bind m k).
Proof.
  intros Hm Hk env w w'. unfold bind. specialize (Hm env w w').
  destruct (m env w) as [o w1], (m env w') as [o' w1']. simpl in Hm. subst o'.
  destruct o as [a|e]; [apply Hk | reflexivity].
Qed.

Ltac oblivious_step :=
  first
    [ apply oblivious_bind; [|intros ?]
    | apply oblivious_ret | apply oblivious_raise | apply oblivious_exists
    | apply oblivious_remote | apply oblivious_write_text
    | match goal with
      | |- oblivious (if ?b then _ else _) => destruct b
      | |- oblivious (match ?l with [] => _ | _ :: _ => _ end) => destruct l
      end ].

Lemma oblivious_save_markdown self d dir : oblivious (pdf_parser.save_markdown self d dir).
Proof.
  intros env w w'. unfold pdf_parser.save_markdown, bind, write_text, ret. cbv zeta.
  destruct (write_error env _); reflexivity.
Qed.

Lemma oblivious_save_natural_language self d dir f :
  oblivious (nlp_processor.save_natural_language self d dir f).
Proof.
  intros env w w'. unfold nlp_processor.save_natural_language, bind, write_text, ret.
  cbv zeta. destruct (write_error env _); reflexivity.
Qed.

Lemma oblivious_process_markdown self text sel custom max :
  oblivious (nlp_processor.process_markdown self text sel custom max).
Proof. unfold nlp_processor.process_markdown. repeat oblivious_step. Qed.

Lemma oblivious_parse_single_pdf self p : oblivious (pdf_parser.parse_single_pdf self p).
Proof. unfold pdf_parser.parse_single_pdf. repeat oblivious_step. Qed.

Lemma process_single_pdf_steps self p sel sm snl :
  main.process_single_pdf self p sel sm snl =
  (parsed_data <-- pdf_parser.parse_single_pdf (main.pdf_parser self) p;
   after_parse self p sel sm snl parsed_data).
Proof. reflexivity. Qed.

Lemma process_single_pdf_async_steps self p sel sm snl :
  main.process_single_pdf_async self p sel sm snl =
  (parsed_data <-- await (pdf_parser.parse_single_pdf_async (main.pdf_parser self) p);
   after_parse self p sel sm snl parsed_data).
Proof. reflexivity. Qed.

Lemma oblivious_after_parse self p sel sm snl parsed_data :
  oblivious (after_parse self p sel sm snl parsed_data).
Proof.
  unfold after_parse.
  repeat first
    [ apply oblivious_save_markdown | apply oblivious_save_natural_language
    | apply oblivious_process_markdown | oblivious_step ].
Qed.

Lemma oblivious_process_single_pdf self p sel sm snl :
  oblivious (main.process_single_pdf self p sel sm snl).
Proof.
  rewrite process_single_pdf_steps.
  apply oblivious_bind; [apply oblivious_parse_single_pdf|].
  intros parsed_data. apply oblivious_after_parse.
Qed.

Lemma oblivious_coroutine_raise {A} (e : Exception) : oblivious_coroutine (@raise (M A) e).
Proof. split; [apply oblivious_raise | discriminate]. Qed.

Lemma oblivious_coroutine_await_remote {A} c (answer : Exception + A) :
  oblivious_coroutine (await_remote c answer).
Proof.
  split; [intros env w w'; reflexivity|].
  intros env w resume H. injection H as <-. intros env1 w1 w1'. reflexivity.
Qed.

Lemma oblivious_coroutine_bind {X A} (m : M X) (k : X -> Coroutine A) :
  oblivious m -> (forall x, oblivious_coroutine (k x)) -> oblivious_coroutine (bind m k).
Proof.
  intros Hm Hk. split.
  - apply oblivious_bind; [exact Hm | intros x; apply Hk].
  - intros env w resume. unfold bind. destruct (m env w) as [[x|e] w1]; [|discriminate].
    apply Hk.
Qed.

Lemma oblivious_coroutine_await {A B} (c : Coroutine A) (k : A -> M B) :
  oblivious_coroutine c -> (forall a, oblivious (k a)) ->
  oblivious_coroutine (x <-- await c; k x).
Proof.
  intros [Hc Hr] Hk. split.
  - apply oblivious_bind; [exact Hc | intros r; apply oblivious_ret].
  - intros env w resume. unfold bind at 1. specialize (Hr env w).
    destruct (c env w) as [[r|e] w1]; [|discriminate].
    intros H. injection H as <-. apply oblivious_bind; [apply Hr; reflexivity | exact Hk].
Qed.

Lemma oblivious_parse_single_pdf_async self p :
  oblivious_coroutine (pdf_parser.parse_single_pdf_async self p).
Proof.
  unfold pdf_parser.parse_single_pdf_async.
  apply oblivious_coroutine_bind; [apply oblivious_exists|].
  intros found. destruct (negb found); [apply oblivious_coroutine_raise|].
  apply oblivious_coroutine_await; [apply oblivious_coroutine_await_remote|].
  intros result. apply oblivious_ret.
Qed.

Lemma oblivious_process_single_pdf_async self p sel sm snl :
  oblivious_coroutine (main.process_single_pdf_async self p sel sm snl).
Proof.
  rewrite process_single_pdf_async_steps.
  apply oblivious_coroutine_await; [apply oblivious_parse_single_pdf_async|].
  intros parsed_data. apply oblivious_after_parse.
Qed.

(** ** [asyncio.gather] *)

Lemma outcome_alone_started {A} (c : Coroutine A) env w resume :
  oblivious_coroutine c -> fst (c env empty_world) = Ok resume ->
  outcome_alone c env = fst (resume env w).
Proof.
  intros [_ Hr] H. unfold outcome_alone, run_until_complete, bind.
  specialize (Hr env empty_world resume H).
  destruct (c env empty_world) as [o w1]. simpl in H. subst o. apply Hr.
Qed.

Lemma outcome_alone_raised {A} (c : Coroutine A) env e :
  fst (c env empty_world) = Raise e -> outcome_alone c env = Raise e.
Proof.
  intros H. unfold outcome_alone, run_until_complete, bind.
  destruct (c env empty_world) as [o w1]. simpl in H. subst o. reflexivity.
Qed.

Lemma start_all_agrees {A} (tasks : list (Coroutine A)) env w :
  Forall oblivious_coroutine tasks ->
  Forall2 (state_agrees env) tasks (fst (asyncio.start_all tasks env w)).
Proof.
  intros Hobl. revert w. induction Hobl as [|c tasks Hc _ IH]; intros w; simpl.
  - constructor.
  - destruct (c env w) as [o w1] eqn:Ec.
    specialize (IH w1). destruct (asyncio.start_all tasks env w1) as [sts w2].
    simpl in *. constructor; [|exact IH].
    assert (Ho : fst (c env empty_world) = o).
    { destruct Hc as [Hc _]. rewrite (Hc env empty_world w), Ec. reflexivity. }
    destruct o as [resume|e]; simpl.
    + exact Ho.
    + apply outcome_alone_raised. exact Ho.
Qed.

Lemma complete_length {A} i env (sw : list (TaskState A) * World) :
  length (fst (asyncio.complete i env sw)) = length (fst sw).
Proof.
  destruct sw as [sts w]. unfold asyncio.complete.
  destruct (sts !! i) as [[resume|o]|]; [|reflexivity|reflexivity].
  destruct (resume env w). simpl. apply length_insert.
Qed.

Lemma complete_agrees {A} (tasks : list (Coroutine A)) i env sw :
  Forall oblivious_coroutine tasks ->
  Forall2 (state_agrees env) tasks (fst sw) ->
  Forall2 (state_agrees env) tasks (fst (asyncio.complete i env sw)).
Proof.
  intros Hobl Hagree. destruct sw as [sts w]. unfold asyncio.complete. simpl in Hagree.
  destruct (sts !! i) as [[resume|o]|] eqn:Ei; [|exact Hagree|exact Hagree].
  destruct (resume env w) as [o w'] eqn:Er. simpl.
  destruct (Forall2_lookup_r _ _ _ _ _ Hagree Ei) as (c & Hc & Hst).
  rewrite <- (list_insert_id tasks i c Hc).
  apply Forall2_insert; [exact Hagree|].
  simpl in *. rewrite (outcome_alone_started c env w resume), Er; auto.
  rewrite Forall_forall in Hobl. apply Hobl.
  eapply list_elem_of_lookup_2. exact Hc.
Qed.

Lemma complete_keeps_finished {A} i j env (sw : list (TaskState A) * World) :
  finished_at (fst sw) j -> finished_at (fst (asyncio.complete i env sw)) j.
Proof.
  destruct sw as [sts w]. intros (st & Hj & Hf). unfold asyncio.complete. simpl in Hj.
  destruct (sts !! i) as [[resume|o]|] eqn:Ei; [|exists st; auto|exists st; auto].
  destruct (resume env w) as [o w']. simpl.
  destruct (decide (i = j)) as [->|Hne].
  - rewrite Hj in Ei. injection Ei as ->. destruct Hf.
  - exists st. split; [|exact Hf]. rewrite list_lookup_insert_ne; auto.
Qed.

Lemma complete_finishes {A} i env (sw : list (TaskState A) * World) :
  i < length (fst sw) -> finished_at (fst (asyncio.complete i env sw)) i.
Proof.
  destruct sw as [sts w]. simpl. intros Hlt. unfold asyncio.complete.
  destruct (lookup_lt_is_Some_2 sts i Hlt) as [st Hst]. rewrite Hst.
  destruct st as [resume|o].
  - destruct (resume env w) as [o w']. exists (Finished o). simpl.
    split; [apply list_lookup_insert_eq; exact Hlt | exact I].
  - exists (Finished o). simpl. auto.
Qed.

Lemma complete_all_length {A} order env (sw : list (TaskState A) * World) :
  length (fst (asyncio.complete_all order env sw)) = length (fst sw).
Proof.
  unfold asyncio.complete_all. revert sw. induction order as [|i order IH]; intros sw; simpl.
  - reflexivity.
  - rewrite IH. apply complete_length.
Qed.

Lemma complete_all_agrees {A} (tasks : list (Coroutine A)) order env sw :
  Forall oblivious_coroutine tasks ->
  Forall2 (state_agrees env) tasks (fst sw) ->
  Forall2 (state_agrees env) tasks (fst (asyncio.complete_all order env sw)).
Proof.
  intros Hobl. unfold asyncio.complete_all. revert sw.
  induction order as [|i order IH]; intros sw H; simpl; [exact H|].
  apply IH. apply complete_agrees; assumption.
Qed.

Lemma complete_all_keeps_finished {A} order j env (sw : list (TaskState A) * World) :
  finished_at (fst sw) j -> finished_at (fst (asyncio.complete_all order env sw)) j.
Proof.
  unfold asyncio.complete_all. revert sw.
  induction order as [|i order IH]; intros sw H; simpl; [exact H|].
  apply IH. apply complete_keeps_finished. exact H.
Qed.

Lemma complete_all_finishes {A} order j env (sw : list (TaskState A) * World) :
  In j order -> j < length (fst sw) ->
  finished_at (fst (asyncio.complete_all order env sw)) j.
Proof.
  revert sw. induction order as [|i order IH]; intros sw Hin Hlt; [destruct Hin|].
  destruct Hin as [->|Hin].
  - apply (complete_all_keeps_finished order j env (asyncio.complete j env sw)).
    apply complete_finishes. exact Hlt.
  - apply (IH (asyncio.complete i env sw) Hin). rewrite complete_length. exact Hlt.
Qed.

Lemma finished_outcomes {A} (tasks : list (Coroutine A)) env sts :
  Forall2 (state_agrees env) tasks sts ->
  (forall j, j < length sts -> finished_at sts j) ->
  omap asyncio.outcome_of sts = map (fun c => outcome_alone c env) tasks.
Proof.
  induction 1 as [|c st tasks sts Hst _ IH]; intros Hfin; [reflexivity|].
  destruct (Hfin 0) as (st0 & H0 & Hf0); [simpl; lia|].
  injection H0 as <-. destruct st as [resume|o]; [destruct Hf0|].
  simpl in *. rewrite Hst. f_equal. apply IH.
  intros j Hj. destruct (Hfin (S j)) as (stj & Hsj & Hfj); [lia|]. exists stj. auto.
Qed.

(** Whatever the order of arrival, [gather] returns, position by position,
    the outcome each coroutine has when run alone. *)
Lemma gather_outcomes {A} order (tasks : list (Coroutine A)) env w :
  Forall oblivious_coroutine tasks ->
  fst (asyncio.gather order tasks env w) =
  Ok (map (fun c => outcome_alone c env) tasks).
Proof.
  intros Hobl. unfold asyncio.gather.
  pose proof (start_all_agrees tasks env w Hobl) as Hstart.
  set (started := asyncio.start_all tasks env w) in *.
  assert (Hlen0 : length (fst started) = length tasks)
    by (symmetry; eapply Forall2_length; exact Hstart).
  pose proof (complete_all_agrees tasks (order ++ seq 0 (length tasks)) env started
                Hobl Hstart) as Hagree.
  pose proof (complete_all_length (order ++ seq 0 (length tasks)) env started) as Hlen.
  assert (Hfin : forall j, j < length tasks ->
            finished_at (fst (asyncio.complete_all (order ++ seq 0 (length tasks)) env started)) j).
  { intros j Hj. apply complete_all_finishes; [|lia].
    apply in_or_app. right. apply in_seq. lia. }
  destruct (asyncio.complete_all (order ++ seq 0 (length tasks)) env started) as [sts w'].
  simpl in *. f_equal. apply finished_outcomes; [exact Hagree|].
  intros j Hj. apply Hfin. lia.
Qed.

(** ** The two batch paths *)

Lemma bind_ok_inv {A B} (m : M A) (k : A -> M B) env w b w' :
  bind m k env w = (Ok b, w') ->
  exists a w1, m env w = (Ok a, w1) /\ k a env w1 = (Ok b, w').
Proof.
  unfold bind. destruct (m env w) as [[a|e] w1]; [|discriminate].
  intros H. exists a, w1. auto.
Qed.

Lemma after_parse_pdf_file self p sel sm snl d env w r w' :
  after_parse self p sel sm snl d env w = (Ok r, w') ->
  PipelineResult.pdf_file r = pathlib.name p.
Proof.
  unfold after_parse. intros H.
  apply bind_ok_inv in H as (markdown_path & w1 & _ & H).
  apply bind_ok_inv in H as (nl_result & w2 & _ & H).
  apply bind_ok_inv in H as (nl_path & w3 & _ & H).
  injection H as <- _. reflexivity.
Qed.

Lemma process_single_pdf_pdf_file self p sel sm snl env w r w' :
  main.process_single_pdf self p sel sm snl env w = (Ok r, w') ->
  PipelineResult.pdf_file r = pathlib.name p.
Proof.
  rewrite process_single_pdf_steps. intros H.
  apply bind_ok_inv in H as (d & w1 & _ & H).
  eapply after_parse_pdf_file. exact H.
Qed.

Lemma process_single_pdf_async_pdf_file self p sel sm snl env w r w' :
  run_until_complete (main.process_single_pdf_async self p sel sm snl) env w = (Ok r, w') ->
  PipelineResult.pdf_file r = pathlib.name p.
Proof.
  rewrite process_single_pdf_async_steps. unfold run_until_complete. intros H.
  apply bind_ok_inv in H as (resume & w1 & Hstart & H).
  apply bind_ok_inv in Hstart as (resume0 & w2 & _ & Hret).
  injection Hret as <- _.
  apply bind_ok_inv in H as (d & w3 & _ & H).
  eapply after_parse_pdf_file. exact H.
Qed.

Lemma oblivious_run_until_complete {A} (c : Coroutine A) :
  oblivious_coroutine c -> oblivious (run_until_complete c).
Proof.
  intros [Hc Hr] env w w'. unfold run_until_complete, bind.
  specialize (Hc env w w'). specialize (Hr env w).
  destruct (c env w) as [o w1], (c env w') as [o' w1']. simpl in *. subst o'.
  destruct o as [resume|e]; [|reflexivity]. apply Hr. reflexivity.
Qed.

Lemma process_multiple_pdfs_records self ps sel sm snl env w :
  fst (main.process_multiple_pdfs self ps sel sm snl env w) =
  Ok (map (fun p => batch_record p
                      (fst (main.process_single_pdf self p sel sm snl env empty_world))) ps).
Proof.
  revert w. induction ps as [|p ps IH]; intros w; [reflexivity|].
  cbn [main.process_multiple_pdfs map]. unfold bind at 1. unfold main.try_process.
  rewrite <- (oblivious_process_single_pdf self p sel sm snl env w empty_world).
  destruct (main.process_single_pdf self p sel sm snl env w) as [o w1].
  assert (Hrest : forall r,
            fst (bind (main.process_multiple_pdfs self ps sel sm snl)
                   (fun results => ret (r :: results)) env w1) =
            Ok (r :: map (fun p => batch_record p
                      (fst (main.process_single_pdf self p sel sm snl env empty_world))) ps)).
  { intros r. unfold bind. specialize (IH w1).
    destruct (main.process_multiple_pdfs self ps sel sm snl env w1) as [o' w2].
    simpl in IH. subst o'. reflexivity. }
  destruct o as [r|e]; simpl; apply Hrest.
Qed.

Lemma zip_with_outcomes {A B C} (f : A * B -> C) (g : A -> B) (l : list A) :
  map f (zip l (map g l)) = map (fun a => f (a, g a)) l.
Proof. induction l as [|a l IH]; simpl; [reflexivity | rewrite IH; reflexivity]. Qed.

Lemma process_multiple_pdfs_async_records order self ps sel sm snl env w :
  fst (main.process_multiple_pdfs_async order self ps sel sm snl env w) =
  Ok (map (fun p => batch_record p
                      (outcome_alone (main.process_single_pdf_async self p sel sm snl) env))
        ps).
Proof.
  unfold main.process_multiple_pdfs_async, bind.
  pose proof (gather_outcomes order
                (map (fun pdf_path => main.process_single_pdf_async self pdf_path sel sm snl) ps)
                env w) as Hg.
  destruct (asyncio.gather order _ env w) as [o w1].
  simpl in Hg. rewrite Hg.
  - unfold ret. simpl. f_equal. rewrite map_map.
    apply (zip_with_outcomes
             (fun '(pdf_path, result) => batch_record pdf_path result)
             (fun p => outcome_alone (main.process_single_pdf_async self p sel sm snl) env)).
  - apply Forall_forall. intros c Hc. apply list_elem_of_In, in_map_iff in Hc.
    destruct Hc as (p & <- & _). apply oblivious_process_single_pdf_async.
Qed.

Lemma records_lookup {A} (f : Path -> A) (ps : list Path) i p :
  ps !! i = Some p -> map f ps !! i = Some (f p).
Proof.
  revert i. induction ps as [|q ps IH]; intros [|i] H; try discriminate.
  - injection H as ->. reflexivity.
  - apply IH. exact H.
Qed.

Lemma batch_record_pdf_file p o :
  (forall r, o = Ok r -> PipelineResult.pdf_file r = pathlib.name p) ->
  record_pdf_file (batch_record p o) = pathlib.name p.
Proof. destruct o as [r|e]; simpl; intros H; [apply H|]; reflexivity. Qed.

(** C2. Either batch path returns a list as long as the input list, whose
    entry at each position carries the file name of the path at that
    position; in the concurrent path this holds for every order in which the
    answers arrive, and the list returned is the same for all of them. *)
Theorem batch_results_are_paired_by_position order self ps sel sm snl env w :
  (exists rs,
     fst (main.process_multiple_pdfs self ps sel sm snl env w) = Ok rs /\
     length rs = length ps /\
     forall i p, ps !! i = Some p ->
       exists r, rs !! i = Some r /\ record_pdf_file r = pathlib.name p) /\
  (exists rs,
     fst (main.process_multiple_pdfs_async order self ps sel sm snl env w) = Ok rs /\
     length rs = length ps /\
     (forall i p, ps !! i = Some p ->
        exists r, rs !! i = Some r /\ record_pdf_file r = pathlib.name p) /\
     forall order',
       fst (main.process_multiple_pdfs_async order' self ps sel sm snl env w) = Ok rs).
Proof.
  split; eexists.
  - split; [apply process_multiple_pdfs_records|].
    split; [apply length_map|].
    intros i p Hp. eexists. split; [apply records_lookup; exact Hp|].
    apply batch_record_pdf_file. intros r Hr.
    destruct (main.process_single_pdf self p sel sm snl env empty_world) as [o w1] eqn:E.
    simpl in Hr. subst o. eapply process_single_pdf_pdf_file. exact E.
  - split; [apply process_multiple_pdfs_async_records|].
    split; [apply length_map|].
    split; [|intros order'; apply process_multiple_pdfs_async_records].
    intros i p Hp. eexists. split; [apply records_lookup; exact Hp|].
    apply batch_record_pdf_file. intros r Hr. unfold outcome_alone in Hr.
    destruct (run_until_complete (main.process_single_pdf_async self p sel sm snl)
                env empty_world) as [o w1] eqn:E.
    simpl in Hr. subst o. eapply process_single_pdf_async_pdf_file. exact E.
Qed.

(** C1. Either batch path returns its result list, it never raises; the entry
    of a document whose processing raises is the failure record with the
    document's file name and the text of the exception, and the entry of
    every document whose processing returns is that document's result,
    whatever happens to the other documents of the batch. *)
Theorem one_failing_document_does_not_stop_the_batch order self ps sel sm snl env w :
  (exists rs w',
     main.process_multiple_pdfs self ps sel sm snl env w = (Ok rs, w') /\
     forall i p, ps !! i = Some p ->
       (forall w0 w0' e,
          main.process_single_pdf self p sel sm snl env w0 = (Raise e, w0') ->
          rs !! i = Some (Failed (pathlib.name p) (str_exc e))) /\
       (forall w0 w0' r,
          main.process_single_pdf self p sel sm snl env w0 = (Ok r, w0') ->
          rs !! i = Some (Succeeded r))) /\
  (exists rs w',
     main.process_multiple_pdfs_async order self ps sel sm snl env w = (Ok rs, w') /\
     forall i p, ps !! i = Some p ->
       (forall w0 w0' e,
          run_until_complete (main.process_single_pdf_async self p sel sm snl) env w0 =
            (Raise e, w0') ->
          rs !! i = Some (Failed (pathlib.name p) (str_exc e))) /\
       (forall w0 w0' r,
          run_until_complete (main.process_single_pdf_async self p sel sm snl) env w0 =
            (Ok r, w0') ->
          rs !! i = Some (Succeeded r))).
Proof.
  split.
  - pose proof (process_multiple_pdfs_records self ps sel sm snl env w) as H.
    destruct (main.process_multiple_pdfs self ps sel sm snl env w) as [o w'].
    simpl in H. subst o. eexists. exists w'. split; [reflexivity|].
    intros i p Hp.
    split; intros w0 w0' x Hx; rewrite (records_lookup _ ps i p Hp);
      rewrite (oblivious_process_single_pdf self p sel sm snl env empty_world w0), Hx;
      reflexivity.
  - pose proof (process_multiple_pdfs_async_records order self ps sel sm snl env w) as H.
    destruct (main.process_multiple_pdfs_async order self ps sel sm snl env w) as [o w'].
    simpl in H. subst o. eexists. exists w'. split; [reflexivity|].
    intros i p Hp.
    split; intros w0 w0' x Hx; rewrite (records_lookup _ ps i p Hp);
      unfold outcome_alone;
      rewrite (oblivious_run_until_complete _
                 (oblivious_process_single_pdf_async self p sel sm snl) env empty_world w0),
        Hx; reflexivity.
Qed.

Lemma one_failing_document_does_not_stop_the_batch_witness :
  exists rs w',
    main.process_multiple_pdfs sample.pipeline sample.batch None true true
      sample.env empty_world = (Ok rs, w') /\
    rs !! 1 = Some (Failed "broken.pdf" "parse failed") /\
    rs !! 2 =
      Some (Succeeded
              {| PipelineResult.pdf_file := "c.pdf";
                 PipelineResult.markdown := "page one" +:+ nl +:+ nl +:+ "page two";
                 PipelineResult.markdown_path :=
                   Some ["/"; "srv"; "app"; "output"; "markdown"; "c.md"];
                 PipelineResult.natural_language := "prose";
                 PipelineResult.natural_language_path :=
                   Some ["/"; "srv"; "app"; "output"; "natural_language"; "c_nl.txt"];
                 PipelineResult.page_count := 2;
                 PipelineResult.model := config.CLAUDE_MODEL;
                 PipelineResult.input_tokens := 11;
                 PipelineResult.output_tokens := 22 |}).
Proof.
  destruct (proj1 (one_failing_document_does_not_stop_the_batch [] sample.pipeline
                     sample.batch None true true sample.env empty_world))
    as (rs & w' & Hrs & H).
  exists rs, w'. split; [exact Hrs|]. split.
  - apply (proj1 (H 1 ["data"; "broken.pdf"] eq_refl) empty_world
             (log_call (ParseCall "data/broken.pdf") empty_world)
             (OtherError "RuntimeError" "parse failed")).
    reflexivity.
  - eapply (proj2 (H 2 ["data"; "c.pdf"] eq_refl) empty_world).
    vm_compute. reflexivity.
Defined.

Lemma batch_results_are_paired_by_position_witness :
  exists rs,
    fst (main.process_multiple_pdfs_async [2; 0; 1] sample.pipeline sample.batch None
           true true sample.env empty_world) = Ok rs /\
    length rs = 3 /\
    map record_pdf_file rs = ["a.pdf"; "broken.pdf"; "c.pdf"].
Proof.
  destruct (proj2 (batch_results_are_paired_by_position [2; 0; 1] sample.pipeline
                     sample.batch None true true sample.env empty_world))
    as (rs & Hrs & Hlen & Hpos & _).
  exists rs. split; [exact Hrs|]. split; [exact Hlen|].
  destruct (Hpos 0 _ eq_refl) as (r0 & H0 & E0).
  destruct (Hpos 1 _ eq_refl) as (r1 & H1 & E1).
  destruct (Hpos 2 _ eq_refl) as (r2 & H2 & E2).
  destruct rs as [|x0 [|x1 [|x2 [|x3 rs]]]]; try discriminate Hlen.
  injection H0 as ->. injection H1 as ->. injection H2 as ->.
  simpl. rewrite E0, E1, E2. reflexivity.
Defined.

(** * Further properties *)

(** ** Formatting of the templates *)

(** X1. Formatting the text of either built-in template with any document
    succeeds and gives the text before the field, the document as it is, and
    the text after the field: braces and replacement fields inside the
    document are not read. *)
Theorem builtin_templates_insert_the_document_verbatim (markdown_content : string) :
  strformat.format (template_text prompts.STRUCTURED_DATA_EXTRACTION_PROMPT)
    [("markdown_content", markdown_content)] =
    Some (prompts.format prompts.STRUCTURED_DATA_EXTRACTION_PROMPT markdown_content) /\
  strformat.format (template_text prompts.GENERAL_EXTRACTION_PROMPT)
    [("markdown_content", markdown_content)] =
    Some (prompts.format prompts.GENERAL_EXTRACTION_PROMPT markdown_content).
Proof. split; vm_compute; reflexivity. Qed.

(** X2. [create_custom_prompt] never fails and returns the fixed text with
    the task description, the requirements and the document inserted as they
    are, in this order, each once; what they contain is not formatted
    again. *)
Theorem custom_prompt_inserts_its_three_arguments_verbatim
    (markdown_content task_description requirements : string) :
  custom.create_custom_prompt markdown_content task_description requirements =
  Some ("あなたは構造化データを自然言語に変換する専門家です。" +:+ nl +:+ nl +:+
        "## タスク" +:+ nl +:+ task_description +:+ nl +:+ nl +:+
        "## 要件" +:+ nl +:+ requirements +:+ nl +:+ nl +:+
        "## 入力データ" +:+ nl +:+ markdown_content +:+ nl +:+ nl +:+
        "## 出力" +:+ nl +:+ "上記の要件に従って処理してください。").
Proof. vm_compute. reflexivity. Qed.

(** ** [process_markdown] *)

(** X3. With a non-empty custom prompt, the request sent to the model holds
    that prompt and nothing of the document or of the selector: the call
    behaves the same for every document and selector, and a result is tagged
    ["custom"]. *)
Theorem custom_prompt_replaces_document_and_selector self custom max env w :
  custom <> "" ->
  (forall text sel text' sel',
     nlp_processor.process_markdown self text sel (Some custom) max env w =
     nlp_processor.process_markdown self text' sel' (Some custom) max env w) /\
  (forall text sel,
     snd (nlp_processor.process_markdown self text sel (Some custom) max env w) =
     log_call (MessagesCreateCall (nlp_processor.model self)
                 (if truthy_int max then default 0%Z max else config.CLAUDE_MAX_TOKENS)
                 custom) w) /\
  (forall text sel r w',
     nlp_processor.process_markdown self text sel (Some custom) max env w = (Ok r, w') ->
     NLResult.prompt_type r = "custom").
Proof.
  intros Hc. apply String.eqb_neq in Hc.
  unfold nlp_processor.process_markdown, bind, remote, raise, ret, truthy_str.
  simpl. rewrite Hc. simpl. repeat split.
  - intros text sel.
    destruct (messages_create (nlp_processor.client self) _ _ custom) as [e|msg];
      simpl; [reflexivity|].
    destruct (content msg); reflexivity.
  - intros text sel r w'.
    destruct (messages_create (nlp_processor.client self) _ _ custom) as [e|msg];
      simpl; [discriminate|].
    destruct (content msg); [discriminate|].
    intros H. injection H as <- _. reflexivity.
Qed.

Lemma custom_prompt_replaces_document_and_selector_witness :
  nlp_processor.process_markdown sample.nlp "| a |" (Some true) (Some "Summarise.") None
    sample.env empty_world =
  nlp_processor.process_markdown sample.nlp "prose" None (Some "Summarise.") None
    sample.env empty_world.
Proof.
  apply (proj1 (custom_prompt_replaces_document_and_selector sample.nlp "Summarise." None
                  sample.env empty_world ltac:(discriminate))).
Defined.

(** X4. An empty custom prompt and a token ceiling of zero count as absent:
    the call is the one made with neither. *)
Theorem empty_prompt_and_zero_ceiling_count_as_absent self text sel env w :
  nlp_processor.process_markdown self text sel (Some "") (Some 0%Z) env w =
  nlp_processor.process_markdown self text sel None None env w /\
  snd (nlp_processor.process_markdown self text sel (Some "") (Some 0%Z) env w) =
  log_call (MessagesCreateCall (nlp_processor.model self) config.CLAUDE_MAX_TOKENS
              (prompts.get_prompt_for_data text sel)) w.
Proof.
  split; [reflexivity|].
  unfold nlp_processor.process_markdown, bind, remote, raise, ret. simpl.
  destruct (messages_create (nlp_processor.client self) _ _ _) as [e|msg];
    simpl; [reflexivity|].
  destruct (content msg); reflexivity.
Qed.

(** X5. When the backend raises, [process_markdown] raises the same exception;
    when the answer holds no content block, it raises [IndexError].  In both
    cases the request has been sent once and no file is written. *)
Theorem process_markdown_failures self text sel custom max env w :
  let request :=
    MessagesCreateCall (nlp_processor.model self)
      (if truthy_int max then default 0%Z max else config.CLAUDE_MAX_TOKENS)
      (if truthy_str custom then default "" custom
       else prompts.get_prompt_for_data text sel) in
  (forall e,
     messages_create (nlp_processor.client self) (nlp_processor.model self)
       (if truthy_int max then default 0%Z max else config.CLAUDE_MAX_TOKENS)
       (if truthy_str custom then default "" custom
        else prompts.get_prompt_for_data text sel) = inl e ->
     nlp_processor.process_markdown self text sel custom max env w =
     (Raise e, log_call request w)) /\
  (forall msg,
     messages_create (nlp_processor.client self) (nlp_processor.model self)
       (if truthy_int max then default 0%Z max else config.CLAUDE_MAX_TOKENS)
       (if truthy_str custom then default "" custom
        else prompts.get_prompt_for_data text sel) = inr msg ->
     content msg = [] ->
     nlp_processor.process_markdown self text sel custom max env w =
     (Raise (IndexError "list index out of range"), log_call request w)).
Proof.
  intros request. subst request.
  unfold nlp_processor.process_markdown, bind, remote, raise, ret.
  split.
  - intros e He. rewrite He. reflexivity.
  - intros msg Hm Hc. rewrite Hm. simpl. rewrite Hc. reflexivity.
Qed.

Lemma process_markdown_failures_witness :
  nlp_processor.process_markdown
    {| nlp_processor.client :=
         {| messages_create := fun _ _ _ =>
              inr {| content := []; usage_input_tokens := 5; usage_output_tokens := 0 |} |};
       nlp_processor.model := "m" |}
    "prose" None None None sample.env empty_world =
  (Raise (IndexError "list index out of range"),
   log_call (MessagesCreateCall "m" config.CLAUDE_MAX_TOKENS
               (prompts.get_prompt_for_data "prose" None)) empty_world).
Proof.
  refine (proj2 (process_markdown_failures _ "prose" None None None sample.env empty_world)
            {| content := []; usage_input_tokens := 5; usage_output_tokens := 0 |} _ _);
    reflexivity.
Defined.

(** ** The parse methods *)

(** X6. [parse_single_pdf] and its awaitable twin raise the not-found error
    naming the path, without any remote call, when the path does not exist;
    when the backend raises they raise the same exception, after exactly one
    remote call. *)
Theorem single_parse_failures self p env w :
  (path_exists env p = false ->
   pdf_parser.parse_single_pdf self p env w =
     (Raise (FileNotFoundError ("PDF file not found: " +:+ pathlib.str p)), w) /\
   run_until_complete (pdf_parser.parse_single_pdf_async self p) env w =
     (Raise (FileNotFoundError ("PDF file not found: " +:+ pathlib.str p)), w)) /\
  (forall e,
     path_exists env p = true ->
     parse (pdf_parser.parser self) (pathlib.str p) = inl e ->
     pdf_parser.parse_single_pdf self p env w =
       (Raise e, log_call (ParseCall (pathlib.str p)) w)) /\
  (forall e,
     path_exists env p = true ->
     aparse (pdf_parser.parser self) (pathlib.str p) = inl e ->
     run_until_complete (pdf_parser.parse_single_pdf_async self p) env w =
       (Raise e, log_call (AParseCall (pathlib.str p)) w)).
Proof.
  unfold run_until_complete, pdf_parser.parse_single_pdf, pdf_parser.parse_single_pdf_async,
    bind, exists_, remote, await_remote, raise, ret.
  split; [|split].
  - intros Hno. rewrite Hno. split; reflexivity.
  - intros e Hex He. rewrite Hex. simpl. rewrite He. reflexivity.
  - intros e Hex He. rewrite Hex. simpl. rewrite He. reflexivity.
Qed.

Lemma single_parse_failures_witness :
  pdf_parser.parse_single_pdf sample.parser ["data"; "missing.pdf"] sample.env empty_world =
    (Raise (FileNotFoundError "PDF file not found: data/missing.pdf"), empty_world) /\
  pdf_parser.parse_single_pdf sample.parser ["data"; "broken.pdf"] sample.env empty_world =
    (Raise (OtherError "RuntimeError" "parse failed"),
     log_call (ParseCall "data/broken.pdf") empty_world).
Proof.
  split.
  - apply (proj1 (single_parse_failures sample.parser ["data"; "missing.pdf"]
                    sample.env empty_world)). reflexivity.
  - apply (proj1 (proj2 (single_parse_failures sample.parser ["data"; "broken.pdf"]
                           sample.env empty_world))); reflexivity.
Defined.

(** X7. When every path exists and the backend answers the batch,
    [parse_multiple_pdfs] makes one remote call for the whole batch and pairs
    paths and jobs by position; if the backend returns fewer (or more) jobs
    than there are paths, the list returned is cut to the shorter of the two,
    without an error. *)
Theorem batch_parse_pairs_by_position_and_truncates self ps jobs env w :
  Forall (fun p => path_exists env p = true) ps ->
  parse_batch (pdf_parser.parser self) (map pathlib.str ps) = inr jobs ->
  exists ds,
    pdf_parser.parse_multiple_pdfs self ps env w =
      (Ok ds, log_call (ParseBatchCall (map pathlib.str ps)) w) /\
    length ds = Nat.min (length ps) (length jobs) /\
    forall i, ds !! i =
      match ps !! i, jobs !! i with
      | Some p, Some job => Some (normalized (pathlib.name p) job)
      | _, _ => None
      end.
Proof.
  intros Hex Hjobs. eexists. split; [|split].
  - unfold pdf_parser.parse_multiple_pdfs, bind.
    rewrite (verify_all_exist_ok _ _ _ Hex). unfold remote. rewrite Hjobs. reflexivity.
  - apply zipped_records_length.
  - apply zipped_records_lookup.
Qed.

Lemma batch_parse_pairs_by_position_and_truncates_witness :
  exists ds,
    pdf_parser.parse_multiple_pdfs
      {| pdf_parser.parser :=
           {| parse := sample.answer;
              parse_batch := fun _ => inr [sample.job];
              aparse := sample.answer;
              aparse_batch := fun _ => inr [sample.job] |} |}
      [["a.pdf"]; ["b.pdf"]] sample.env empty_world =
      (Ok ds, log_call (ParseBatchCall ["a.pdf"; "b.pdf"]) empty_world) /\
    length ds = 1 /\
    forall i, ds !! i =
      match [["a.pdf"]; ["b.pdf"]] !! i, [sample.job] !! i with
      | Some p, Some job => Some (normalized (pathlib.name p) job)
      | _, _ => None
      end.
Proof.
  apply (batch_parse_pairs_by_position_and_truncates _ [["a.pdf"]; ["b.pdf"]] [sample.job]
           sample.env empty_world).
  - repeat constructor.
  - reflexivity.
Defined.

(** ** The stem of a file name *)

Lemma length_append (a b : string) :
  String.length (a +:+ b) = String.length a + String.length b.
Proof.
  induction a as [|c a IH]; [reflexivity|].
  rewrite append_cons. simpl. rewrite IH. reflexivity.
Qed.

Lemma substring_of_prefix (a b : string) :
  substring 0 (String.length a) (a +:+ b) = a.
Proof.
  induction a as [|c a IH].
  - destruct b; reflexivity.
  - rewrite append_cons. simpl. f_equal. exact IH.
Qed.

Lemma rfind_dot_none (s : string) :
  rfind_dot s = None <-> ~ occurs_in "." s.
Proof.
  rewrite <- contains_false.
  induction s as [|c s IH]; [split; reflexivity|].
  cbn [rfind_dot contains]. rewrite orb_false_iff, <- IH.
  destruct (rfind_dot s) as [i|].
  - split; [discriminate | intros [_ H]; discriminate].
  - destruct (Ascii.eqb_spec c "."%char) as [->|Hne].
    + split; [discriminate|]. intros [H _]. destruct s; vm_compute in H; discriminate.
    + split; [|reflexivity]. intros _. split; [|reflexivity].
      unfold String.prefix. destruct (ascii_dec "." c) as [<-|_]; [|reflexivity].
      contradiction.
Qed.

Lemma rfind_dot_append (a t : string) i :
  rfind_dot t = Some i -> rfind_dot (a +:+ t) = Some (String.length a + i).
Proof.
  intros H. induction a as [|c a IH]; [exact H|].
  rewrite append_cons. cbn [rfind_dot]. rewrite IH. reflexivity.
Qed.

Lemma rfind_dot_extension (ext : string) :
  ~ occurs_in "." ext -> rfind_dot ("." +:+ ext) = Some 0.
Proof.
  intros H. apply rfind_dot_none in H. change ("." +:+ ext) with (String "."%char ext).
  cbn [rfind_dot]. rewrite H. reflexivity.
Qed.

(** The stem of a name is the name without its last extension; a name
    without dot, a name whose only dot is its first character, and a name
    ending in a dot are their own stem. *)
Lemma stem_drops_the_last_extension (s ext : string) :
  ~ occurs_in "." ext ->
  (s <> "" -> ext <> "" -> pathlib.stem_of (s +:+ "." +:+ ext) = s) /\
  pathlib.stem_of ("." +:+ ext) = "." +:+ ext /\
  pathlib.stem_of ext = ext /\
  pathlib.stem_of (s +:+ ".") = s +:+ ".".
Proof.
  intros Hext. unfold pathlib.stem_of. repeat split.
  - intros Hs He.
    rewrite (rfind_dot_append s _ 0 (rfind_dot_extension ext Hext)).
    rewrite Nat.add_0_r, !length_append.
    assert (0 < String.length s) by (destruct s; [contradiction | simpl; lia]).
    assert (0 < String.length ext) by (destruct ext; [contradiction | simpl; lia]).
    destruct (Nat.ltb_spec 0 (String.length s)); [|lia].
    destruct (Nat.ltb_spec (String.length s)
                (String.length s + (String.length "." + String.length ext) - 1));
      [|simpl in *; lia].
    simpl. apply substring_of_prefix.
  - rewrite (rfind_dot_extension ext Hext). reflexivity.
  - apply rfind_dot_none in Hext. rewrite Hext. reflexivity.
  - rewrite (rfind_dot_append s "." 0 eq_refl), Nat.add_0_r, length_append.
    destruct (Nat.ltb_spec (String.length s) (String.length s + String.length "." - 1));
      [simpl in *; lia|].
    rewrite andb_false_r. reflexivity.
Qed.

Lemma no_dot_in_pdf : ~ occurs_in "." "pdf".
Proof. apply contains_false. reflexivity. Qed.

(** *** The final component of a path given as a string *)

Lemma contains_char_app (c : ascii) (a b : string) :
  contains (String c "") (a +:+ b) = contains (String c "") a || contains (String c "") b.
Proof.
  induction a as [|x a IH].
  - destruct b; reflexivity.
  - rewrite append_cons. cbn [contains]. rewrite IH.
    assert (Hp : forall t, String.prefix (String c "") (String x t) =
                           if ascii_dec c x then true else false).
    { intros t. simpl. destruct (ascii_dec c x); [destruct t|]; reflexivity. }
    rewrite !Hp. apply orb_assoc.
Qed.

Lemma no_char_app (c : ascii) (a b : string) :
  ~ occurs_in (String c "") a -> ~ occurs_in (String c "") b ->
  ~ occurs_in (String c "") (a +:+ b).
Proof.
  rewrite <- !contains_false, contains_char_app. intros -> ->. reflexivity.
Qed.

Lemma split_slash_nonempty (s : string) : pathlib.split_slash s <> [].
Proof.
  induction s as [|c s IH]; cbn [pathlib.split_slash]; [discriminate|].
  destruct (Ascii.eqb c "/"); [discriminate|].
  destruct (pathlib.split_slash s); [contradiction | discriminate].
Qed.

Lemma split_slash_no_slash (s : string) :
  ~ occurs_in "/" s -> pathlib.split_slash s = [s].
Proof.
  rewrite <- contains_false. induction s as [|c s IH]; [reflexivity|].
  cbn [contains pathlib.split_slash]. intros H. apply orb_false_iff in H as [Hp Hc].
  destruct (Ascii.eqb_spec c "/") as [->|_].
  - destruct s; discriminate Hp.
  - rewrite (IH Hc). reflexivity.
Qed.

Lemma split_slash_app (a b : string) :
  pathlib.split_slash (a +:+ "/" +:+ b) =
  (pathlib.split_slash a ++ pathlib.split_slash b)%list.
Proof.
  induction a as [|c a IH]; [reflexivity|].
  rewrite append_cons. cbn [pathlib.split_slash]. rewrite IH.
  destruct (Ascii.eqb c "/"); [reflexivity|].
  pose proof (split_slash_nonempty a) as Hne.
  destruct (pathlib.split_slash a); [contradiction | reflexivity].
Qed.

(** A component without slash that is not ["."] is the name of the path it
    makes, alone or after a folder. *)
Lemma name_of_str_component (n : string) :
  ~ occurs_in "/" n -> n <> "." ->
  pathlib.name_of_str n = n /\
  forall folder, n <> "" -> pathlib.name_of_str (folder +:+ "/" +:+ n) = n.
Proof.
  intros Hs Hdot. unfold pathlib.name_of_str. split.
  - rewrite (split_slash_no_slash n Hs). cbn [List.filter].
    destruct (String.eqb_spec n "") as [->|_]; [reflexivity|].
    destruct (String.eqb_spec n "."); [contradiction | reflexivity].
  - intros folder Hne. rewrite split_slash_app, (split_slash_no_slash n Hs), List.filter_app.
    cbn [List.filter].
    destruct (String.eqb_spec n ""); [contradiction|].
    destruct (String.eqb_spec n "."); [contradiction|].
    apply last_last.
Qed.

Lemma no_slash_in_dot : ~ occurs_in "/" ".".
Proof. apply contains_false. reflexivity. Qed.

Lemma extension_is_not_dot (s ext : string) : ext <> "" -> s +:+ "." +:+ ext <> ".".
Proof.
  intros He H. apply (f_equal String.length) in H. rewrite !length_append in H.
  destruct ext; [contradiction | simpl in H; lia].
Qed.

(** X8. [save_markdown] names the file after the stem of the final component
    of the record's file name: for a record named [s.ext], alone or after a
    folder, it writes the Markdown text, as it is, to [s.md] in the output
    directory (the configured one when none is given), and a record named
    [.ext] goes to [.ext.md].  When the file cannot be written the error is
    raised and nothing is recorded. *)
Theorem save_markdown_names_the_file_after_the_stem self d dir env w folder s ext :
  ~ occurs_in "/" s -> ~ occurs_in "/" ext -> ~ occurs_in "." ext -> ext <> "" ->
  (s <> "" ->
   ParsedData.filename d = s +:+ "." +:+ ext \/
   ParsedData.filename d = folder +:+ "/" +:+ s +:+ "." +:+ ext ->
   let target := pathlib.joinpath (default (config.MARKDOWN_DIR env) dir) (s +:+ ".md") in
   (write_error env target = None ->
    pdf_parser.save_markdown self d dir env w =
    (Ok target,
     {| remote_calls := remote_calls w;
        written := written w ++ [(target, ParsedData.markdown d)] |})) /\
   (forall e, write_error env target = Some e ->
      pdf_parser.save_markdown self d dir env w = (Raise e, w))) /\
  (ParsedData.filename d = "." +:+ ext \/
   ParsedData.filename d = folder +:+ "/" +:+ "." +:+ ext ->
   write_error env
     (pathlib.joinpath (default (config.MARKDOWN_DIR env) dir) ("." +:+ ext +:+ ".md")) = None ->
   fst (pdf_parser.save_markdown self d dir env w) =
   Ok (pathlib.joinpath (default (config.MARKDOWN_DIR env) dir) ("." +:+ ext +:+ ".md"))).
Proof.
  intros Hs Hse Hext He.
  destruct (stem_drops_the_last_extension s ext Hext) as (Hstem & Hdot & _).
  split.
  - intros Hne Hname target.
    assert (Hn : pathlib.name_of_str (ParsedData.filename d) = s +:+ "." +:+ ext).
    { destruct (name_of_str_component (s +:+ "." +:+ ext)) as [Halone Hafter].
      - apply no_char_app; [exact Hs | apply no_char_app; [exact no_slash_in_dot | exact Hse]].
      - apply extension_is_not_dot. exact He.
      - destruct Hname as [-> | ->]; [exact Halone | apply Hafter].
        intros H. apply (f_equal String.length) in H. rewrite !length_append in H.
        simpl in H. lia. }
    unfold pdf_parser.save_markdown, bind, write_text, ret.
    rewrite Hn, (Hstem Hne He). fold target.
    split; [intros Hw | intros e Hw]; rewrite Hw; reflexivity.
  - intros Hname Hw.
    assert (Hn : pathlib.name_of_str (ParsedData.filename d) = "." +:+ ext).
    { destruct (name_of_str_component ("." +:+ ext)) as [Halone Hafter].
      - apply no_char_app; [exact no_slash_in_dot | exact Hse].
      - apply (extension_is_not_dot "" ext He).
      - destruct Hname as [-> | ->]; [exact Halone | apply Hafter]. discriminate. }
    unfold pdf_parser.save_markdown, bind, write_text, ret.
    rewrite Hn, Hdot, append_assoc, Hw. reflexivity.
Qed.

(** The record of [sub/report.v2.pdf] goes to [report.v2.md]. *)
Lemma save_markdown_names_the_file_after_the_stem_witness :
  pdf_parser.save_markdown sample.parser (normalized "sub/report.v2.pdf" sample.job) None
    sample.env empty_world =
  (Ok ["/"; "srv"; "app"; "output"; "markdown"; "report.v2.md"],
   {| remote_calls := [];
      written := [(["/"; "srv"; "app"; "output"; "markdown"; "report.v2.md"],
                   "page one" +:+ nl +:+ nl +:+ "page two")] |}).
Proof.
  refine (proj1 (proj1 (save_markdown_names_the_file_after_the_stem sample.parser
                          (normalized "sub/report.v2.pdf" sample.job) None sample.env
                          empty_world "sub" "report.v2" "pdf" _ _ no_dot_in_pdf _) _
                   (or_intror eq_refl)) _);
    first [ discriminate | reflexivity | apply contains_false; reflexivity ].
Defined.

(** ** Effects that do not depend on the world *)

Lemma extend_empty_r (w : World) : extend w empty_world = w.
Proof. destruct w. unfold extend. simpl. rewrite !app_nil_r. reflexivity. Qed.

Lemma extend_empty_l (d : World) : extend empty_world d = d.
Proof. destruct d. reflexivity. Qed.

Lemma extend_assoc (w d1 d2 : World) : extend (extend w d1) d2 = extend w (extend d1 d2).
Proof. unfold extend. simpl. rewrite !app_assoc. reflexivity. Qed.

Lemma uniform_ret {A} (a : A) : uniform (ret a).
Proof. intros env w. unfold ret. simpl. rewrite extend_empty_r. reflexivity. Qed.

Lemma uniform_raise {A} (e : Exception) : uniform (@raise A e).
Proof. intros env w. unfold raise. simpl. rewrite extend_empty_r. reflexivity. Qed.

Lemma uniform_exists p : uniform (exists_ p).
Proof. intros env w. unfold exists_. simpl. rewrite extend_empty_r. reflexivity. Qed.

Lemma uniform_remote {A} c (answer : Exception + A) : uniform (remote c answer).
Proof.
  intros env w. unfold remote, log_call, extend. simpl. rewrite app_nil_r. reflexivity.
Qed.

Lemma uniform_write_text p s : uniform (write_text p s).
Proof.
  intros env w. unfold write_text. destruct (write_error env p); simpl.
  - rewrite extend_empty_r. reflexivity.
  - unfold extend. simpl. rewrite app_nil_r. reflexivity.
Qed.

Lemma uniform_bind {A B} (m : M A) (k : A -> M B) :
  uniform m -> (forall a, uniform (k a)) -> uniform (bind m k).
Proof.
  intros Hm Hk env w. unfold bind. rewrite (Hm env w).
  destruct (m env empty_world) as [[a|e] d]; simpl; [|reflexivity].
  rewrite (Hk a env (extend w d)), (Hk a env d). simpl.
  rewrite extend_assoc. reflexivity.
Qed.

Ltac uniform_step :=
  first
    [ apply uniform_bind; [|intros ?]
    | apply uniform_ret | apply uniform_raise | apply uniform_exists
    | apply uniform_remote | apply uniform_write_text
    | match goal with
      | |- uniform (if ?b then _ else _) => destruct b
      | |- uniform (match ?l with [] => _ | _ :: _ => _ end) => destruct l
      end ].

Lemma uniform_save_markdown self d dir : uniform (pdf_parser.save_markdown self d dir).
Proof.
  intros env w. unfold pdf_parser.save_markdown. cbv zeta.
  match goal with
  | |- ?m env w = _ =>
      assert (H : uniform m) by (repeat uniform_step); apply (H env w)
  end.
Qed.

Lemma uniform_save_natural_language self d dir f :
  uniform (nlp_processor.save_natural_language self d dir f).
Proof.
  intros env w. unfold nlp_processor.save_natural_language. cbv zeta.
  match goal with
  | |- ?m env w = _ =>
      assert (H : uniform m) by (repeat uniform_step); apply (H env w)
  end.
Qed.

Lemma uniform_process_markdown self text sel custom max :
  uniform (nlp_processor.process_markdown self text sel custom max).
Proof. unfold nlp_processor.process_markdown. repeat uniform_step. Qed.

Lemma uniform_parse_single_pdf self p : uniform (pdf_parser.parse_single_pdf self p).
Proof. unfold pdf_parser.parse_single_pdf. repeat uniform_step. Qed.

Lemma uniform_after_parse self p sel sm snl parsed_data :
  uniform (after_parse self p sel sm snl parsed_data).
Proof.
  unfold after_parse.
  repeat first
    [ apply uniform_save_markdown | apply uniform_save_natural_language
    | apply uniform_process_markdown | uniform_step ].
Qed.

Lemma uniform_process_single_pdf self p sel sm snl :
  uniform (main.process_single_pdf self p sel sm snl).
Proof.
  rewrite process_single_pdf_steps.
  apply uniform_bind; [apply uniform_parse_single_pdf|].
  intros parsed_data. apply uniform_after_parse.
Qed.

(** ** One document through the pipeline *)

Lemma log_call_twice c1 c2 w :
  log_call c2 (log_call c1 w) =
  {| remote_calls := remote_calls w ++ [c1; c2]; written := written w |}.
Proof. unfold log_call. simpl. rewrite <- app_assoc. reflexivity. Qed.

(** X9. When the file exists, both services answer and both files can be
    written, [process_single_pdf] with both saves on returns the record built
    from the job and from the answer of the model; it has made the parse call
    and then the completion call, and written the Markdown file
    [<stem>.md] and then the natural-language file [<stem>_nl.txt]. *)
Theorem process_single_pdf_success self p sel env w job msg first others :
  let text := join (nl +:+ nl) (markdown_documents job) in
  let request :=
    MessagesCreateCall (nlp_processor.model (main.nlp_processor self))
      config.CLAUDE_MAX_TOKENS (prompts.get_prompt_for_data text sel) in
  path_exists env p = true ->
  parse (pdf_parser.parser (main.pdf_parser self)) (pathlib.str p) = inr job ->
  write_error env (markdown_file env p) = None ->
  messages_create (nlp_processor.client (main.nlp_processor self))
    (nlp_processor.model (main.nlp_processor self)) config.CLAUDE_MAX_TOKENS
    (prompts.get_prompt_for_data text sel) = inr msg ->
  content msg = first :: others ->
  write_error env (nl_target env p) = None ->
  main.process_single_pdf self p sel true true env w =
  (Ok {| PipelineResult.pdf_file := pathlib.name p;
         PipelineResult.markdown := text;
         PipelineResult.markdown_path := Some (markdown_file env p);
         PipelineResult.natural_language := first;
         PipelineResult.natural_language_path := Some (nl_target env p);
         PipelineResult.page_count := length (markdown_documents job);
         PipelineResult.model := nlp_processor.model (main.nlp_processor self);
         PipelineResult.input_tokens := usage_input_tokens msg;
         PipelineResult.output_tokens := usage_output_tokens msg |},
   {| remote_calls := remote_calls w ++ [ParseCall (pathlib.str p); request];
      written := written w ++
        [ (markdown_file env p, text);
          (nl_target env p,
           nlp_processor.output_content
             {| NLResult.natural_language := first;
                NLResult.model := nlp_processor.model (main.nlp_processor self);
                NLResult.input_tokens := usage_input_tokens msg;
                NLResult.output_tokens := usage_output_tokens msg;
                NLResult.prompt_type := if truthy_bool sel then "table" else "general";
                NLResult.source_file := Some (pathlib.name p) |}) ] |}).
Proof.
  intros text request Hex Hjob Hmd Hmsg Hc Hnl.
  unfold main.process_single_pdf, pdf_parser.parse_single_pdf, pdf_parser.save_markdown,
    nlp_processor.process_markdown, nlp_processor.save_natural_language,
    markdown_file, nl_target, pathlib.stem in *.
  unfold bind, exists_, remote, write_text, raise, ret. simpl.
  rewrite Hex. simpl. rewrite Hjob. simpl. rewrite Hmd. fold text. rewrite Hmsg. simpl.
  rewrite Hc. rewrite Hnl. unfold log_call. simpl.
  rewrite <- !app_assoc. reflexivity.
Qed.

Lemma process_single_pdf_success_witness :
  exists r w',
    main.process_single_pdf sample.pipeline ["data"; "a.pdf"] None true true
      sample.env empty_world = (Ok r, w') /\
    PipelineResult.markdown_path r = Some ["/"; "srv"; "app"; "output"; "markdown"; "a.md"] /\
    map fst (written w') =
      [ ["/"; "srv"; "app"; "output"; "markdown"; "a.md"];
        ["/"; "srv"; "app"; "output"; "natural_language"; "a_nl.txt"] ].
Proof.
  eexists. eexists. split.
  - apply (process_single_pdf_success sample.pipeline ["data"; "a.pdf"] None sample.env
             empty_world sample.job
             {| content := ["prose"]; usage_input_tokens := 11; usage_output_tokens := 22 |}
             "prose" []); reflexivity.
  - split; reflexivity.
Defined.

(** X10. An error stops the remaining steps of the document and keeps what
    was done before it: a failing parse leaves no file and no completion
    call; a Markdown file that cannot be written leaves no completion call;
    a failing completion leaves the Markdown file written and no
    natural-language file. *)
Theorem an_error_stops_the_remaining_steps self p sel snl env w :
  path_exists env p = true ->
  (forall e,
     parse (pdf_parser.parser (main.pdf_parser self)) (pathlib.str p) = inl e ->
     forall sm,
       main.process_single_pdf self p sel sm snl env w =
       (Raise e, log_call (ParseCall (pathlib.str p)) w)) /\
  (forall job e,
     parse (pdf_parser.parser (main.pdf_parser self)) (pathlib.str p) = inr job ->
     write_error env (markdown_file env p) = Some e ->
     main.process_single_pdf self p sel true snl env w =
     (Raise e, log_call (ParseCall (pathlib.str p)) w)) /\
  (forall job e,
     parse (pdf_parser.parser (main.pdf_parser self)) (pathlib.str p) = inr job ->
     write_error env (markdown_file env p) = None ->
     messages_create (nlp_processor.client (main.nlp_processor self))
       (nlp_processor.model (main.nlp_processor self)) config.CLAUDE_MAX_TOKENS
       (prompts.get_prompt_for_data (join (nl +:+ nl) (markdown_documents job)) sel) =
       inl e ->
     main.process_single_pdf self p sel true snl env w =
     (Raise e,
      {| remote_calls := remote_calls w ++
           [ ParseCall (pathlib.str p);
             MessagesCreateCall (nlp_processor.model (main.nlp_processor self))
               config.CLAUDE_MAX_TOKENS
               (prompts.get_prompt_for_data
                  (join (nl +:+ nl) (markdown_documents job)) sel) ];
         written := written w ++
           [(markdown_file env p, join (nl +:+ nl) (markdown_documents job))] |})).
Proof.
  intros Hex.
  unfold main.process_single_pdf, pdf_parser.parse_single_pdf, pdf_parser.save_markdown,
    nlp_processor.process_markdown, markdown_file, pathlib.stem.
  unfold bind, exists_, remote, write_text, raise, ret. simpl.
  rewrite Hex. simpl. repeat split.
  - intros e He sm. rewrite He. reflexivity.
  - intros job e Hjob Hmd. rewrite Hjob. simpl. rewrite Hmd. reflexivity.
  - intros job e Hjob Hmd Hmsg. rewrite Hjob. simpl. rewrite Hmd, Hmsg. simpl.
    unfold log_call. simpl. rewrite <- app_assoc. reflexivity.
Qed.

Lemma an_error_stops_the_remaining_steps_witness :
  main.process_single_pdf sample.pipeline ["data"; "broken.pdf"] None true true
    sample.env empty_world =
  (Raise (OtherError "RuntimeError" "parse failed"),
   log_call (ParseCall "data/broken.pdf") empty_world).
Proof.
  apply (proj1 (an_error_stops_the_remaining_steps sample.pipeline ["data"; "broken.pdf"]
                  None true sample.env empty_world eq_refl)).
  reflexivity.
Defined.

Lemma writes_nothing_bind {A B} (m : M A) (k : A -> M B) :
  writes_nothing m -> (forall a, writes_nothing (k a)) -> writes_nothing (bind m k).
Proof.
  intros Hm Hk env w. unfold bind. specialize (Hm env w).
  destruct (m env w) as [[a|e] w1]; simpl in *; [|exact Hm].
  rewrite (Hk a env w1). exact Hm.
Qed.

Lemma writes_nothing_ret {A} (a : A) : writes_nothing (ret a).
Proof. intros env w. reflexivity. Qed.

Lemma writes_nothing_process_markdown self text sel custom max :
  writes_nothing (nlp_processor.process_markdown self text sel custom max).
Proof.
  unfold nlp_processor.process_markdown.
  apply writes_nothing_bind; [intros env w; reflexivity|].
  intros msg. destruct (content msg); intros env w; reflexivity.
Qed.

Lemma writes_nothing_parse_single_pdf self p :
  writes_nothing (pdf_parser.parse_single_pdf self p).
Proof.
  unfold pdf_parser.parse_single_pdf.
  apply writes_nothing_bind; [intros env w; reflexivity|].
  intros found. destruct (negb found); [intros env w; reflexivity|].
  apply writes_nothing_bind; [intros env w; reflexivity|].
  intros result. apply writes_nothing_ret.
Qed.

Lemma writes_nothing_unsaved self p sel :
  writes_nothing (main.process_single_pdf self p sel false false).
Proof.
  rewrite process_single_pdf_steps.
  apply writes_nothing_bind; [apply writes_nothing_parse_single_pdf|].
  intros parsed_data. unfold after_parse.
  apply writes_nothing_bind; [apply writes_nothing_ret|]. intros markdown_path.
  apply writes_nothing_bind; [apply writes_nothing_process_markdown|]. intros nl_result.
  apply writes_nothing_bind; [apply writes_nothing_ret|]. intros nl_path.
  apply writes_nothing_ret.
Qed.

(** X11. With both save flags off no file is written, whatever happens: this
    holds for one document and for a whole sequential batch, whose successful
    records then carry no output path. *)
Theorem without_save_flags_nothing_is_written self sel env w :
  (forall p, written (snd (main.process_single_pdf self p sel false false env w)) = written w) /\
  (forall ps,
     written (snd (main.process_multiple_pdfs self ps sel false false env w)) = written w) /\
  (forall p r w',
     main.process_single_pdf self p sel false false env w = (Ok r, w') ->
     PipelineResult.markdown_path r = None /\
     PipelineResult.natural_language_path r = None).
Proof.
  split; [|split].
  - intros p. apply writes_nothing_unsaved.
  - intros ps. revert w. induction ps as [|p ps IH]; intros w; [reflexivity|].
    cbn [main.process_multiple_pdfs]. unfold bind at 1. unfold main.try_process.
    pose proof (writes_nothing_unsaved self p sel env w) as Hp.
    destruct (main.process_single_pdf self p sel false false env w) as [[r|e] w1];
      simpl in Hp; unfold bind; specialize (IH w1);
      destruct (main.process_multiple_pdfs self ps sel false false env w1) as [[rs|e'] w2];
      simpl in *; congruence.
  - intros p r w'. rewrite process_single_pdf_steps. intros H.
    apply bind_ok_inv in H as (d & w1 & _ & H). unfold after_parse in H.
    apply bind_ok_inv in H as (mp & w2 & Hmp & H).
    apply bind_ok_inv in H as (nlr & w3 & _ & H).
    apply bind_ok_inv in H as (np & w4 & Hnp & H).
    injection Hmp as <- _. injection Hnp as <- _. injection H as <- _. auto.
Qed.

Lemma without_save_flags_nothing_is_written_witness :
  written (snd (main.process_multiple_pdfs sample.pipeline sample.batch None false false
                  sample.env empty_world)) = [].
Proof.
  apply (proj1 (proj2 (without_save_flags_nothing_is_written sample.pipeline None
                         sample.env empty_world)) sample.batch).
Defined.

(** ** Running a document again, and the order of a sequential batch *)

Lemma file_content_app (l d : list (Path * string)) (q : Path) :
  file_content (l ++ d) q =
  match file_content d q with
  | Some s => Some s
  | None => file_content l q
  end.
Proof.
  induction l as [|[q0 s0] l IH]; simpl.
  - destruct (file_content d q); reflexivity.
  - rewrite IH. destruct (file_content d q); reflexivity.
Qed.

(** X12. Processing the same document a second time has the same outcome and
    leaves every file with the content it had after the first run: the same
    output paths are written again with the same text. *)
Theorem processing_again_leaves_the_same_files self p sel sm snl env w :
  let first_run := main.process_single_pdf self p sel sm snl env w in
  let second_run := main.process_single_pdf self p sel sm snl env (snd first_run) in
  fst second_run = fst first_run /\
  forall q,
    file_content (written (snd second_run)) q = file_content (written (snd first_run)) q.
Proof.
  intros first_run second_run. subst first_run second_run.
  pose proof (uniform_process_single_pdf self p sel sm snl) as U.
  rewrite (U env w). simpl. rewrite (U env (extend w _)). simpl.
  split; [reflexivity|].
  intros q. rewrite !file_content_app.
  destruct (file_content
              (written (snd (main.process_single_pdf self p sel sm snl env empty_world))) q);
    reflexivity.
Qed.

Lemma bind_ret_world {A B} (m : M A) (f : A -> B) env w :
  snd (bind m (fun a => ret (f a)) env w) = snd (m env w).
Proof. unfold bind, ret. destruct (m env w) as [[a|e] w1]; reflexivity. Qed.

Lemma try_process_world self p sel sm snl env w :
  snd (main.try_process self p sel sm snl env w) =
  extend w (effects (main.process_single_pdf self p sel sm snl) env).
Proof.
  unfold main.try_process, effects.
  rewrite (uniform_process_single_pdf self p sel sm snl env w).
  destruct (fst (main.process_single_pdf self p sel sm snl env empty_world)); reflexivity.
Qed.

(** X13. The sequential batch runs the documents one after the other in the
    order of the input list: the remote calls and the files written by the
    batch are those of the first document, then those of the second, and so
    on, a failing document included. *)
Theorem sequential_batch_runs_in_input_order self ps sel sm snl env w :
  remote_calls (snd (main.process_multiple_pdfs self ps sel sm snl env w)) =
    (remote_calls w ++
     concat (map (fun p => remote_calls (effects (main.process_single_pdf self p sel sm snl) env))
               ps))%list /\
  written (snd (main.process_multiple_pdfs self ps sel sm snl env w)) =
    (written w ++
     concat (map (fun p => written (effects (main.process_single_pdf self p sel sm snl) env))
               ps))%list.
Proof.
  revert w. induction ps as [|p ps IH]; intros w.
  - simpl. rewrite !app_nil_r. split; reflexivity.
  - cbn [main.process_multiple_pdfs map concat]. unfold bind at 1 3.
    pose proof (try_process_world self p sel sm snl env w) as Hw.
    destruct (main.try_process self p sel sm snl env w) as [[r|e] w1] eqn:Et.
    + simpl in Hw. rewrite !bind_ret_world. destruct (IH w1) as [Hc Hf].
      rewrite Hc, Hf, Hw. simpl. rewrite !app_assoc. split; reflexivity.
    + exfalso. unfold main.try_process in Et.
      destruct (main.process_single_pdf self p sel sm snl env w) as [[r'|e'] w']; discriminate.
Qed.

(** ** The two batch paths side by side, and the summary *)




Lemma filter_lengths {A} (f : A -> bool) (l : list A) :
  length (List.filter (fun x => negb (f x)) l) + length (List.filter f l) = length l.
Proof.
  induction l as [|x l IH]; [reflexivity|]. simpl.
  destruct (f x); simpl; lia.
Qed.

Lemma failed_of_records (f : Path -> Outcome PipelineResult.t) (ps : list Path) :
  summary.failed (map (fun p => batch_record p (f p)) ps) =
  omap (fun p => match f p with
                 | Raise e => Some (Failed (pathlib.name p) (str_exc e))
                 | Ok _ => None
                 end) ps.
Proof.
  unfold summary.failed. induction ps as [|p ps IH]; [reflexivity|].
  simpl. destruct (f p) as [r|e]; simpl; rewrite IH; reflexivity.
Qed.

Lemma total_tokens_all (rs : list BatchRecord) :
  summary.total_tokens rs = fold_right Z.add 0%Z (map summary.tokens rs).
Proof.
  unfold summary.total_tokens, summary.successful.
  induction rs as [|r rs IH]; [reflexivity|].
  simpl. destruct r as [r|f e]; simpl; rewrite IH; reflexivity.
Qed.

(** X15. In the summary of a sequential batch every document is counted once,
    as successful or as failed; the failed entries are those of the documents
    whose processing raises, in input order, with the file name and the text
    of the exception; the token total adds the input and output tokens of
    the successful documents only. *)
Theorem summary_counts_every_document_once self ps sel sm snl env w :
  exists rs,
    fst (main.process_multiple_pdfs self ps sel sm snl env w) = Ok rs /\
    length (summary.successful rs) + length (summary.failed rs) = length ps /\
    summary.failed rs =
      omap (fun p =>
              match fst (main.process_single_pdf self p sel sm snl env empty_world) with
              | Raise e => Some (Failed (pathlib.name p) (str_exc e))
              | Ok _ => None
              end) ps /\
    summary.total_tokens rs =
      fold_right Z.add 0%Z
        (map (fun p =>
                match fst (main.process_single_pdf self p sel sm snl env empty_world) with
                | Ok r => (PipelineResult.input_tokens r + PipelineResult.output_tokens r)%Z
                | Raise _ => 0%Z
                end) ps).
Proof.
  eexists. split; [apply process_multiple_pdfs_records|].
  split; [|split].
  - unfold summary.successful, summary.failed. rewrite filter_lengths. apply length_map.
  - apply (failed_of_records
             (fun p => fst (main.process_single_pdf self p sel sm snl env empty_world))).
  - rewrite total_tokens_all, map_map. f_equal. apply map_ext. intros p.
    destruct (fst (main.process_single_pdf self p sel sm snl env empty_world)); reflexivity.
Qed.

(** ** Constructors and the exit status of [main] *)

Lemma or_str_explicit (k cfg : string) : k <> "" -> or_str (Some k) cfg = k.
Proof.
  intros H. apply String.eqb_neq in H. unfold or_str, truthy_str. rewrite H. reflexivity.
Qed.

(** X16. The pipeline is constructed exactly when a Llama Parse key and an
    Anthropic key are available, each taken from the argument when it is a
    non-empty string and from the configuration otherwise.  The parser adapter
    is constructed first: without a Llama Parse key the error is the
    [ValueError] about that key, whatever the Anthropic key. *)
Theorem pipeline_needs_both_keys new_llama new_anthropic keys llama_key anthropic_key
    use_async :
  (or_str llama_key (LLAMA_PARSE_API_KEY keys) = "" ->
   construct.Pipeline_init new_llama new_anthropic keys llama_key anthropic_key use_async =
   inl (ValueError
          ("Llama Parse API key is required. " +:+
           "Set LLAMA_PARSE_API_KEY environment variable or pass it to the constructor."))) /\
  (or_str llama_key (LLAMA_PARSE_API_KEY keys) <> "" ->
   or_str anthropic_key (ANTHROPIC_API_KEY keys) = "" ->
   construct.Pipeline_init new_llama new_anthropic keys llama_key anthropic_key use_async =
   inl (ValueError
          ("Anthropic API key is required. " +:+
           "Set ANTHROPIC_API_KEY environment variable or pass it to the constructor."))) /\
  (or_str llama_key (LLAMA_PARSE_API_KEY keys) <> "" ->
   or_str anthropic_key (ANTHROPIC_API_KEY keys) <> "" ->
   construct.Pipeline_init new_llama new_anthropic keys llama_key anthropic_key use_async =
   inr {| main.pdf_parser :=
            {| pdf_parser.parser :=
                 new_llama (or_str llama_key (LLAMA_PARSE_API_KEY keys)) |};
          main.nlp_processor :=
            {| nlp_processor.client :=
                 new_anthropic (or_str anthropic_key (ANTHROPIC_API_KEY keys));
               nlp_processor.model := config.CLAUDE_MODEL |};
          main.use_async := use_async |}) /\
  (forall k cfg, k <> "" -> or_str (Some k) cfg = k) /\
  (forall cfg, or_str (Some "") cfg = cfg /\ or_str None cfg = cfg).
Proof.
  unfold construct.Pipeline_init, construct.PDFParser_init, construct.NLPProcessor_init.
  repeat split.
  - intros H. rewrite H. reflexivity.
  - intros Hl Ha. apply String.eqb_neq in Hl. rewrite Hl, Ha. reflexivity.
  - intros Hl Ha. apply String.eqb_neq in Hl, Ha. rewrite Hl, Ha. reflexivity.
  - apply or_str_explicit.
Qed.

Lemma pipeline_needs_both_keys_witness :
  construct.Pipeline_init (fun _ => sample.llama) (fun _ => sample.anthropic)
    sample2.only_llama None None false =
  inl (ValueError
         ("Anthropic API key is required. " +:+
          "Set ANTHROPIC_API_KEY environment variable or pass it to the constructor.")).
Proof.
  apply (proj1 (proj2 (pipeline_needs_both_keys (fun _ => sample.llama)
                         (fun _ => sample.anthropic) sample2.only_llama None None false)));
    [discriminate | reflexivity].
Defined.

Lemma pipeline_init_cases new_llama new_anthropic keys llama_key anthropic_key use_async :
  ((or_str llama_key (LLAMA_PARSE_API_KEY keys) = "" \/
    or_str anthropic_key (ANTHROPIC_API_KEY keys) = "") ->
   exists e,
     construct.Pipeline_init new_llama new_anthropic keys llama_key anthropic_key use_async =
     inl e) /\
  (or_str llama_key (LLAMA_PARSE_API_KEY keys) <> "" ->
   or_str anthropic_key (ANTHROPIC_API_KEY keys) <> "" ->
   exists pipeline,
     construct.Pipeline_init new_llama new_anthropic keys llama_key anthropic_key use_async =
     inr pipeline).
Proof.
  unfold construct.Pipeline_init, construct.PDFParser_init, construct.NLPProcessor_init.
  split.
  - intros H.
    destruct (String.eqb (or_str llama_key (LLAMA_PARSE_API_KEY keys)) "") eqn:El; [eauto|].
    destruct H as [H|H]; [apply String.eqb_neq in El; contradiction|].
    rewrite H. simpl. eauto.
  - intros Hl Ha. apply String.eqb_neq in Hl, Ha. rewrite Hl, Ha. eauto.
Qed.

(** X17. When argparse ends the process, [main] has done nothing: the
    status is 2 for arguments that are rejected and 0 after the help text,
    which is printed only when [-h] or [--help] (possibly abbreviated) is
    among the arguments.  For accepted arguments [main] exits with status 1
    when no document is found or when a key is missing, and returns (status
    0) otherwise, also when documents of the batch fail.  When the status is
    1 nothing has been done either: no remote call, no file written.  The
    documents are looked for before the keys are checked. *)
Theorem main_exit_status host argv env w :
  (forall status,
     main.parse_args argv = main.SystemExit status ->
     entry.main host argv env w = Some (status, w) /\
     (status = 2%Z \/ status = 0%Z /\ asks_for_help argv = true)) /\
  (forall args,
     main.parse_args argv = main.Parsed args ->
     (entry.resolve_pdf_paths host env args = [] ->
      entry.main host argv env w = Some (1%Z, w)) /\
     (entry.resolve_pdf_paths host env args <> [] ->
      (or_str (main.llama_api_key args) (LLAMA_PARSE_API_KEY (keys host)) = "" \/
       or_str (main.anthropic_api_key args) (ANTHROPIC_API_KEY (keys host)) = "") ->
      entry.main host argv env w = Some (1%Z, w)) /\
     (entry.resolve_pdf_paths host env args <> [] ->
      or_str (main.llama_api_key args) (LLAMA_PARSE_API_KEY (keys host)) <> "" ->
      or_str (main.anthropic_api_key args) (ANTHROPIC_API_KEY (keys host)) <> "" ->
      exists w', entry.main host argv env w = Some (0%Z, w'))).
Proof.
  unfold entry.main. split.
  - intros status H. rewrite H. split; [reflexivity|].
    apply parse_args_exit in H as [H|(ns & extras & H)]; [auto|].
    apply (consume_exit (length (before_separator argv))) in H; [exact H | lia].
  - intros args H. rewrite H.
    pose proof (pipeline_init_cases (new_llama host) (new_anthropic host) (keys host)
                  (main.llama_api_key args) (main.anthropic_api_key args)
                  (main.args_use_async args)) as Hinit.
    repeat split.
    + intros Hnone. rewrite Hnone. reflexivity.
    + intros Hsome Hkey. destruct (entry.resolve_pdf_paths host env args); [contradiction|].
      destruct Hinit as [Hfail _]. destruct (Hfail Hkey) as [e ->]. reflexivity.
    + intros Hsome Hl Ha. destruct (entry.resolve_pdf_paths host env args); [contradiction|].
      destruct Hinit as [_ Hok]. destruct (Hok Hl Ha) as [pipeline ->].
      destruct (main.args_use_async args);
        match goal with |- exists _, (let '(_, _) := ?m in _) = _ => destruct m end;
        eexists; reflexivity.
Qed.

(** [--help] ends with status 0 and an option without its value with status
    2, both before anything is done; an abbreviated flag and a directory
    given after the separator are accepted and the batch is run. *)
Lemma main_exit_status_witness :
  entry.main sample2.host ["--table"; "--help"] sample.env empty_world =
    Some (0%Z, empty_world) /\
  entry.main sample2.host ["--async"; "data"; "--llama-api-key"] sample.env empty_world =
    Some (2%Z, empty_world) /\
  exists w', entry.main sample2.host ["--table"; "--"; "data"] sample.env empty_world =
    Some (0%Z, w').
Proof.
  split; [|split].
  - apply (proj1 (main_exit_status sample2.host ["--table"; "--help"]
                    sample.env empty_world) 0%Z). vm_compute. reflexivity.
  - apply (proj1 (main_exit_status sample2.host ["--async"; "data"; "--llama-api-key"]
                    sample.env empty_world) 2%Z). vm_compute. reflexivity.
  - refine (proj2 (proj2 (proj2 (main_exit_status sample2.host ["--table"; "--"; "data"]
                                   sample.env empty_world) _ eq_refl)) _ _ _);
      discriminate.
Defined.

(** ** [process_markdown_file] *)

(** X18. [process_markdown_file] raises the not-found error naming the path
    when the file does not exist, and the error of the read when the file
    cannot be read; in both cases the model is not called.  Otherwise it is
    [process_markdown] on the text of the file, and its result carries the
    file's name as [source_file], so that saving it without a file name
    writes [<stem>_nl.txt] in the natural-language directory, the stem being
    that of the path made again from this name. *)
Theorem process_markdown_file_contract read_text self path sel custom max env w :
  (path_exists env path = false ->
   process_markdown_file read_text self path sel custom max env w =
   (Raise (FileNotFoundError ("Markdown file not found: " +:+ pathlib.str path)), w)) /\
  (forall e,
     path_exists env path = true -> read_text path = inl e ->
     process_markdown_file read_text self path sel custom max env w = (Raise e, w)) /\
  (forall text r w1,
     path_exists env path = true -> read_text path = inr text ->
     nlp_processor.process_markdown self text sel custom max env w = (Ok r, w1) ->
     process_markdown_file read_text self path sel custom max env w =
       (Ok (NLResult.set_source_file r (pathlib.name path)), w1) /\
     (write_error env (nl_file env path) = None ->
      (processed <-- process_markdown_file read_text self path sel custom max;
       nlp_processor.save_natural_language self processed None None) env w =
      (Ok (nl_file env path),
       {| remote_calls := remote_calls w1;
          written := written w1 ++
            [(nl_file env path,
              nlp_processor.output_content
                (NLResult.set_source_file r (pathlib.name path)))] |}))).
Proof.
  unfold process_markdown_file. split; [|split].
  - intros Hno. unfold bind, exists_, raise. rewrite Hno. reflexivity.
  - intros e Hex He. unfold bind, exists_. rewrite Hex. simpl. rewrite He. reflexivity.
  - intros text r w1 Hex Htext Hrun. split.
    + unfold bind, exists_. rewrite Hex. simpl. rewrite Htext. simpl. rewrite Hrun.
      reflexivity.
    + intros Hw. unfold bind, exists_. rewrite Hex. simpl. rewrite Htext. simpl.
      rewrite Hrun.
      unfold ret, nlp_processor.save_natural_language, bind, write_text. simpl.
      unfold nl_file in Hw. rewrite Hw. reflexivity.
Qed.

Lemma process_markdown_file_contract_witness :
  process_markdown_file sample2.read_text sample.nlp ["notes"; "locked.md"] None None None
    sample.env empty_world =
  (Raise (OtherError "PermissionError" "denied"), empty_world).
Proof.
  apply (proj1 (proj2 (process_markdown_file_contract sample2.read_text sample.nlp
                         ["notes"; "locked.md"] None None None sample.env empty_world)));
    reflexivity.
Defined.

(** ** The fan-out of the concurrent batch *)

Lemma no_calls {A} (m : M A) :
  (forall env w, remote_calls (snd (m env w)) = remote_calls w) -> only_completion_calls m.
Proof.
  intros H env w. exists []. rewrite app_nil_r. split; [apply H | constructor].
Qed.

Lemma only_completion_calls_bind {A B} (m : M A) (k : A -> M B) :
  only_completion_calls m -> (forall a, only_completion_calls (k a)) ->
  only_completion_calls (bind m k).
Proof.
  intros Hm Hk env w. unfold bind. destruct (Hm env w) as (m1 & E1 & F1).
  destruct (m env w) as [[a|e] w1]; simpl in *.
  - destruct (Hk a env w1) as (m2 & E2 & F2). exists (m1 ++ m2)%list.
    rewrite E2, E1, app_assoc. split; [reflexivity | apply Forall_app; auto].
  - exists m1. auto.
Qed.

Lemma only_completion_calls_process_markdown self text sel custom max :
  only_completion_calls (nlp_processor.process_markdown self text sel custom max).
Proof.
  unfold nlp_processor.process_markdown.
  apply only_completion_calls_bind.
  - intros env w. eexists. split; [reflexivity|]. repeat constructor.
  - intros msg. apply no_calls. intros env w. destruct (content msg); reflexivity.
Qed.

Lemma save_markdown_calls self d dir env w :
  remote_calls (snd (pdf_parser.save_markdown self d dir env w)) = remote_calls w.
Proof.
  unfold pdf_parser.save_markdown, bind, write_text, ret. cbv zeta.
  match goal with |- context [write_error ?e ?q] => destruct (write_error e q) end;
    reflexivity.
Qed.

Lemma save_natural_language_calls self d dir f env w :
  remote_calls (snd (nlp_processor.save_natural_language self d dir f env w)) =
  remote_calls w.
Proof.
  unfold nlp_processor.save_natural_language, bind, write_text, ret. cbv zeta.
  match goal with |- context [write_error ?e ?q] => destruct (write_error e q) end;
    reflexivity.
Qed.

Lemma only_completion_calls_after_parse self p sel sm snl d :
  only_completion_calls (after_parse self p sel sm snl d).
Proof.
  unfold after_parse.
  apply only_completion_calls_bind.
  { apply no_calls. intros env w. destruct sm; [|reflexivity].
    rewrite bind_ret_world. apply save_markdown_calls. }
  intros markdown_path. apply only_completion_calls_bind.
  { apply only_completion_calls_process_markdown. }
  intros nl_result. apply only_completion_calls_bind.
  { apply no_calls. intros env w. destruct snl; [|reflexivity].
    cbv zeta. rewrite bind_ret_world. apply save_natural_language_calls. }
  intros nl_path. apply no_calls. reflexivity.
Qed.

Lemma parse_single_pdf_async_start self p env w :
  (path_exists env p = false ->
   exists e, pdf_parser.parse_single_pdf_async self p env w = (Raise e, w)) /\
  (path_exists env p = true ->
   exists resume,
     pdf_parser.parse_single_pdf_async self p env w =
       (Ok resume, log_call (AParseCall (pathlib.str p)) w) /\
     only_completion_calls resume).
Proof.
  unfold pdf_parser.parse_single_pdf_async, bind, exists_, raise, ret, await_remote.
  split; intros H; rewrite H; simpl.
  - eexists. reflexivity.
  - eexists. split; [reflexivity|].
    apply no_calls. intros env1 w1.
    destruct (aparse (pdf_parser.parser self) (pathlib.str p)); reflexivity.
Qed.

Lemma await_run {A B} (c : Coroutine A) (k : A -> M B) env w :
  (x <-- await c; k x) env w =
  match c env w with
  | (Ok resume, w1) => (Ok (bind resume k), w1)
  | (Raise e, w1) => (Raise e, w1)
  end.
Proof. unfold bind at 1. unfold ret. destruct (c env w) as [[r|e] w1]; reflexivity. Qed.

Lemma process_single_pdf_async_start self p sel sm snl env w :
  snd (main.process_single_pdf_async self p sel sm snl env w) =
    (if path_exists env p then log_call (AParseCall (pathlib.str p)) w else w) /\
  quiet_state
    (match fst (main.process_single_pdf_async self p sel sm snl env w) with
     | Ok resume => Pending resume
     | Raise e => Finished (Raise e)
     end).
Proof.
  rewrite process_single_pdf_async_steps, await_run.
  destruct (parse_single_pdf_async_start (main.pdf_parser self) p env w) as [Hno Hyes].
  destruct (path_exists env p).
  - destruct (Hyes eq_refl) as (resume & -> & Hr). simpl. split; [reflexivity|].
    apply only_completion_calls_bind; [exact Hr|].
    intros d. apply only_completion_calls_after_parse.
  - destruct (Hno eq_refl) as (e & ->). simpl. auto.
Qed.

Lemma start_all_fan_out self sel sm snl env (ps : list Path) w :
  remote_calls
    (snd (asyncio.start_all
            (map (fun p => main.process_single_pdf_async self p sel sm snl) ps) env w)) =
    (remote_calls w ++
     map (fun p => AParseCall (pathlib.str p)) (List.filter (path_exists env) ps))%list /\
  Forall quiet_state
    (fst (asyncio.start_all
            (map (fun p => main.process_single_pdf_async self p sel sm snl) ps) env w)).
Proof.
  revert w. induction ps as [|p ps IH]; intros w.
  - simpl. rewrite app_nil_r. split; [reflexivity | constructor].
  - cbn [map asyncio.start_all List.filter].
    destruct (process_single_pdf_async_start self p sel sm snl env w) as [Hw Hq].
    destruct (main.process_single_pdf_async self p sel sm snl env w) as [o w1].
    simpl in Hw, Hq. destruct (IH w1) as [Hc Hs].
    destruct (asyncio.start_all _ env w1) as [sts w2]. simpl in *.
    split; [|constructor; assumption].
    rewrite Hc, Hw. destruct (path_exists env p); [|reflexivity].
    unfold log_call. simpl. rewrite <- app_assoc. reflexivity.
Qed.

Lemma complete_is_quiet {A} i env (sw : list (TaskState A) * World) :
  Forall quiet_state (fst sw) ->
  Forall quiet_state (fst (asyncio.complete i env sw)) /\
  exists more,
    remote_calls (snd (asyncio.complete i env sw)) = (remote_calls (snd sw) ++ more)%list /\
    Forall (fun c => is_parse_call c = false) more.
Proof.
  destruct sw as [sts w]. simpl. intros Hq. unfold asyncio.complete.
  destruct (sts !! i) as [[resume|o]|] eqn:Ei.
  - assert (Hr : only_completion_calls resume).
    { rewrite Forall_forall in Hq.
      apply (Hq (Pending resume)). eapply list_elem_of_lookup_2. exact Ei. }
    destruct (Hr env w) as (more & Em & Fm).
    destruct (resume env w) as [o w']. simpl in *. split.
    + apply Forall_insert; [exact Hq | exact I].
    + exists more. auto.
  - split; [exact Hq|]. exists []. rewrite app_nil_r. split; [reflexivity | constructor].
  - split; [exact Hq|]. exists []. rewrite app_nil_r. split; [reflexivity | constructor].
Qed.

Lemma complete_all_is_quiet {A} order env (sw : list (TaskState A) * World) :
  Forall quiet_state (fst sw) ->
  exists more,
    remote_calls (snd (asyncio.complete_all order env sw)) =
      (remote_calls (snd sw) ++ more)%list /\
    Forall (fun c => is_parse_call c = false) more.
Proof.
  unfold asyncio.complete_all. revert sw.
  induction order as [|i order IH]; intros sw Hq; simpl.
  - exists []. rewrite app_nil_r. split; [reflexivity | constructor].
  - destruct (complete_is_quiet i env sw Hq) as (Hq' & m1 & E1 & F1).
    destruct (IH _ Hq') as (m2 & E2 & F2).
    exists (m1 ++ m2)%list. rewrite E2, E1, app_assoc.
    split; [reflexivity | apply Forall_app; auto].
Qed.

(** X19. The concurrent batch sends the parse request of every existing
    document, in input order, before the first request to the language model:
    its remote calls are those parse requests followed by completion requests
    only, whatever the order of arrival. *)
Theorem concurrent_batch_parses_before_it_completes order self ps sel sm snl env w :
  exists completions,
    remote_calls (snd (main.process_multiple_pdfs_async order self ps sel sm snl env w)) =
      (remote_calls w ++
       map (fun p => AParseCall (pathlib.str p)) (List.filter (path_exists env) ps) ++
       completions)%list /\
    Forall (fun c => is_parse_call c = false) completions.
Proof.
  unfold main.process_multiple_pdfs_async. rewrite bind_ret_world.
  unfold asyncio.gather.
  destruct (start_all_fan_out self sel sm snl env ps w) as [Hc Hq].
  set (started := asyncio.start_all _ env w) in *.
  destruct (complete_all_is_quiet
              (order ++ seq 0 (length (map (fun p => main.process_single_pdf_async
                                                       self p sel sm snl) ps)))
              env started Hq) as (more & Em & Fm).
  destruct (asyncio.complete_all _ env started) as [sts w'].
  simpl in *. exists more. rewrite Em, Hc, <- app_assoc. auto.
Qed.

Example sequential_batch_interleaves_parse_and_completion :
  map is_parse_call
    (remote_calls (snd (main.process_multiple_pdfs sample.pipeline
                          [["a.pdf"]; ["c.pdf"]] None false false
                          sample.env empty_world))) =
  [true; false; true; false].
Proof. reflexivity. Qed.

(** ** A batch over a directory *)

Lemma listing_by_names env directory :
  pdf_parser.get_all_pdfs_in_directory env directory =
  map (pathlib.joinpath directory)
    (merge_sort String.le (List.filter pdf_parser.matches_pdf (scandir env directory))).
Proof.
  unfold pdf_parser.get_all_pdfs_in_directory, pdf_parser.sorted, pdf_parser.glob_pdf.
  apply (StronglySorted_unique pathlib.le).
  - apply StronglySorted_merge_sort; apply _.
  - apply joinpath_sorted. apply StronglySorted_merge_sort; apply _.
  - rewrite merge_sort_Permutation. apply Permutation_map.
    symmetry. apply merge_sort_Permutation.
Qed.

Lemma name_of_joinpath directory n :
  pdf_parser.matches_pdf n = true -> pathlib.name (pathlib.joinpath directory n) = n.
Proof.
  intros Hm. unfold pathlib.joinpath, pathlib.name.
  destruct directory as [|d directory]; simpl.
  - destruct (String.eqb_spec n "/") as [->|_]; [discriminate Hm | reflexivity].
  - destruct (directory ++ [n])%list as [|x l] eqn:E.
    + destruct directory; discriminate E.
    + rewrite <- E. apply (last_last directory n "").
Qed.

Lemma names_of_records (f : Path -> Outcome PipelineResult.t) (ps : list Path) :
  (forall p r, f p = Ok r -> PipelineResult.pdf_file r = pathlib.name p) ->
  map record_pdf_file (map (fun p => batch_record p (f p)) ps) = map pathlib.name ps.
Proof.
  intros H. rewrite map_map. apply map_ext. intros p.
  apply batch_record_pdf_file. intros r Hr. apply (H p r Hr).
Qed.

(** X20. A batch over a directory reports the documents in ascending order of
    their file names, one entry for each entry of the directory whose name
    ends in [.pdf], in the sequential and in the concurrent path alike. *)
Theorem directory_batch_reports_in_file_name_order order self directory sel sm snl env w :
  exists names,
    StronglySorted String.le names /\
    Permutation names (List.filter pdf_parser.matches_pdf (scandir env directory)) /\
    (exists rs,
       fst (main.process_multiple_pdfs self
              (pdf_parser.get_all_pdfs_in_directory env directory) sel sm snl env w) = Ok rs /\
       map record_pdf_file rs = names) /\
    (exists rs,
       fst (main.process_multiple_pdfs_async order self
              (pdf_parser.get_all_pdfs_in_directory env directory) sel sm snl env w) = Ok rs /\
       map record_pdf_file rs = names).
Proof.
  exists (merge_sort String.le (List.filter pdf_parser.matches_pdf (scandir env directory))).
  assert (Hnames :
    map pathlib.name (pdf_parser.get_all_pdfs_in_directory env directory) =
    merge_sort String.le (List.filter pdf_parser.matches_pdf (scandir env directory))).
  { rewrite listing_by_names, map_map.
    rewrite <- (map_id (merge_sort String.le _)) at 2.
    apply map_ext_in. intros n Hn. apply name_of_joinpath.
    apply (Permutation_in _ (merge_sort_Permutation String.le _)) in Hn.
    apply filter_In in Hn. apply Hn. }
  split; [apply StronglySorted_merge_sort; apply _|].
  split; [apply merge_sort_Permutation|].
  split; eexists.
  - split; [apply process_multiple_pdfs_records|].
    rewrite <- Hnames. apply names_of_records. intros p r Hr.
    destruct (main.process_single_pdf self p sel sm snl env empty_world) as [o w1] eqn:E.
    simpl in Hr. subst o. eapply process_single_pdf_pdf_file. exact E.
  - split; [apply process_multiple_pdfs_async_records|].
    rewrite <- Hnames.
    apply (names_of_records
             (fun p => outcome_alone (main.process_single_pdf_async self p sel sm snl) env)).
    intros p r Hr. unfold outcome_alone in Hr.
    destruct (run_until_complete (main.process_single_pdf_async self p sel sm snl)
                env empty_world) as [o w1] eqn:E.
    simpl in Hr. subst o. eapply process_single_pdf_async_pdf_file. exact E.
Qed.

(** ** Output files of the documents of one directory *)

Lemma stem_of_pdf_name (s : string) : s <> "" -> pathlib.stem_of (s +:+ ".pdf") = s.
Proof.
  intros Hs. unfold pathlib.stem_of.
  change (s +:+ ".pdf") with (s +:+ "." +:+ "pdf").
  rewrite (rfind_dot_append s _ 0 (rfind_dot_extension "pdf" no_dot_in_pdf)).
  rewrite Nat.add_0_r, !length_append.
  assert (0 < String.length s) by (destruct s; [contradiction | simpl; lia]).
  destruct (Nat.ltb_spec 0 (String.length s)); [|lia].
  destruct (Nat.ltb_spec (String.length s)
              (String.length s + (String.length "." + String.length "pdf") - 1));
    [|simpl in *; lia].
  simpl. apply substring_of_prefix.
Qed.

Lemma append_cancel_r (a b c : string) : a +:+ c = b +:+ c -> a = b.
Proof.
  revert b. induction a as [|x a IH]; intros [|y b] H.
  - reflexivity.
  - exfalso. apply (f_equal String.length) in H.
    rewrite !length_append in H. simpl in H. lia.
  - exfalso. apply (f_equal String.length) in H.
    rewrite !length_append in H. simpl in H. lia.
  - rewrite !append_cons in H. injection H as -> H. f_equal. apply IH. exact H.
Qed.

(** X21. Two different entries of one directory whose names end in [.pdf]
    are saved to different Markdown files and to different natural-language
    files, provided neither is named [.pdf]; the entries [.pdf] and
    [.pdf.pdf] share their output files.  For an entry that holds no slash,
    as the entries of a directory are, the Markdown file meant here is the
    file [save_markdown] writes for it; more generally, for every path whose
    final component holds no slash and is not a single dot, the two files
    named after the stem of the path are the files the two save methods
    write when they take the stem from the path made again from the file
    name. *)
Theorem distinct_pdfs_get_distinct_output_files env directory n1 n2 :
  (pdf_parser.matches_pdf n1 = true -> pdf_parser.matches_pdf n2 = true ->
   n1 <> ".pdf" -> n2 <> ".pdf" -> n1 <> n2 ->
   markdown_target env (pathlib.joinpath directory n1) <>
     markdown_target env (pathlib.joinpath directory n2) /\
   nl_target env (pathlib.joinpath directory n1) <>
     nl_target env (pathlib.joinpath directory n2)) /\
  markdown_target env (pathlib.joinpath directory ".pdf") =
    markdown_target env (pathlib.joinpath directory ".pdf.pdf") /\
  nl_target env (pathlib.joinpath directory ".pdf") =
    nl_target env (pathlib.joinpath directory ".pdf.pdf") /\
  (forall n,
     pdf_parser.matches_pdf n = true -> ~ occurs_in "/" n ->
     markdown_file env (pathlib.joinpath directory n) =
       markdown_target env (pathlib.joinpath directory n)) /\
  (forall p,
     ~ occurs_in "/" (pathlib.name p) -> pathlib.name p <> "." ->
     markdown_file env p = markdown_target env p /\ nl_file env p = nl_target env p).
Proof.
  split; [|split; [|split; [|split]]]; [| | |
    intros n Hm Hs; unfold markdown_file, markdown_target, pathlib.stem;
    rewrite (name_of_joinpath directory n Hm);
    rewrite (proj1 (name_of_str_component n Hs ltac:(intros ->; discriminate Hm)));
    reflexivity |
    intros p Hs Hdot;
    unfold markdown_file, markdown_target, nl_file, nl_target, pathlib.stem;
    rewrite (proj1 (name_of_str_component _ Hs Hdot)); split; reflexivity ].
  - intros H1 H2 Hd1 Hd2 Hne.
    assert (Hstem : pathlib.stem (pathlib.joinpath directory n1) <>
                    pathlib.stem (pathlib.joinpath directory n2)).
    { unfold pathlib.stem. rewrite !name_of_joinpath by assumption.
      apply matches_pdf_spec in H1 as [s1 ->]. apply matches_pdf_spec in H2 as [s2 ->].
      assert (s1 <> "") by (intros ->; apply Hd1; reflexivity).
      assert (s2 <> "") by (intros ->; apply Hd2; reflexivity).
      rewrite !stem_of_pdf_name by assumption. congruence. }
    unfold markdown_target, nl_target, pathlib.joinpath.
    split; intros E; apply app_inv_head in E; injection E as E;
      apply append_cancel_r in E; contradiction.
  - unfold markdown_target, pathlib.stem.
    rewrite !name_of_joinpath by reflexivity. reflexivity.
  - unfold nl_target, pathlib.stem.
    rewrite !name_of_joinpath by reflexivity. reflexivity.
Qed.

Lemma distinct_pdfs_get_distinct_output_files_witness :
  markdown_target sample.env (pathlib.joinpath ["data"] "a.pdf") <>
    markdown_target sample.env (pathlib.joinpath ["data"] "b.pdf") /\
  nl_target sample.env (pathlib.joinpath ["data"] "a.pdf") <>
    nl_target sample.env (pathlib.joinpath ["data"] "b.pdf").
Proof.
  apply (proj1 (distinct_pdfs_get_distinct_output_files sample.env ["data"] "a.pdf" "b.pdf"));
    (reflexivity || discriminate).
Defined.
